(** * overiva_sim_plot.py: the loader, the aggregator and the runtime ratios

    A shallow embedding of the data path of [overiva_sim_plot.py]: the
    directory loop that collects [data.json] files and [parameters.json]
    (lines 149-169), the pickle cache (lines 174-180 and 248-251), the loop
    that turns run records into table rows (lines 184-244) and [proc_ratio]
    (lines 474-486).  Plotting is not modelled.

    Numbers are what Python has: a JSON float is an IEEE 754 binary64 value,
    here Rocq's primitive [float] with its round-to-nearest-even operations; a
    JSON integer is an unbounded [Z].  Exceptions are values of [exn]; a
    statement of the script is a computation in the monad [M], which carries
    the messages passed to [warnings.warn] next to the outcome: those of the
    script and those of numpy, which reports the floating-point errors of
    its operations as warnings (the texts of the messages, and the sign of
    a sum of negative zeros, are those of numpy 2). *)

From Stdlib Require Import ZArith List Ascii String Bool Lia Floats.
From Stdlib Require Import Sorting.Permutation Sorting.Sorted.
Import ListNotations.

Set Warnings "-inexact-float".

Local Open Scope string_scope.
Local Open Scope list_scope.

(** ** Python: exceptions, outcomes and warnings *)

Module Py.

Inductive exn : Type :=
| KeyError (key : string)
| IndexError
| ZeroDivisionError
| OverflowError
| ValueError (msg : string)
| FileNotFoundError (path : string)
| UnpicklingError
| SystemExit.

Inductive result (A : Type) : Type :=
| Ok (a : A)
| Raise (e : exn).

Arguments Ok {A} a.
Arguments Raise {A} e.

(** A computation: the warnings it emitted, in order, and how it ended. *)
Definition M (A : Type) : Type := (list string * result A)%type.

Definition ret {A} (a : A) : M A := ([], Ok a).

Definition raise {A} (e : exn) : M A := ([], Raise e).

Definition bind {A B} (m : M A) (k : A -> M B) : M B :=
  match m with
  | (w, Ok a) => let (w', r) := k a in (w ++ w', r)
  | (w, Raise e) => (w, Raise e)
  end.

(** [warnings.warn(msg)]: the message is recorded and execution goes on. *)
Definition warn (msg : string) : M unit := ([msg], Ok tt).

(** [try: body except: handler], the bare [except] of line 243. *)
Definition try_except {A} (body : M A) (handler : M A) : M A :=
  match body with
  | (w, Ok a) => (w, Ok a)
  | (w, Raise _) => let (w', r) := handler in (w ++ w', r)
  end.

Definition when (b : bool) (m : M unit) : M unit :=
  if b then m else ret tt.

(** [d[key]] on a dict read from JSON: a key that is absent is [None]. *)
Definition getitem {A} (key : string) (v : option A) : M A :=
  match v with
  | Some a => ret a
  | None => raise (KeyError key)
  end.

(** [l[0]] and [l[-1]] on a list. *)
Definition getitem_first {A} (l : list A) : M A :=
  match l with
  | x :: _ => ret x
  | [] => raise IndexError
  end.

Definition getitem_last {A} (l : list A) : M A :=
  match rev l with
  | x :: _ => ret x
  | [] => raise IndexError
  end.

(** The nearest binary64 value of an integer, ties to even. *)
Definition Z2F (z : Z) : float := SF2Prim (binary_normalize prec emax z 0 false).

(** Python converts an [int] operand of a float operation with
    [PyLong_AsDouble], which refuses an integer beyond the largest float. *)
Definition float_of_int (z : Z) : M float :=
  let f := Z2F z in
  if is_infinity f then raise OverflowError else ret f.

(** [x / n] for a float [x] and an int [n]. *)
Definition float_truediv (x : float) (n : Z) : M float :=
  bind (float_of_int n) (fun d =>
  if is_zero d then raise ZeroDivisionError else ret (x / d)%float).

(** [x * n] for a float [x] and an int [n]. *)
Definition float_mul (x : float) (n : Z) : M float :=
  bind (float_of_int n) (fun d => ret (x * d)%float).

(** [for x in l: body], with the state [s] the body works on. *)
Fixpoint for_each {A S : Type} (l : list A) (body : S -> A -> M S) (s : S) : M S :=
  match l with
  | [] => ret s
  | x :: l' => bind (body s x) (for_each l' body)
  end.

End Py.

Import Py.

Notation "x <- m ;; k" := (bind m (fun x => k))
  (at level 61, m at next level, right associativity).
Notation "m ;;; k" := (bind m (fun _ => k))
  (at level 61, right associativity).

(** ** numpy on one-dimensional arrays of floats *)

Module Np.

Definition isnan (x : float) : bool := is_nan x.

(** [np.any(np.isnan(v))]. *)
Definition any_isnan (v : list float) : bool := existsb isnan v.

(** *** Floating-point errors

    numpy clears the floating-point status flags before an operation and
    reads them after it.  With its default settings ([np.seterr]: [warn] for
    all but underflow, which is ignored) each kind of error that was raised
    goes to [warnings.warn] as a [RuntimeWarning], in the order divide by
    zero, overflow, invalid value, with the name of the operation. *)
Record fperr : Type := {
  divide_by_zero : bool;
  overflowed : bool;
  invalid : bool
}.

Definition no_fperr : fperr :=
  {| divide_by_zero := false; overflowed := false; invalid := false |}.

Definition fperr_or (e f : fperr) : fperr :=
  {| divide_by_zero := divide_by_zero e || divide_by_zero f;
     overflowed := overflowed e || overflowed f;
     invalid := invalid e || invalid f |}.

Definition give_fperr (operation : string) (e : fperr) : M unit :=
  when (divide_by_zero e) (warn ("divide by zero encountered in " ++ operation)) ;;;
  when (overflowed e) (warn ("overflow encountered in " ++ operation)) ;;;
  when (invalid e) (warn ("invalid value encountered in " ++ operation)).

(** The errors IEEE 754 raises for one operation with the result [z]:
    overflow, when two finite operands give an infinity; invalid, when
    operands that are not NaN give a NaN. *)
Definition rounding_fperr (x y z : float) : fperr :=
  {| divide_by_zero := false;
     overflowed := is_finite x && is_finite y && is_infinity z;
     invalid := negb (is_nan x) && negb (is_nan y) && is_nan z |}.

Definition add_fperr (x y : float) : fperr := rounding_fperr x y (x + y).

Definition sub_fperr (x y : float) : fperr := rounding_fperr x y (x - y).

(** A division raises divide by zero for a finite dividend that is not zero
    over zero, where its result is an infinity and no overflow. *)
Definition div_fperr (x y : float) : fperr :=
  {| divide_by_zero := is_finite x && negb (is_zero x) && is_zero y;
     overflowed := is_finite x && is_finite y && negb (is_zero y) && is_infinity (x / y);
     invalid := negb (is_nan x) && negb (is_nan y) && is_nan (x / y) |}.

(** A float with the errors raised on the way to it. *)
Definition flagged : Type := (float * fperr)%type.

Definition exact (x : float) : flagged := (x, no_fperr).

Definition add_flagged (a b : flagged) : flagged :=
  ((fst a + fst b)%float,
   fperr_or (fperr_or (snd a) (snd b)) (add_fperr (fst a) (fst b))).

(** *** The sum of [np.add.reduce]

    numpy adds the entries of a contiguous array in the order of its
    [pairwise_sum]: fewer than eight entries from left to right, starting
    from [-0.0]; up to 128 entries with eight accumulators, which take the
    entries eight by eight and are then added two by two, the entries left
    over being added one by one; more entries in two halves, the first one
    of a multiple of eight entries, each summed in the same way.  The order
    is written once, for any addition. *)
Section Pairwise.

Context {A : Type} (plus : A -> A -> A) (zero : A).

Definition sum_few (v : list A) : A := fold_left plus v zero.

(** [r[j] += a[i + j]] for the eight accumulators [r]. *)
Definition add_rows (r c : list A) : list A :=
  map (fun p => plus (fst p) (snd p)) (combine r c).

(** [k] rounds of eight entries of [v] into the accumulators. *)
Fixpoint accumulate (k : nat) (r v : list A) : list A * list A :=
  match k with
  | O => (r, v)
  | S k' => accumulate k' (add_rows r (firstn 8 v)) (skipn 8 v)
  end.

Definition sum_block (v : list A) : A :=
  let (r, rest) := accumulate (List.length v / 8 - 1) (firstn 8 v) (skipn 8 v) in
  let r_ j := nth j r zero in
  fold_left plus rest
    (plus (plus (plus (r_ 0%nat) (r_ 1%nat)) (plus (r_ 2%nat) (r_ 3%nat)))
          (plus (plus (r_ 4%nat) (r_ 5%nat)) (plus (r_ 6%nat) (r_ 7%nat)))).

(** [depth] bounds the number of times the array is halved; the length of
    the array is enough ([pairwise_sum_halves] below). *)
Fixpoint pairwise (depth : nat) (v : list A) : A :=
  let n := List.length v in
  if (n <? 8)%nat then sum_few v
  else if (n <=? 128)%nat then sum_block v
  else match depth with
       | O => sum_block v
       | S depth' =>
           let n2 := (n / 2 - (n / 2) mod 8)%nat in
           plus (pairwise depth' (firstn n2 v)) (pairwise depth' (skipn n2 v))
       end.

Definition pairwise_sum (v : list A) : A := pairwise (List.length v) v.

End Pairwise.

(** [np.add.reduce(v)]: [0.0] for no entry, else the pairwise sum added to
    the initial value [-0.0], which keeps the sign of a sum of [-0.0]. *)
Definition add_reduce (v : list float) : flagged :=
  match v with
  | [] => exact 0
  | _ :: _ =>
      add_flagged (exact neg_zero)
                  (pairwise_sum add_flagged (exact neg_zero) (map exact v))
  end.

(** The value of [np.mean(v)]: the sum over the number of entries; over no
    entry at all it is [0.0 / 0], a NaN. *)
Definition mean (v : list float) : float :=
  (fst (add_reduce v) / Z2F (Z.of_nat (List.length v)))%float.

(** [np.mean(v)] with what it warns of: an empty array, the errors of the
    sum, and those of the division of the sum by the count. *)
Definition np_mean (v : list float) : M float :=
  let rcount := Z2F (Z.of_nat (List.length v)) in
  when (Nat.eqb (List.length v) 0) (warn "Mean of empty slice.") ;;;
  give_fperr "reduce" (snd (add_reduce v)) ;;;
  give_fperr "scalar divide" (div_fperr (fst (add_reduce v)) rcount) ;;;
  ret (mean v).

Fixpoint zip_sub (a b : list float) : list float :=
  match a, b with
  | x :: a', y :: b' => (x - y)%float :: zip_sub a' b'
  | _, _ => []
  end.

(** The pairs of entries of two arrays of shapes [(n,)] and [(m,)] that an
    operation works on: entry by entry when [n = m]; an array of one entry
    is stretched over the other one; any other pair of shapes cannot be
    broadcast. *)
Definition broadcast (a b : list float) : option (list (float * float)) :=
  if Nat.eqb (List.length a) (List.length b) then Some (combine a b)
  else match a, b with
       | [x], _ => Some (map (fun y => (x, y)) b)
       | _, [y] => Some (map (fun x => (x, y)) a)
       | _, _ => None
       end.

(** [a - b] on two arrays. *)
Definition subtract (a b : list float) : M (list float) :=
  match broadcast a b with
  | None => raise (ValueError "operands could not be broadcast together")
  | Some pairs =>
      give_fperr "subtract"
        (fold_left fperr_or (map (fun p => sub_fperr (fst p) (snd p)) pairs) no_fperr) ;;;
      ret (map (fun p => (fst p - snd p)%float) pairs)
  end.

(** [src / mic] on numpy integers: the quotient of the two as floats. *)
Definition true_divide (src mic : Z) : M float :=
  give_fperr "scalar divide" (div_fperr (Z2F src) (Z2F mic)) ;;;
  ret (Z2F src / Z2F mic)%float.

(** The order numpy sorts floats by: [<], with every NaN after every number. *)
Definition lt (a b : float) : bool :=
  (a <? b)%float || (isnan b && negb (isnan a)).

Definition le (a b : float) : Prop := lt b a = false.

(** [np.argsort(keys)]: the positions of [keys] in ascending order.  numpy's
    default sort leaves the order of equal keys open; here equal keys keep
    their order, and what is proved of [proc_ratio] for all frames (a
    permutation that is sorted) holds for any order of equal keys. *)
Fixpoint insert_key (x : nat * float) (l : list (nat * float)) : list (nat * float) :=
  match l with
  | [] => [x]
  | y :: l' => if lt (snd x) (snd y) then x :: l else y :: insert_key x l'
  end.

Definition sort_keys (l : list (nat * float)) : list (nat * float) :=
  fold_left (fun acc x => insert_key x acc) l [].

Definition argsort (keys : list float) : list nat :=
  map fst (sort_keys (combine (seq 0 (List.length keys)) keys)).

(** [arr[o, :]]: the rows of [arr] at the positions [o]. *)
Definition take {A} (d : A) (arr : list A) (o : list nat) : list A :=
  map (fun i => nth i arr d) o.

(** [np.unique(l)] on integers: the distinct values, ascending. *)
Fixpoint insert_unique (x : Z) (l : list Z) : list Z :=
  match l with
  | [] => [x]
  | y :: l' =>
      if (x <? y)%Z then x :: l
      else if (x =? y)%Z then l
      else y :: insert_unique x l'
  end.

Definition unique (l : list Z) : list Z :=
  fold_right insert_unique [] l.

End Np.

Import Np.

(** ** The data of the script *)

(** A run record, one JSON object of [data.json].  A field holds [None] when
    the object has no such key. *)
Record RunRecord : Type := {
  algorithm : option string;
  n_targets : option Z;
  n_mics : option Z;
  rt60 : option float;
  sinr : option float;
  seed : option Z;
  runtime : option float;
  n_samples : option Z;
  sdr : option (list (list float));
  sir : option (list (list float))
}.

(** The object of [parameters.json]; [parameters = dict()] has no key. *)
Record Parameters : Type := {
  fs : option Z;
  name : option string;
  _date : option string;
  _git_sha : option string;
  rt60_list : option (list float);
  sinr_list : option (list float)
}.

Definition empty_parameters : Parameters :=
  {| fs := None; name := None; _date := None; _git_sha := None;
     rt60_list := None; sinr_list := None |}.

(** A line of [table], in the order of [columns]. *)
Record Row : Type := {
  Algorithm : string;
  Sources : Z;
  Mics : Z;
  RT60 : float;
  SINR : float;
  Seed : Z;
  Runtime : float;
  SDR : float;
  SIR : float;
  SDR_Improvement : float;
  SIR_Improvement : float
}.

Definition columns : list string :=
  [ "Algorithm"; "Sources"; "Mics"; "RT60"; "SINR"; "seed"; "Runtime [s]";
    "SDR [dB]"; "SIR [dB]"; "SDR Improvement [dB]"; "SIR Improvement [dB]" ].

Definition copy_fields : list string :=
  [ "algorithm"; "n_targets"; "n_mics"; "rt60"; "sinr"; "seed" ].

(** [pd.DataFrame(table, columns=columns)]. *)
Record DataFrame : Type := {
  df_columns : list string;
  df_rows : list Row
}.

(** ** The aggregator (lines 212-244) *)

(** [record["sdr"][-1]] and [record["sdr"][0]], and the same for [sir]. *)
Definition final (key : string) (field : option (list (list float))) : M (list float) :=
  x <- getitem key field ;; getitem_last x.

Definition initial (key : string) (field : option (list (list float))) : M (list float) :=
  x <- getitem key field ;; getitem_first x.

(** Lines 229-242, the body of the [try]: the four averages of a record,
    in the order in which the list of line 236 evaluates them. *)
Definition averages (record : RunRecord) : M (float * float * float * float) :=
  sdr_i <- initial "sdr" (sdr record) ;;
  sdr_f <- final "sdr" (sdr record) ;;
  sir_i <- initial "sir" (sir record) ;;
  sir_f <- final "sir" (sir record) ;;
  sdr_last <- final "sdr" (sdr record) ;;
  sdr_m <- np_mean sdr_last ;;
  sir_last <- final "sir" (sir record) ;;
  sir_m <- np_mean sir_last ;;
  d_sdr <- subtract sdr_f sdr_i ;;
  sdr_d <- np_mean d_sdr ;;
  d_sir <- subtract sir_f sir_i ;;
  sir_d <- np_mean d_sir ;;
  ret (sdr_m, sir_m, sdr_d, sir_d).

(** Lines 214-217: the seven values of [entry]. *)
Definition entry (parameters : Parameters) (record : RunRecord)
  : M (string * Z * Z * float * float * Z * float) :=
  a <- getitem "algorithm" (algorithm record) ;;
  k <- getitem "n_targets" (n_targets record) ;;
  m <- getitem "n_mics" (n_mics record) ;;
  rt <- getitem "rt60" (rt60 record) ;;
  si <- getitem "sinr" (sinr record) ;;
  sd <- getitem "seed" (seed record) ;;
  (* seconds processing / second of audio *)
  t <- getitem "runtime" (runtime record) ;;
  n <- getitem "n_samples" (n_samples record) ;;
  q <- float_truediv t n ;;
  rate <- getitem "fs" (fs parameters) ;;
  rtf <- float_mul q rate ;;
  ret (a, k, m, rt, si, sd, rtf).

(** [warnings.warn("NaN ...: {}".format(record["algorithm"]))]. *)
Definition warn_nan (what : string) (record : RunRecord) : M unit :=
  a <- getitem "algorithm" (algorithm record) ;;
  warn ("NaN " ++ what ++ ": " ++ a).

(** Lines 219-226: the three warnings. *)
Definition nan_checks (record : RunRecord) : M unit :=
  t <- getitem "runtime" (runtime record) ;;
  when (isnan t) (warn_nan "runtime" record) ;;;
  sdr_last <- final "sdr" (sdr record) ;;
  when (any_isnan sdr_last) (warn_nan "SDR" record) ;;;
  sir_last <- final "sir" (sir record) ;;
  when (any_isnan sir_last) (warn_nan "SIR" record).

Definition row (e : string * Z * Z * float * float * Z * float)
    (avg : float * float * float * float) : Row :=
  let '(a, k, m, rt, si, sd, rtf) := e in
  let '(sdr_m, sir_m, sdr_d, sir_d) := avg in
  {| Algorithm := a; Sources := k; Mics := m; RT60 := rt; SINR := si; Seed := sd;
     Runtime := rtf; SDR := sdr_m; SIR := sir_m;
     SDR_Improvement := sdr_d; SIR_Improvement := sir_d |}.

(** One turn of the loop of line 212: the table after [record]. *)
Definition loop_body (parameters : Parameters) (table : list Row) (record : RunRecord)
  : M (list Row) :=
  e <- entry parameters record ;;
  nan_checks record ;;;
  try_except
    (avg <- averages record ;; ret (table ++ [row e avg]))
    (ret table).

(** The loop of line 212 over [records], from the table built so far. *)
Fixpoint build_table (parameters : Parameters) (records : list RunRecord) (table : list Row)
  : M (list Row) :=
  match records with
  | [] => ret table
  | record :: rest =>
      table' <- loop_body parameters table record ;;
      build_table parameters rest table'
  end.

(** ** Files, the loader and the cache (lines 149-190 and 246-251) *)

(** [df.to_pickle] and [pd.read_pickle]: what pandas writes for a frame, and
    what it reads back from the bytes of a file. *)
Class Pickle : Type := {
  pickled : Type;
  to_pickle : DataFrame -> pickled;
  read_pickle : pickled -> M DataFrame
}.


Section Script.

Context {P : Pickle}.

(** The files the script looks at, by path and by what they hold: the
    segments of a [data.json], the object of a [parameters.json], a pickled
    frame.  [None] is a path with no such file. *)
Record FileSystem : Type := {
  json_data : string -> option (list (list RunRecord));
  json_parameters : string -> option Parameters;
  pickles : string -> option pickled
}.

Definition write_pickle (files : FileSystem) (path : string) (b : pickled) : FileSystem :=
  {| json_data := json_data files;
     json_parameters := json_parameters files;
     pickles := fun p => if String.eqb p path then Some b else pickles files p |}.

Fixpoint endswith_sep (s : string) : bool :=
  match s with
  | EmptyString => false
  | String c EmptyString => Ascii.eqb c "/"%char
  | String _ s' => endswith_sep s'
  end.

(** [os.path.join(a, b)] for a relative [b]. *)
Definition os_path_join (a b : string) : string :=
  if String.eqb a "" || endswith_sep a then a ++ b else a ++ "/" ++ b.

(** [open(path)] followed by [json.load]. *)
Definition load {A} (store : string -> option A) (path : string) : M A :=
  match store path with
  | Some content => ret content
  | None => raise (FileNotFoundError path)
  end.

(** The loop of line 156 over the directories still to read. *)
Fixpoint read_dirs (files : FileSystem) (dirs : list string)
    (data_files : list string) (parameters : Parameters) : M (list string * Parameters) :=
  match dirs with
  | [] => ret (data_files, parameters)
  | data_dir :: rest =>
      let data_file := os_path_join data_dir "data.json" in
      data_files' <-
        match json_data files data_file with
        | Some _ => ret (data_files ++ [data_file])
        | None => raise (ValueError ("File " ++ data_file ++ " doesnt exist"))
        end ;;
      parameters' <- load (json_parameters files) (os_path_join data_dir "parameters.json") ;;
      read_dirs files rest data_files' parameters'
  end.

(** The loop of line 186: the records of every segment of every data file. *)
Fixpoint read_records (files : FileSystem) (data_files : list string)
    (records : list RunRecord) : M (list RunRecord) :=
  match data_files with
  | [] => ret records
  | file :: rest =>
      content <- load (json_data files) file ;;
      read_records files rest (records ++ List.concat content)
  end.

Definition pickle_file : string := ".mbss.pickle".

(** Lines 184-248, the [else] branch up to the frame. *)
Definition aggregate (files : FileSystem) (data_files : list string)
    (parameters : Parameters) : M DataFrame :=
  records <- read_records files data_files [] ;;
  table <- build_table parameters records [] ;;
  ret {| df_columns := columns; df_rows := table |}.

(** Lines 145-251: the files after the run, and the frame and the parameters
    the plots are drawn from.  [dirs] takes one directory or more
    ([nargs="+"]).  The model ends where the plots begin; [df_melt], which
    they use, is assigned at line 249 only, on the branch that builds the
    table. *)
Definition main (pickle_flag : bool) (dirs : list string) (files : FileSystem)
  : FileSystem * M (DataFrame * Parameters) :=
  match dirs with
  | [] => (files, raise SystemExit)
  | _ =>
      match read_dirs files dirs [] empty_parameters with
      | (w, Raise e) => (files, (w, Raise e))
      | (w, Ok (data_files, parameters)) =>
          let cached := if pickle_flag then pickles files pickle_file else None in
          match cached with
          | Some b =>
              (files, bind (w, Ok tt) (fun _ =>
                        df <- read_pickle b ;; ret (df, parameters)))
          | None =>
              match aggregate files data_files parameters with
              | (w', Ok df) =>
                  (write_pickle files pickle_file (to_pickle df),
                   (w ++ w', Ok (df, parameters)))
              | (w', Raise e) => (files, (w ++ w', Raise e))
              end
          end
      end
  end.

(** The two files of a run directory. *)
Definition data_path (dir : string) : string := os_path_join dir "data.json".
Definition parameters_path (dir : string) : string := os_path_join dir "parameters.json".

(** A directory that has both. *)
Definition complete (files : FileSystem) (dir : string) : Prop :=
  json_data files (data_path dir) <> None
  /\ json_parameters files (parameters_path dir) <> None.

End Script.

(** ** The ratio of median runtimes (lines 466-486) *)

(** A frame of medians as [pivot_table] builds it: the microphone counts of
    its index, the source counts of its columns, and a value at every pair of
    the two, NaN where the data had none. *)
Record PivotTable : Type := {
  pt_columns : list Z;
  pt_index : list Z;
  pt_at : Z -> Z -> float   (* [r[src][mic]] *)
}.

Definition mem (x : Z) (l : list Z) : bool := existsb (Z.eqb x) l.

(** How pandas aligns the labels of two operands: as they are when both
    carry the same ones, otherwise their sorted union. *)
Definition align (l1 l2 : list Z) : list Z :=
  if list_eq_dec Z.eq_dec l1 l2 then l1 else unique (l1 ++ l2).

(** [b / a] on two frames: aligned on both axes, NaN at a label that one of
    them lacks. *)
Definition frame_div (b a : PivotTable) : PivotTable :=
  {| pt_columns := align (pt_columns b) (pt_columns a);
     pt_index := align (pt_index b) (pt_index a);
     pt_at := fun src mic =>
       if mem src (pt_columns b) && mem src (pt_columns a)
          && mem mic (pt_index b) && mem mic (pt_index a)
       then (pt_at b src mic / pt_at a src mic)%float
       else nan |}.

(** The entries of the list [pts] of lines 475-479. *)
Definition points (r : PivotTable) : list (float * float) :=
  flat_map (fun src =>
    flat_map (fun mic =>
      if isnan (pt_at r src mic) then []
      else [ ((Z2F src / Z2F mic)%float, pt_at r src mic) ])
      (pt_index r))
    (unique (pt_columns r)).

(** The two loops of lines 475-479, which build [pts]: the division
    [src / mic] is numpy's, and warns of a microphone count of zero. *)
Definition pts_loop (r : PivotTable) : M (list (float * float)) :=
  for_each (unique (pt_columns r)) (fun pts src =>
    for_each (pt_index r) (fun pts mic =>
      if isnan (pt_at r src mic) then ret pts
      else q <- true_divide src mic ;; ret (pts ++ [ (q, pt_at r src mic) ]))
      pts) [].

(** [proc_ratio]: [np.array(pts)] of no point has one axis only, and
    [arr[:, 0]] on it is an [IndexError]. *)
Definition proc_ratio (r : PivotTable) : M (list (float * float)) :=
  pts <- pts_loop r ;;
  match pts with
  | [] => raise IndexError
  | _ :: _ =>
      let o := argsort (map fst pts) in
      ret (take (nan, nan) pts o)
  end.

(** The frame of the medians given by coordinate, [(sources, mics)]. *)
Fixpoint lookup (d : list (Z * Z * float)) (src mic : Z) : float :=
  match d with
  | [] => nan
  | (s, m, x) :: d' => if (s =? src)%Z && (m =? mic)%Z then x else lookup d' src mic
  end.

Definition pivot (d : list (Z * Z * float)) : PivotTable :=
  {| pt_columns := unique (map (fun e => fst (fst e)) d);
     pt_index := unique (map (fun e => snd (fst e)) d);
     pt_at := lookup d |}.

(** ** The runtime ratios, as the specification words them *)

(** The coordinates [(sources, mics)] of a frame. *)
Definition coordinates (r : PivotTable) : list (Z * Z) :=
  list_prod (unique (pt_columns r)) (pt_index r).

(** What numpy warns of while [pts] is built: the divisions by a microphone
    count of zero, at the coordinates whose entry is not a NaN, in the order
    of the two loops. *)
Definition division_warnings (r : PivotTable) : list string :=
  flat_map (fun c => fst (true_divide (fst c) (snd c)))
    (filter (fun c => negb (isnan (pt_at r (fst c) (snd c)))) (coordinates r)).

(** A coordinate that both frames have labels for. *)
Definition labelled (b a : PivotTable) (c : Z * Z) : bool :=
  mem (fst c) (pt_columns b) && mem (fst c) (pt_columns a)
  && mem (snd c) (pt_index b) && mem (snd c) (pt_index a).

(** The point of a coordinate: [(sources / mics, median(B) / median(A))]. *)
Definition ratio_point (b a : PivotTable) (c : Z * Z) : float * float :=
  ((Z2F (fst c) / Z2F (snd c))%float,
   (pt_at b (fst c) (snd c) / pt_at a (fst c) (snd c))%float).

(** The coordinates whose ratio is a number or an infinity. *)
Definition has_ratio (b a : PivotTable) (c : Z * Z) : bool :=
  labelled b a c && negb (isnan (snd (ratio_point b a c))).

Definition ratio_points (b a : PivotTable) : list (float * float) :=
  map (ratio_point b a) (filter (has_ratio b a) (coordinates (frame_div b a))).

(** The coordinates at which both frames hold a finite median. *)
Definition both_finite (b a : PivotTable) (c : Z * Z) : bool :=
  labelled b a c
  && is_finite (pt_at b (fst c) (snd c)) && is_finite (pt_at a (fst c) (snd c)).

Definition finite_points (b a : PivotTable) : list (float * float) :=
  map (ratio_point b a) (filter (both_finite b a) (coordinates (frame_div b a))).

(** The order of two rows by a key, and of two points by their first
    coordinate. *)
Definition by_key {A : Type} (key : A -> float) (p q : A) : Prop := Np.le (key p) (key q).

Definition key_le : nat * float -> nat * float -> Prop := by_key snd.

Definition by_first : float * float -> float * float -> Prop := by_key fst.

(** The medians of the worked example, and two tables that are zero at a
    shared coordinate. *)
Definition median (src mic : Z) (x : float) : Z * Z * float := (src, mic, x).

Definition example_baseline : PivotTable := pivot [median 1 2 4.0; median 2 4 8.0].
Definition example_comparison : PivotTable := pivot [median 1 2 2.0; median 2 4 8.0].
Definition zero_baseline : PivotTable := pivot [median 1 2 0.0; median 2 4 8.0].
Definition zero_comparison : PivotTable := pivot [median 1 2 0.0; median 2 4 8.0].
Definition apart_baseline : PivotTable := pivot [median 1 2 4.0].
Definition apart_comparison : PivotTable := pivot [median 2 4 8.0].

(** A frame with a microphone count of zero. *)
Definition no_microphone : PivotTable := pivot [median 1 0 2.0; median 2 4 8.0].

(** ** The rows, as the specification words them *)

(** [runtime / n_samples * fs] in binary64, from left to right. *)
Definition normalised (t : float) (n rate : Z) : float :=
  (t / Z2F n * Z2F rate)%float.

(** The average [m] of the final vector of a series and the average [d] of
    its final vector minus its initial one. *)
Definition averaged (series : list (list float)) (m d : float) : Prop :=
  exists first last diff,
    hd_error series = Some first
    /\ hd_error (rev series) = Some last
    /\ snd (subtract last first) = Ok diff
    /\ m = mean last
    /\ d = mean diff.

(** What a row says of the record it was built from. *)
Record row_from (parameters : Parameters) (record : RunRecord) (r : Row) : Prop := {
  from_algorithm : algorithm record = Some (Algorithm r);
  from_n_targets : n_targets record = Some (Sources r);
  from_n_mics : n_mics record = Some (Mics r);
  from_rt60 : rt60 record = Some (RT60 r);
  from_sinr : sinr record = Some (SINR r);
  from_seed : seed record = Some (Seed r);
  from_runtime :
    exists t n rate,
      runtime record = Some t /\ n_samples record = Some n
      /\ fs parameters = Some rate /\ Runtime r = normalised t n rate;
  from_sdr : exists series, sdr record = Some series
                            /\ averaged series (SDR r) (SDR_Improvement r);
  from_sir : exists series, sir record = Some series
                            /\ averaged series (SIR r) (SIR_Improvement r)
}.

Definition present {A} (v : option A) : bool :=
  match v with Some _ => true | None => false end.

(** The fields the loop reads before the [try], in the order it reads them,
    and the first of them that a record lacks. *)
Definition required (record : RunRecord) : list (string * bool) :=
  [ ("algorithm", present (algorithm record));
    ("n_targets", present (n_targets record));
    ("n_mics", present (n_mics record));
    ("rt60", present (rt60 record));
    ("sinr", present (sinr record));
    ("seed", present (seed record));
    ("runtime", present (runtime record));
    ("n_samples", present (n_samples record)) ].

Definition first_missing (record : RunRecord) : option string :=
  option_map fst (find (fun f => negb (snd f)) (required record)).

(** The warnings of a record of algorithm [a], runtime [t] and final vectors
    [sdr_last] and [sir_last]. *)
Definition nan_warnings (a : string) (t : float) (sdr_last sir_last : list float)
  : list string :=
  (if isnan t then [("NaN runtime: " ++ a)%string] else [])
  ++ (if any_isnan sdr_last then [("NaN SDR: " ++ a)%string] else [])
  ++ (if any_isnan sir_last then [("NaN SIR: " ++ a)%string] else []).

(** A run of two sources and four microphones, and a parameters file. *)
Definition run (t : float) (n : Z) (sdr_series sir_series : list (list float))
  : RunRecord :=
  {| algorithm := Some "overiva_laplace"; n_targets := Some 2%Z; n_mics := Some 4%Z;
     rt60 := Some 0.2%float; sinr := Some 10%float; seed := Some 1%Z;
     runtime := Some t; n_samples := Some n;
     sdr := Some sdr_series; sir := Some sir_series |}.

Definition sampled_at (rate : Z) : Parameters :=
  {| fs := Some rate; name := Some "overiva"; _date := Some "20190101";
     _git_sha := Some "0000000"; rt60_list := Some [0.2%float];
     sinr_list := Some [10%float] |}.

(** Runs with two iterations of two sources each. *)
Definition series : list (list float) := [ [1; 2]; [3; 5] ]%float.

Definition real_time_run : RunRecord := run 2 16000 series series.

(** Forty-nine samples at 49 Hz, and a tenth of a second at 44.1 kHz. *)
Definition short_run : RunRecord := run 1 49 series series.
Definition cd_run : RunRecord := run 0.1 44100 series series.

(** [0.3 - 0.1] is not [0.2] in binary64, and [2^53 + 1] is [2^53]. *)
Definition decimal_series : list (list float) := [ [0.1; 0.1]; [0.3; 0.1] ]%float.
Definition large_series : list (list float) :=
  [ [9007199254740992; 0]; [9007199254740992; 1] ]%float.

Definition decimal_run : RunRecord := run 1 16000 decimal_series decimal_series.
Definition large_run : RunRecord := run 1 16000 large_series large_series.

(** Ten sources, the first of them at [10^16] where the floats are two
    apart: added from left to right the nine ones are lost one by one; added
    the way numpy adds ten entries they are not. *)
Definition ten : list float := [10000000000000000; 1; 1; 1; 1; 1; 1; 1; 1; 1]%float.

Definition ten_source_run : RunRecord :=
  run 1 16000 [ repeat 0%float 10; ten ] [ repeat 0%float 10; ten ].

(** A run whose vectors have no source at all, and one whose final [sdr]
    vector holds an infinity of each sign. *)
Definition no_source_run : RunRecord := run 1 16000 [ [] ] [ [] ].

Definition infinite_run : RunRecord :=
  run 1 16000 [ [1; 2]; [infinity; neg_infinity] ]%float series.

(** A run with no iteration in [sdr], one without [n_samples], and one whose
    runtime and final vectors hold NaN. *)
Definition empty_sdr_run : RunRecord := run 1 16000 [] series.

Definition no_n_samples_run : RunRecord :=
  {| algorithm := Some "auxiva_laplace"; n_targets := Some 2%Z; n_mics := Some 4%Z;
     rt60 := Some 0.2%float; sinr := Some 10%float; seed := Some 1%Z;
     runtime := Some 1%float; n_samples := None;
     sdr := Some series; sir := Some series |}.

Definition nan_run : RunRecord :=
  run nan 16000 [ [1; 2]; [nan; 5] ]%float [ [1; 2]; [3; nan] ]%float.

(** ** Two run directories and a pickle that keeps the frame as it is *)

Definition plain_pickle : Pickle :=
  {| pickled := DataFrame; to_pickle := fun df => df; read_pickle := fun b => ret b |}.

(** [first/] sampled at 8 kHz and [second/] at 16 kHz, one record each, and
    no cache. *)
Definition two_dirs : @FileSystem plain_pickle :=
  {| json_data := fun path =>
       if String.eqb path "first/data.json" then Some [ [short_run] ]
       else if String.eqb path "second/data.json" then Some [ [real_time_run] ]
       else None;
     json_parameters := fun path =>
       if String.eqb path "first/parameters.json" then Some (sampled_at 8000)
       else if String.eqb path "second/parameters.json" then Some (sampled_at 16000)
       else None;
     pickles := fun _ => None |}.

(** The frame of the two records, both with the rate of [second/]. *)
Definition two_dirs_frame : DataFrame :=
  {| df_columns := columns;
     df_rows :=
       [ row ("overiva_laplace", 2%Z, 4%Z, 0.2, 10, 1%Z, 1 / Z2F 49 * Z2F 16000)%float
             (4, 4, 2.5, 2.5)%float;
         row ("overiva_laplace", 2%Z, 4%Z, 0.2, 10, 1%Z, 2)%float
             (4, 4, 2.5, 2.5)%float ] |}.

(** ** More of the loop and of the loader, in words *)


(** What a record can add to the table: nothing, or its row. *)
Definition contribution (p : Parameters) (record : RunRecord) (rs : list Row) : Prop :=
  rs = [] \/ exists r, rs = [r] /\ row_from p record r.

(** The warnings of a record that the loop reads: those of lines 219-226,
    then those of numpy in the [try]. *)
Definition warned (record : RunRecord) (ws : list string) : Prop :=
  exists a t sdr_last sir_last,
    algorithm record = Some a /\ runtime record = Some t
    /\ final "sdr" (sdr record) = ret sdr_last
    /\ final "sir" (sir record) = ret sir_last
    /\ ws = nan_warnings a t sdr_last sir_last ++ fst (averages record).

(** Runs whose initial and final [sdr] vectors have three and two entries,
    one that lacks [sir], one with no sample, and parameters without [fs]. *)
Definition ragged_run : RunRecord :=
  run 1 16000 [ [1; 2; 3]; [3; 5] ]%float series.

Definition no_sir_run : RunRecord :=
  {| algorithm := Some "auxiva_laplace"; n_targets := Some 2%Z; n_mics := Some 4%Z;
     rt60 := Some 0.2%float; sinr := Some 10%float; seed := Some 1%Z;
     runtime := Some 1%float; n_samples := Some 16000%Z;
     sdr := Some series; sir := None |}.

Definition no_sample_run : RunRecord := run 1 0 series series.

Definition no_rate : Parameters :=
  {| fs := None; name := Some "overiva"; _date := Some "20190101";
     _git_sha := Some "0000000"; rt60_list := Some [0.2%float];
     sinr_list := Some [10%float] |}.

Section Records.

Context {P : Pickle}.

(** The records of the data files of the directories, in the order of the
    command line and, within a file, of its segments. *)
Definition all_records (files : FileSystem) (dirs : list string) : list RunRecord :=
  flat_map (fun d => match json_data files (data_path d) with
                     | Some segments => List.concat segments
                     | None => []
                     end) dirs.

(** The same files with other data files. *)
Definition with_data (files : FileSystem)
    (data : string -> option (list (list RunRecord))) : FileSystem :=
  {| json_data := data;
     json_parameters := json_parameters files;
     pickles := pickles files |}.

End Records.

(** [second/] twice over, with the cache that [two_dirs] leaves, and with
    other records in its data file. *)
Definition cached_dirs : @FileSystem plain_pickle :=
  write_pickle two_dirs pickle_file two_dirs_frame.

Definition other_data (path : string) : option (list (list RunRecord)) :=
  if String.eqb path "first/data.json" then Some [ [nan_run; nan_run] ]
  else if String.eqb path "second/data.json" then Some [ ]
  else None.

(** ** After the table: names, the melted frame and the layout
       (lines 249-319) *)

Definition substitutions : list (string * string) :=
  [ ("auxiva_laplace", "AuxIVA (Laplace)");
    ("auxiva_gauss", "AuxIVA (Gauss)");
    ("auxiva_pca_laplace", "PCA+AuxIVA (Laplace)");
    ("auxiva_pca_gauss", "PCA+AuxIVA (Gauss)");
    ("overiva_laplace", "OverIVA (Laplace)");
    ("overiva_gauss", "OverIVA (Gauss)");
    ("ogive_laplace", "OGIVEw (Laplace)");
    ("ogive_gauss", "OGIVEw (Gauss)") ].

Definition all_algos : list string :=
  [ "AuxIVA (Laplace)"; "OverIVA (Laplace)"; "PCA+AuxIVA (Laplace)"; "OGIVEw (Laplace)";
    "AuxIVA (Gauss)"; "OverIVA (Gauss)"; "PCA+AuxIVA (Gauss)"; "OGIVEw (Gauss)" ].

Definition algo_merge : list (string * string) :=
  [ ("AuxIVA (Laplace)", "AuxIVA");
    ("OverIVA (Laplace)", "OverIVA");
    ("PCA+AuxIVA (Laplace)", "PCA+AuxIVA");
    ("OGIVEw (Laplace)", "OGIVEw");
    ("AuxIVA (Gauss)", "AuxIVA");
    ("OverIVA (Gauss)", "OverIVA");
    ("PCA+AuxIVA (Gauss)", "PCA+AuxIVA");
    ("OGIVEw (Gauss)", "OGIVEw") ].

(** What a dict of replacements makes of a value: the value of its key, or
    the value itself when it is no key. *)
Fixpoint replaced (d : list (string * string)) (x : string) : string :=
  match d with
  | [] => x
  | (k, v) :: d' => if String.eqb x k then v else replaced d' x
  end.

(** [df.replace(d)] on a line of the table, whose one column of strings is
    [Algorithm]. *)
Definition replace_row (d : list (string * string)) (r : Row) : Row :=
  {| Algorithm := replaced d (Algorithm r); Sources := Sources r; Mics := Mics r;
     RT60 := RT60 r; SINR := SINR r; Seed := Seed r; Runtime := Runtime r;
     SDR := SDR r; SIR := SIR r;
     SDR_Improvement := SDR_Improvement r; SIR_Improvement := SIR_Improvement r |}.

Definition replace (d : list (string * string)) (df : DataFrame) : DataFrame :=
  {| df_columns := df_columns df; df_rows := map (replace_row d) (df_rows df) |}.

(** A line of the melted frame: the six identifier columns, the name of a
    metric and its value. *)
Record MeltedRow : Type := {
  m_Algorithm : string;
  m_Sources : Z;
  m_Mics : Z;
  m_RT60 : float;
  m_SINR : float;
  m_Seed : Z;
  metric : string;
  value : float
}.

(** The columns that are no identifier, in the order of [columns]. *)
Definition value_vars : list (string * (Row -> float)) :=
  [ ("Runtime [s]", Runtime); ("SDR [dB]", SDR); ("SIR [dB]", SIR);
    ("SDR Improvement [dB]", SDR_Improvement);
    ("SIR Improvement [dB]", SIR_Improvement) ].

Definition melted (v : string * (Row -> float)) (r : Row) : MeltedRow :=
  {| m_Algorithm := Algorithm r; m_Sources := Sources r; m_Mics := Mics r;
     m_RT60 := RT60 r; m_SINR := SINR r; m_Seed := Seed r;
     metric := fst v; value := snd v r |}.

(** [df.melt(id_vars=df.columns[:6], var_name="metric")]: one value column
    after the other, each over all the lines of the table in their order. *)
Definition melt (rows : list Row) : list MeltedRow :=
  flat_map (fun v => map (melted v) rows) value_vars.

(** [df_melt.replace(substitutions)], on the column [Algorithm]. *)
Definition replace_melted (d : list (string * string)) (m : MeltedRow) : MeltedRow :=
  {| m_Algorithm := replaced d (m_Algorithm m); m_Sources := m_Sources m;
     m_Mics := m_Mics m; m_RT60 := m_RT60 m; m_SINR := m_SINR m; m_Seed := m_Seed m;
     metric := metric m; value := value m |}.

(** Line 339: the mask of the lines of the melted frame of one
    reverberation time and one SINR. *)
Definition select (df_melt : list MeltedRow) (rt60_value sinr_value : float) : list bool :=
  map (fun m => (m_RT60 m =? rt60_value)%float && (m_SINR m =? sinr_value)%float) df_melt.

(** [df.loc[mask]] for a mask labelled [0, 1, ...] that is at least as long
    as the table: pandas reads it at the labels of the table, its first
    positions.  (A shorter mask cannot be aligned; [select] gives none.) *)
Definition loc (rows : list Row) (mask : list bool) : list Row :=
  map fst (filter snd (combine rows mask)).

(** A name that is read before it is assigned, or an exception. *)
Inductive failure : Type :=
| NameError (name : string)
| Uncaught (e : exn).

Definition full_width : float := 6.93.
Definition aspect : float := 1.1.

(** Line 316. *)
Definition n_cols (df : DataFrame) : Z :=
  Z.of_nat (List.length (unique (map Sources (df_rows df)))).

(** Lines 317-319: [full_width / n_cols / aspect]. *)
Definition height (df : DataFrame) : M float :=
  h <- float_truediv full_width (n_cols df) ;; ret (h / aspect)%float.

(** Lines 307-309. *)
Definition fig_dir (parameters : Parameters) : M string :=
  n <- getitem "name" (name parameters) ;;
  d <- getitem "_date" (_date parameters) ;;
  g <- getitem "_git_sha" (_git_sha parameters) ;;
  ret ("figures/" ++ n ++ "_" ++ d ++ "_" ++ g)%string.

(** What the plots start from. *)
Record Prepared : Type := {
  pr_df : DataFrame;
  pr_df_melt : list MeltedRow;
  pr_fig_dir : string;
  pr_height : float;
  pr_parameters : Parameters
}.

Section Prepare.

Context {P : Pickle}.

(** Lines 273-319 after [main]: [df_melt] is assigned at line 249, on the
    branch that builds the table, and read at line 274.  The directories of
    the figures and the settings of the plots are left out. *)
Definition prepare (pickle_flag : bool) (dirs : list string) (files : FileSystem)
  : FileSystem * (list string * (Prepared + failure)) :=
  match main pickle_flag dirs files with
  | (files', (w, Raise e)) => (files', (w, inr (Uncaught e)))
  | (files', (w, Ok (df0, parameters))) =>
      let df_melt0 :=
        match (if pickle_flag then pickles files pickle_file else None) with
        | Some _ => None
        | None => Some (melt (df_rows df0))
        end in
      let df := replace substitutions df0 in
      match df_melt0 with
      | None => (files', (w, inr (NameError "df_melt")))
      | Some m =>
          let df_melt := map (replace_melted substitutions) m in
          match fig_dir parameters with
          | (w1, Raise e) => (files', (w ++ w1, inr (Uncaught e)))
          | (w1, Ok dir) =>
              match height df with
              | (w2, Raise e) => (files', (w ++ w1 ++ w2, inr (Uncaught e)))
              | (w2, Ok h) =>
                  (files', (w ++ w1 ++ w2,
                            inl {| pr_df := df; pr_df_melt := df_melt;
                                   pr_fig_dir := dir; pr_height := h;
                                   pr_parameters := parameters |}))
              end
          end
      end
  end.

End Prepare.

(** ** The medians and the three ratios (lines 466-486) *)

(** The lines of one algorithm and one configuration, and their runtimes. *)
Definition in_group (algo : string) (src mic : Z) (r : Row) : bool :=
  String.eqb (Algorithm r) algo && (Sources r =? src)%Z && (Mics r =? mic)%Z.

Definition group (rows : list Row) (algo : string) (src mic : Z) : list float :=
  map Runtime (filter (in_group algo src mic) rows).

(** The values in ascending order. *)
Definition sort_values (l : list float) : list float :=
  map snd (sort_keys (combine (seq 0 (List.length l)) l)).

(** The median pandas takes of the values of a group: of those that are
    not NaN, the middle one of an odd number, half the sum of the two middle
    ones of an even number, and NaN of none. *)
Definition median_of (l : list float) : float :=
  let s := sort_values (filter (fun x => negb (isnan x)) l) in
  let n := List.length s in
  match n with
  | O => nan
  | _ => if Nat.even n
         then ((nth (n / 2 - 1) s nan + nth (n / 2) s nan) / 2)%float
         else nth (n / 2) s nan
  end.

(** The lines whose group has a median: [pivot_table] drops the others. *)
Definition kept (rows : list Row) (r : Row) : bool :=
  negb (isnan (median_of (group rows (Algorithm r) (Sources r) (Mics r)))).

(** [pvtb[algo]] for the [pvtb] of lines 467-472: the medians of the runtime
    by microphones (index) and by algorithm and sources (columns), read at
    one algorithm. *)
Definition pvtb_getitem (rows : list Row) (algo : string) : M PivotTable :=
  let present := filter (kept rows) rows in
  match filter (fun r => String.eqb (Algorithm r) algo) present with
  | [] => raise (KeyError algo)
  | of_algo =>
      ret {| pt_columns := unique (map Sources of_algo);
             pt_index := unique (map Mics present);
             pt_at := fun src mic => median_of (group rows algo src mic) |}
  end.

(** Lines 466-486 for the selected lines of the table. *)
Definition runtime_ratios (selected : list Row)
  : M (list (float * float) * list (float * float) * list (float * float)) :=
  let df_med := map (replace_row algo_merge) selected in
  overiva <- pvtb_getitem df_med "OverIVA" ;;
  auxiva <- pvtb_getitem df_med "AuxIVA" ;;
  ratio_overiva <- proc_ratio (frame_div overiva auxiva) ;;
  pca <- pvtb_getitem df_med "PCA+AuxIVA" ;;
  auxiva' <- pvtb_getitem df_med "AuxIVA" ;;
  ratio_pca <- proc_ratio (frame_div pca auxiva') ;;
  ogive <- pvtb_getitem df_med "OGIVEw" ;;
  auxiva'' <- pvtb_getitem df_med "AuxIVA" ;;
  ratio_ogive <- proc_ratio (frame_div ogive auxiva'') ;;
  ret (ratio_overiva, ratio_pca, ratio_ogive).

(** The four families the ratios need. *)
Definition families : list string := [ "OverIVA"; "AuxIVA"; "PCA+AuxIVA"; "OGIVEw" ].

(** The point of a configuration: the ratio of the medians of two families. *)
Definition median_ratio (rows : list Row) (algo : string) (c : Z * Z) : float * float :=
  ((Z2F (fst c) / Z2F (snd c))%float,
   (median_of (group rows algo (fst c) (snd c))
    / median_of (group rows "AuxIVA" (fst c) (snd c)))%float).

(** What a list of points is when it holds, sorted by their first
    coordinate, one point for each configuration at which the ratio of the
    medians is not NaN, and no other point. *)
Definition ratios_of_medians (rows : list Row) (algo : string)
    (out : list (float * float)) : Prop :=
  Sorted by_first out
  /\ exists configs : list (Z * Z),
       NoDup configs
       /\ (forall c, In c configs <-> isnan (snd (median_ratio rows algo c)) = false)
       /\ Permutation out (map (median_ratio rows algo) configs).

(** A line of the table by algorithm, sources, microphones and runtime. *)
Definition timing (a : string) (k m : Z) (t : float) : Row :=
  {| Algorithm := a; Sources := k; Mics := m; RT60 := 0.2; SINR := 10; Seed := 1%Z;
     Runtime := t; SDR := 4; SIR := 4; SDR_Improvement := 2.5; SIR_Improvement := 2.5 |}.

(** One configuration timed for the four families, OverIVA twice. *)
Definition timings : list Row :=
  [ timing "overiva_laplace" 2 4 1; timing "overiva_gauss" 2 4 3;
    timing "auxiva_laplace" 2 4 4; timing "auxiva_pca_gauss" 2 4 2;
    timing "ogive_laplace" 2 4 8 ]%float.


(** The lines of [timings] under their display names, and those without the
    line of OGIVE. *)
Definition displayed_timings : list Row := map (replace_row substitutions) timings.

Definition timings_without_ogive : list Row := removelast displayed_timings.

(** The two directories with no record that gets a row, and with parameters
    that have no [name]. *)
Definition barren_dirs : @FileSystem plain_pickle :=
  with_data two_dirs (fun path =>
    if String.eqb path "first/data.json" then Some [ ]
    else if String.eqb path "second/data.json" then Some [ [ragged_run]; [ ] ]
    else None).

Definition anonymous : Parameters :=
  {| fs := Some 16000%Z; name := None; _date := Some "20190101";
     _git_sha := None; rt60_list := Some [0.2%float]; sinr_list := Some [10%float] |}.

Definition anonymous_dirs : @FileSystem plain_pickle :=
  {| json_data := json_data two_dirs;
     json_parameters := fun path =>
       if String.eqb path "first/parameters.json" then Some (sampled_at 8000)
       else if String.eqb path "second/parameters.json" then Some anonymous
       else None;
     pickles := pickles two_dirs |}.

(** * Properties *)

(** ** The monad *)

Module MonadFacts.

Lemma bind_ret_l {A B} (a : A) (k : A -> M B) : bind (ret a) k = k a.
Proof. unfold bind, ret. now destruct (k a). Qed.

Lemma bind_nil_ok {A B} (a : A) (k : A -> M B) : bind ([], Ok a) k = k a.
Proof. apply bind_ret_l. Qed.

Lemma bind_ok {A B} (m : M A) (k : A -> M B) (w : list string) (b : B) :
  bind m k = (w, Ok b) ->
  exists w1 a w2, m = (w1, Ok a) /\ k a = (w2, Ok b) /\ w = w1 ++ w2.
Proof.
  unfold bind. destruct m as [w1 [a|e]]; [|discriminate].
  destruct (k a) as [w2 r] eqn:E. intros H. inversion H; subst.
  exists w1, a, w2. auto.
Qed.

Lemma bind_raise {A B} (m : M A) (k : A -> M B) (w : list string) (e : exn) :
  m = (w, Raise e) -> bind m k = (w, Raise e).
Proof. now intros ->. Qed.

Lemma bind_step {A B} (m : M A) (k : A -> M B) (w : list string) (a : A) :
  m = (w, Ok a) -> bind m k = (w ++ fst (k a), snd (k a)).
Proof. intros ->. unfold bind. now destruct (k a). Qed.

Lemma getitem_ok {A} (key : string) (v : option A) (w : list string) (a : A) :
  getitem key v = (w, Ok a) -> v = Some a /\ w = [].
Proof. destruct v; simpl; intros H; inversion H; auto. Qed.

End MonadFacts.

(** ** Floats: NaN and the order of the sort *)

Module FloatFacts.

Lemma isnan_eq (x : float) : is_nan x = true <-> x = nan.
Proof.
  split.
  - intros H. rewrite <- (SF2Prim_Prim2SF x). unfold Prim2SF. now rewrite H.
  - intros ->. reflexivity.
Qed.

Lemma Prim2SF_nan (x : float) : Prim2SF x = S754_nan -> is_nan x = true.
Proof.
  intros H. apply isnan_eq. rewrite <- (SF2Prim_Prim2SF x). now rewrite H.
Qed.

Lemma div_nan_r (x y : float) : is_nan y = true -> is_nan (x / y) = true.
Proof.
  intros H. apply isnan_eq in H. subst y. apply Prim2SF_nan.
  rewrite div_spec. change (Prim2SF nan) with S754_nan.
  unfold SF64div, SFdiv. now destruct (Prim2SF x).
Qed.

Lemma div_nan_l (x y : float) : is_nan x = true -> is_nan (x / y) = true.
Proof.
  intros H. apply isnan_eq in H. subst x. apply Prim2SF_nan.
  rewrite div_spec. change (Prim2SF nan) with S754_nan. reflexivity.
Qed.

Lemma SFcompare_antisym (x y : spec_float) :
  SFcompare y x = option_map CompOpp (SFcompare x y).
Proof.
  destruct x as [sx|sx| |sx mx ex], y as [sy|sy| |sy my ey]; simpl;
    try reflexivity;
    try (destruct sx; reflexivity);
    try (destruct sy; reflexivity);
    try (destruct sx, sy; reflexivity).
  destruct sx, sy; simpl; try reflexivity;
    rewrite (Z.compare_antisym ey ex);
    destruct (ey ?= ex)%Z; simpl; try reflexivity;
    change (PosDef.Pos.compare_cont Eq my mx) with (Pos.compare_cont (CompOpp Eq) my mx);
    now rewrite <- (Pos.compare_cont_antisym mx my Eq).
Qed.

Lemma ltb_not_nan (a b : float) :
  (a <? b)%float = true -> is_nan a = false /\ is_nan b = false.
Proof.
  rewrite ltb_spec. intros H. split.
  - destruct (is_nan a) eqn:E; [|reflexivity].
    apply isnan_eq in E. subst a. discriminate H.
  - destruct (is_nan b) eqn:E; [|reflexivity].
    apply isnan_eq in E. subst b. change (Prim2SF nan) with S754_nan in H.
    unfold SFltb, SFcompare in H. now destruct (Prim2SF a).
Qed.

Lemma ltb_asym (a b : float) : (a <? b)%float = true -> (b <? a)%float = false.
Proof.
  rewrite !ltb_spec. unfold SFltb. rewrite (SFcompare_antisym (Prim2SF a) (Prim2SF b)).
  destruct (SFcompare (Prim2SF a) (Prim2SF b)) as [[]|]; simpl; congruence.
Qed.

Lemma ltb_nan_l (b : float) : (nan <? b)%float = false.
Proof. rewrite ltb_spec. reflexivity. Qed.

(** numpy's order never puts two values each before the other. *)
Lemma lt_asym (a b : float) : Np.lt a b = true -> Np.lt b a = false.
Proof.
  unfold Np.lt, isnan. intros H. apply orb_true_iff in H. destruct H as [H|H].
  - destruct (ltb_not_nan _ _ H) as [Ha Hb]. rewrite (ltb_asym _ _ H), Ha. reflexivity.
  - apply andb_true_iff in H. destruct H as [Hb Ha].
    apply negb_true_iff in Ha. rewrite Hb, Ha.
    apply isnan_eq in Hb. subst b. now rewrite ltb_nan_l.
Qed.

Lemma mul_nan_l (x y : float) : is_nan x = true -> is_nan (x * y) = true.
Proof.
  intros H. apply isnan_eq in H. subst x. apply Prim2SF_nan.
  rewrite mul_spec. change (Prim2SF nan) with S754_nan. reflexivity.
Qed.

(** Two floats that [=?] tells apart are not the same float. *)
Lemma neq_by_eqb (a b : float) :
  (a =? b)%float = false -> is_nan a = false -> a <> b.
Proof.
  intros H N E. subst b. unfold is_nan in N. rewrite H in N. discriminate.
Qed.

(** The kind of a float, read on its specification. *)
Lemma is_nan_SF (x : float) :
  is_nan x = match Prim2SF x with S754_nan => true | _ => false end.
Proof.
  destruct (is_nan x) eqn:E.
  - apply isnan_eq in E. now subst x.
  - destruct (Prim2SF x) eqn:S; try reflexivity.
    apply Prim2SF_nan in S. congruence.
Qed.

Lemma is_infinity_SF (x : float) :
  is_infinity x = match Prim2SF x with S754_infinity _ => true | _ => false end.
Proof.
  unfold is_infinity. rewrite eqb_spec, abs_spec.
  change (Prim2SF infinity) with (S754_infinity false).
  now destruct (Prim2SF x).
Qed.

Lemma is_zero_SF (x : float) :
  is_zero x = match Prim2SF x with S754_zero _ => true | _ => false end.
Proof.
  unfold is_zero. rewrite eqb_spec. change (Prim2SF zero) with (S754_zero false).
  destruct (Prim2SF x) as [s|s| |s m e]; try reflexivity; now destruct s.
Qed.

Lemma is_finite_SF (x : float) :
  is_finite x
  = match Prim2SF x with S754_nan | S754_infinity _ => false | _ => true end.
Proof.
  unfold is_finite. rewrite is_nan_SF, is_infinity_SF. now destruct (Prim2SF x).
Qed.

Lemma finite_not_nan (x : float) : is_finite x = true -> is_nan x = false.
Proof. rewrite is_finite_SF, is_nan_SF. now destruct (Prim2SF x). Qed.

Lemma finite_not_infinity (x : float) : is_finite x = true -> is_infinity x = false.
Proof. rewrite is_finite_SF, is_infinity_SF. now destruct (Prim2SF x). Qed.

Lemma Prim2SF_inj (x y : float) : Prim2SF x = Prim2SF y -> x = y.
Proof.
  intros H. rewrite <- (SF2Prim_Prim2SF x), <- (SF2Prim_Prim2SF y). now rewrite H.
Qed.

(** [-0.0] is neutral for the addition, on the left. *)
Lemma neg_zero_add (y : float) : (neg_zero + y)%float = y.
Proof.
  apply Prim2SF_inj. rewrite add_spec.
  change (Prim2SF neg_zero) with (S754_zero true).
  unfold SF64add, SFadd. destruct (Prim2SF y) as [s|s| |s m e]; try reflexivity.
  now destruct s.
Qed.

Lemma add_nan_l (x y : float) : is_nan x = true -> is_nan (x + y) = true.
Proof.
  intros H. apply isnan_eq in H. subst x. apply Prim2SF_nan.
  rewrite add_spec. change (Prim2SF nan) with S754_nan. reflexivity.
Qed.

Lemma add_nan_r (x y : float) : is_nan y = true -> is_nan (x + y) = true.
Proof.
  intros H. apply isnan_eq in H. subst y. apply Prim2SF_nan.
  rewrite add_spec. change (Prim2SF nan) with S754_nan.
  unfold SF64add, SFadd. now destruct (Prim2SF x).
Qed.

Lemma sub_nan_l (x y : float) : is_nan x = true -> is_nan (x - y) = true.
Proof.
  intros H. apply isnan_eq in H. subst x. apply Prim2SF_nan.
  rewrite sub_spec. change (Prim2SF nan) with S754_nan. reflexivity.
Qed.

Lemma sub_nan_r (x y : float) : is_nan y = true -> is_nan (x - y) = true.
Proof.
  intros H. apply isnan_eq in H. subst y. apply Prim2SF_nan.
  rewrite sub_spec. change (Prim2SF nan) with S754_nan.
  unfold SF64sub, SFsub. now destruct (Prim2SF x).
Qed.

(** A sum, a difference or a quotient that is finite has finite operands,
    zero not being divided by. *)
Lemma add_finite (x y : float) :
  is_finite (x + y) = true -> is_finite x = true /\ is_finite y = true.
Proof.
  rewrite !is_finite_SF, add_spec. unfold SF64add, SFadd.
  destruct (Prim2SF x) as [sx|sx| |sx mx ex], (Prim2SF y) as [sy|sy| |sy my ey];
    intros H;
    repeat match type of H with context [if ?b then _ else _] => destruct b end;
    try discriminate H; now split.
Qed.

Lemma sub_finite (x y : float) :
  is_finite (x - y) = true -> is_finite x = true /\ is_finite y = true.
Proof.
  rewrite !is_finite_SF, sub_spec. unfold SF64sub, SFsub.
  destruct (Prim2SF x) as [sx|sx| |sx mx ex], (Prim2SF y) as [sy|sy| |sy my ey];
    intros H;
    repeat match type of H with context [if ?b then _ else _] => destruct b end;
    try discriminate H; now split.
Qed.

Lemma div_finite (x y : float) :
  is_finite (x / y) = true ->
  is_finite x = true /\ is_nan y = false /\ (is_zero y = true -> is_zero x = true).
Proof.
  rewrite !is_finite_SF, is_nan_SF, !is_zero_SF, div_spec. unfold SF64div, SFdiv.
  destruct (Prim2SF x) as [sx|sx| |sx mx ex], (Prim2SF y) as [sy|sy| |sy my ey];
    intros H; try discriminate H; repeat split; try reflexivity; try discriminate.
Qed.

End FloatFacts.

(** ** numpy's sum: its order, its value and its errors *)

Module SumFacts.

Import FloatFacts.

(** *** Related additions give related sums *)

Section Related.

Context {A B : Type} (plusA : A -> A -> A) (plusB : B -> B -> B) (zeroA : A) (zeroB : B).
Context (R : A -> B -> Prop).

Hypothesis R_zero : R zeroA zeroB.
Hypothesis R_plus : forall a a' b b', R a b -> R a' b' -> R (plusA a a') (plusB b b').

Lemma fold_left_related (v1 : list A) (v2 : list B) :
  Forall2 R v1 v2 ->
  forall a b, R a b -> R (fold_left plusA v1 a) (fold_left plusB v2 b).
Proof. induction 1; simpl; auto. Qed.

Lemma firstn_related (n : nat) (v1 : list A) (v2 : list B) :
  Forall2 R v1 v2 -> Forall2 R (firstn n v1) (firstn n v2).
Proof.
  intros H. revert n. induction H; intros [|n]; simpl; constructor; auto.
Qed.

Lemma skipn_related (n : nat) (v1 : list A) (v2 : list B) :
  Forall2 R v1 v2 -> Forall2 R (skipn n v1) (skipn n v2).
Proof.
  intros H. revert n. induction H; intros [|n]; simpl; auto.
Qed.

Lemma add_rows_related (r1 c1 : list A) (r2 c2 : list B) :
  Forall2 R r1 r2 -> Forall2 R c1 c2 ->
  Forall2 R (add_rows plusA r1 c1) (add_rows plusB r2 c2).
Proof.
  intros Hr. revert c1 c2. unfold add_rows.
  induction Hr; intros c1 c2 Hc; simpl; [constructor|].
  destruct Hc; simpl; constructor; auto.
Qed.

Lemma accumulate_related (k : nat) :
  forall (r1 v1 : list A) (r2 v2 : list B),
    Forall2 R r1 r2 -> Forall2 R v1 v2 ->
    Forall2 R (fst (accumulate plusA k r1 v1)) (fst (accumulate plusB k r2 v2))
    /\ Forall2 R (snd (accumulate plusA k r1 v1)) (snd (accumulate plusB k r2 v2)).
Proof.
  induction k as [|k IH]; intros r1 v1 r2 v2 Hr Hv; cbn [accumulate]; [auto|].
  apply IH.
  - apply add_rows_related; [assumption|]. now apply firstn_related.
  - now apply skipn_related.
Qed.

Lemma nth_related (j : nat) (r1 : list A) (r2 : list B) :
  Forall2 R r1 r2 -> R (nth j r1 zeroA) (nth j r2 zeroB).
Proof.
  intros H. revert j. induction H; intros [|j]; simpl; auto.
Qed.

Lemma sum_block_related (v1 : list A) (v2 : list B) :
  Forall2 R v1 v2 -> R (sum_block plusA zeroA v1) (sum_block plusB zeroB v2).
Proof.
  intros H. unfold sum_block. rewrite (Forall2_length H).
  destruct (accumulate_related (List.length v2 / 8 - 1)
              (firstn 8 v1) (skipn 8 v1) (firstn 8 v2) (skipn 8 v2)
              (firstn_related 8 _ _ H) (skipn_related 8 _ _ H)) as [Hr Hrest].
  destruct (accumulate plusA _ _ _) as [r1 rest1].
  destruct (accumulate plusB _ _ _) as [r2 rest2]. simpl in Hr, Hrest.
  apply fold_left_related; [assumption|].
  repeat apply R_plus; now apply nth_related.
Qed.

Lemma pairwise_related (depth : nat) :
  forall (v1 : list A) (v2 : list B),
    Forall2 R v1 v2 ->
    R (pairwise plusA zeroA depth v1) (pairwise plusB zeroB depth v2).
Proof.
  induction depth as [|depth IH]; intros v1 v2 H; cbn [pairwise];
    rewrite (Forall2_length H);
    destruct (List.length v2 <? 8)%nat;
    try (now apply fold_left_related);
    destruct (List.length v2 <=? 128)%nat;
    try (now apply sum_block_related).
  apply R_plus; apply IH; [now apply firstn_related|now apply skipn_related].
Qed.

Lemma pairwise_sum_related (v1 : list A) (v2 : list B) :
  Forall2 R v1 v2 -> R (pairwise_sum plusA zeroA v1) (pairwise_sum plusB zeroB v2).
Proof.
  intros H. unfold pairwise_sum. rewrite (Forall2_length H).
  now apply pairwise_related.
Qed.

End Related.

(** *** The order of the sum *)

Section Order.

Context {A : Type} (plus : A -> A -> A) (zero : A).

Lemma pairwise_few (depth : nat) (v : list A) :
  List.length v < 8 -> pairwise plus zero depth v = fold_left plus v zero.
Proof.
  intros H. apply Nat.ltb_lt in H. destruct depth; cbn [pairwise]; now rewrite H.
Qed.

Lemma pairwise_block (depth : nat) (v : list A) :
  8 <= List.length v <= 128 -> pairwise plus zero depth v = sum_block plus zero v.
Proof.
  intros [H8 H128].
  assert (E1 : (List.length v <? 8)%nat = false) by (apply Nat.ltb_ge; lia).
  apply Nat.leb_le in H128.
  destruct depth; cbn [pairwise]; now rewrite E1, H128.
Qed.

Lemma half_bounds (n : nat) :
  128 < n -> 0 < n / 2 - (n / 2) mod 8 < n.
Proof.
  intros H.
  pose proof (Nat.div_mod_eq n 2) as E.
  pose proof (Nat.mod_upper_bound n 2 ltac:(lia)) as B.
  pose proof (Nat.mod_upper_bound (n / 2) 8 ltac:(lia)) as B'.
  lia.
Qed.

(** A depth of the length of the array is enough. *)
Lemma pairwise_depth (d : nat) :
  forall (d' : nat) (v : list A),
    List.length v <= d -> List.length v <= d' ->
    pairwise plus zero d v = pairwise plus zero d' v.
Proof.
  induction d as [|d IH]; intros d' v H H'.
  - rewrite !pairwise_few by lia. reflexivity.
  - destruct (Nat.lt_ge_cases (List.length v) 8) as [L|L];
      [rewrite !pairwise_few by lia; reflexivity|].
    destruct (Nat.le_gt_cases (List.length v) 128) as [L'|L'];
      [rewrite !pairwise_block by lia; reflexivity|].
    destruct d' as [|d']; [lia|].
    assert (E1 : (List.length v <? 8)%nat = false) by (apply Nat.ltb_ge; lia).
    assert (E2 : (List.length v <=? 128)%nat = false) by (apply Nat.leb_gt; lia).
    cbn [pairwise]. rewrite E1, E2.
    pose proof (half_bounds _ L') as Hn.
    f_equal; apply IH; rewrite ?length_firstn, ?length_skipn; lia.
Qed.

(** The three cases of numpy's [pairwise_sum]. *)
Lemma pairwise_sum_few (v : list A) :
  List.length v < 8 -> pairwise_sum plus zero v = fold_left plus v zero.
Proof. apply pairwise_few. Qed.

Lemma pairwise_sum_block (v : list A) :
  8 <= List.length v <= 128 -> pairwise_sum plus zero v = sum_block plus zero v.
Proof. apply pairwise_block. Qed.

Lemma pairwise_sum_halves (v : list A) :
  128 < List.length v ->
  let n2 := List.length v / 2 - (List.length v / 2) mod 8 in
  pairwise_sum plus zero v
  = plus (pairwise_sum plus zero (firstn n2 v)) (pairwise_sum plus zero (skipn n2 v)).
Proof.
  intros L n2. unfold pairwise_sum at 1.
  assert (E1 : (List.length v <? 8)%nat = false) by (apply Nat.ltb_ge; lia).
  assert (E2 : (List.length v <=? 128)%nat = false) by (apply Nat.leb_gt; lia).
  destruct (List.length v) as [|d] eqn:E; [lia|].
  cbn [pairwise]. rewrite E, E1, E2. fold n2.
  pose proof (half_bounds (S d) L) as Hn. fold n2 in Hn.
  unfold pairwise_sum.
  f_equal; apply pairwise_depth; rewrite ?length_firstn, ?length_skipn; lia.
Qed.

Lemma add_rows_length (r c : list A) :
  List.length (add_rows plus r c) = Nat.min (List.length r) (List.length c).
Proof. unfold add_rows. now rewrite length_map, length_combine. Qed.

End Order.

(** *** In exact arithmetic the sum is the sum: every entry is added once *)

Lemma fold_left_total (v : list Z) (z : Z) :
  fold_left Z.add v z = (z + fold_right Z.add 0 v)%Z.
Proof.
  revert z. induction v as [|x v IH]; intros z; simpl; [lia|]. rewrite IH. lia.
Qed.

Lemma total_app (u v : list Z) :
  fold_right Z.add 0%Z (u ++ v) = (fold_right Z.add 0 u + fold_right Z.add 0 v)%Z.
Proof. induction u as [|x u IH]; simpl; lia. Qed.

Lemma add_rows_total (r c : list Z) :
  List.length r = List.length c ->
  fold_right Z.add 0%Z (add_rows Z.add r c)
  = (fold_right Z.add 0 r + fold_right Z.add 0 c)%Z.
Proof.
  revert c. unfold add_rows.
  induction r as [|x r IH]; intros [|y c] H; simpl in *; try discriminate; [lia|].
  rewrite IH by lia. lia.
Qed.

Lemma accumulate_total (k : nat) :
  forall r v : list Z,
    List.length r = 8 -> 8 * k <= List.length v ->
    List.length (fst (accumulate Z.add k r v)) = 8
    /\ (fold_right Z.add 0 (fst (accumulate Z.add k r v))
        + fold_right Z.add 0 (snd (accumulate Z.add k r v))
        = fold_right Z.add 0 r + fold_right Z.add 0 v)%Z.
Proof.
  induction k as [|k IH]; intros r v Hr Hv; cbn [accumulate]; [auto|].
  assert (Hf : List.length (firstn 8 v) = 8) by (rewrite length_firstn; lia).
  destruct (IH (add_rows Z.add r (firstn 8 v)) (skipn 8 v)) as [Hl Ht].
  - rewrite add_rows_length. lia.
  - rewrite length_skipn. lia.
  - split; [exact Hl|]. rewrite Ht, add_rows_total by lia.
    rewrite <- (firstn_skipn 8 v) at 3. rewrite total_app. lia.
Qed.

Lemma sum_block_total (v : list Z) :
  8 <= List.length v -> sum_block Z.add 0%Z v = fold_right Z.add 0%Z v.
Proof.
  intros H. unfold sum_block.
  destruct (accumulate_total (List.length v / 8 - 1) (firstn 8 v) (skipn 8 v))
    as [Hl Ht].
  - rewrite length_firstn. lia.
  - rewrite length_skipn. pose proof (Nat.Div0.mul_div_le (List.length v) 8). lia.
  - destruct (accumulate Z.add _ _ _) as [r rest]. cbn [fst snd] in Hl, Ht.
    rewrite fold_left_total.
    assert (T : fold_right Z.add 0%Z v
                = (fold_right Z.add 0 (firstn 8 v) + fold_right Z.add 0 (skipn 8 v))%Z)
      by (now rewrite <- total_app, firstn_skipn).
    rewrite T, <- Ht.
    do 9 (destruct r as [|? r]; try discriminate Hl). cbn [nth fold_right]. lia.
Qed.

Lemma pairwise_total (depth : nat) :
  forall v : list Z, pairwise Z.add 0%Z depth v = fold_right Z.add 0%Z v.
Proof.
  induction depth as [|depth IH]; intros v; cbn [pairwise];
    destruct (List.length v <? 8)%nat eqn:E1;
    try (unfold sum_few; rewrite fold_left_total; lia);
    apply Nat.ltb_ge in E1;
    destruct (List.length v <=? 128)%nat;
    try (now apply sum_block_total).
  rewrite !IH, <- total_app. now rewrite firstn_skipn.
Qed.

Lemma pairwise_sum_total (v : list Z) :
  pairwise_sum Z.add 0%Z v = fold_right Z.add 0%Z v.
Proof. apply pairwise_total. Qed.

(** *** The value of the sum and of the mean *)

Lemma exact_related {B : Type} (R : flagged -> B -> Prop) (f : float -> B) (v : list float) :
  (forall x, R (exact x) (f x)) -> Forall2 R (map exact v) (map f v).
Proof. intros H. induction v; simpl; constructor; auto. Qed.

Lemma reduce_value (v : list float) :
  fst (add_reduce v)
  = match v with [] => 0%float | _ :: _ => pairwise_sum add neg_zero v end.
Proof.
  destruct v as [|x v]; [reflexivity|]. unfold add_reduce.
  cbn [add_flagged fst exact]. rewrite neg_zero_add.
  rewrite <- (map_id (x :: v)) at 2.
  apply (pairwise_sum_related add_flagged add (exact neg_zero) neg_zero
           (fun a y => fst a = y)).
  - reflexivity.
  - intros a a' b b' <- <-. reflexivity.
  - apply exact_related. reflexivity.
Qed.

(** Fewer than eight entries are added from left to right. *)
Lemma mean_few (v : list float) :
  v <> [] -> List.length v < 8 ->
  mean v = (fold_left add v neg_zero / Z2F (Z.of_nat (List.length v)))%float.
Proof.
  intros Hv H. unfold mean. rewrite reduce_value.
  destruct v; [contradiction|]. now rewrite pairwise_sum_few.
Qed.

(** What the addition keeps, whichever operand has it, the sum has as soon
    as one entry has it. *)
Lemma count_nonneg (bad : float -> bool) (v : list float) :
  (0 <= fold_right Z.add 0 (map (fun x => if bad x then 1 else 0) v))%Z.
Proof.
  induction v as [|x v IH]; cbn [map fold_right]; [lia|]. destruct (bad x); lia.
Qed.

Lemma existsb_count (bad : float -> bool) (v : list float) :
  existsb bad v = true <->
  (0 < fold_right Z.add 0 (map (fun x => if bad x then 1 else 0) v))%Z.
Proof.
  induction v as [|x v IH]; cbn [existsb map fold_right].
  - split; [discriminate|lia].
  - pose proof (count_nonneg bad v) as P.
    destruct (bad x); cbn [orb].
    + split; [intros _; lia|reflexivity].
    + rewrite IH. split; lia.
Qed.

Lemma pairwise_sum_absorbs (bad : float -> bool) (v : list float) :
  (forall x y, bad x = true -> bad (x + y)%float = true) ->
  (forall x y, bad y = true -> bad (x + y)%float = true) ->
  existsb bad v = true -> bad (pairwise_sum add neg_zero v) = true.
Proof.
  intros Hl Hr H. apply existsb_count in H.
  rewrite <- pairwise_sum_total in H.
  rewrite <- (map_id v) at 1.
  refine (proj2 (pairwise_sum_related add Z.add neg_zero 0%Z
                   (fun x k => (0 <= k)%Z /\ ((0 < k)%Z -> bad x = true))
                   _ _ (map id v) _ _) H).
  - split; lia.
  - intros a a' b b' [Hb Ha] [Hb' Ha']. split; [lia|]. intros Hk.
    destruct (Z.eq_dec b 0) as [->|Hn].
    + apply Hr, Ha'. lia.
    + apply Hl, Ha. lia.
  - clear. induction v as [|x v IH]; simpl; constructor; [|exact IH].
    unfold id. destruct (bad x); split; try lia; auto.
Qed.

(** A NaN among the entries makes the sum and the mean a NaN. *)
Lemma pairwise_sum_nan (v : list float) :
  any_isnan v = true -> is_nan (pairwise_sum add neg_zero v) = true.
Proof. apply (pairwise_sum_absorbs is_nan); [apply add_nan_l|apply add_nan_r]. Qed.

Lemma mean_nan (v : list float) : any_isnan v = true -> isnan (mean v) = true.
Proof.
  intros H. unfold mean, isnan. apply div_nan_l. rewrite reduce_value.
  destruct v; [discriminate|]. now apply pairwise_sum_nan.
Qed.

(** A sum and a mean that are finite have finite entries only. *)
Lemma pairwise_sum_finite (v : list float) :
  is_finite (pairwise_sum add neg_zero v) = true -> forallb is_finite v = true.
Proof.
  intros H. destruct (forallb is_finite v) eqn:E; [reflexivity|].
  assert (B : existsb (fun x => negb (is_finite x)) v = true).
  { clear H. induction v as [|x v IH]; [discriminate|]. simpl in *.
    destruct (is_finite x); simpl in *; auto. }
  apply (pairwise_sum_absorbs (fun x => negb (is_finite x))) in B.
  - rewrite H in B. discriminate.
  - intros x y Hx. destruct (is_finite (x + y)) eqn:F; [|reflexivity].
    destruct (add_finite _ _ F) as [F1 _]. now rewrite F1 in Hx.
  - intros x y Hy. destruct (is_finite (x + y)) eqn:F; [|reflexivity].
    destruct (add_finite _ _ F) as [_ F2]. now rewrite F2 in Hy.
Qed.

Lemma mean_finite (v : list float) :
  is_finite (mean v) = true -> v <> [] /\ forallb is_finite v = true.
Proof.
  intros H. destruct v as [|x v]; [discriminate H|]. split; [discriminate|].
  unfold mean in H. destruct (div_finite _ _ H) as (Hs & _ & _).
  rewrite reduce_value in Hs. now apply pairwise_sum_finite.
Qed.

Lemma mean_empty : isnan (mean []) = true.
Proof. reflexivity. Qed.

(** *** The errors of the sum and the warnings of the mean *)

Lemma give_fperr_ok (operation : string) (e : fperr) :
  snd (give_fperr operation e) = Ok tt.
Proof. now destruct e as [[] [] []]. Qed.

Lemma give_no_fperr (operation : string) : give_fperr operation no_fperr = ret tt.
Proof. reflexivity. Qed.

Lemma rounding_quiet (x y z : float) :
  is_finite z = true -> rounding_fperr x y z = no_fperr.
Proof.
  intros H. unfold rounding_fperr.
  rewrite (finite_not_nan _ H), (finite_not_infinity _ H), !andb_false_r. reflexivity.
Qed.

(** A sum that is finite raised no error. *)
Lemma reduce_quiet (v : list float) :
  is_finite (fst (add_reduce v)) = true -> snd (add_reduce v) = no_fperr.
Proof.
  destruct v as [|x v]; [reflexivity|]. unfold add_reduce.
  assert (P : fst (pairwise_sum add_flagged (exact neg_zero) (map exact (x :: v)))
              = pairwise_sum add neg_zero (x :: v)
              /\ (is_finite (pairwise_sum add neg_zero (x :: v)) = true ->
                  snd (pairwise_sum add_flagged (exact neg_zero) (map exact (x :: v)))
                  = no_fperr)).
  { rewrite <- (map_id (x :: v)) at 2 3.
    apply (pairwise_sum_related add_flagged add (exact neg_zero) neg_zero
             (fun a y => fst a = y /\ (is_finite y = true -> snd a = no_fperr))).
    - split; reflexivity.
    - intros a a' b b' [<- Ha] [<- Ha']. split; [reflexivity|]. intros Hf.
      destruct (add_finite _ _ Hf) as [F1 F2].
      cbn [add_flagged snd]. rewrite (Ha F1), (Ha' F2).
      unfold add_fperr. now rewrite rounding_quiet.
    - apply exact_related. intros y. split; reflexivity. }
  destruct P as [Pv Pq]. cbn [add_flagged fst snd exact]. rewrite Pv, neg_zero_add.
  intros Hf. rewrite (Pq Hf). unfold add_fperr. rewrite neg_zero_add.
  now rewrite rounding_quiet.
Qed.

Lemma div_quiet (x y : float) : is_finite (x / y) = true -> div_fperr x y = no_fperr.
Proof.
  intros H. unfold div_fperr.
  rewrite (finite_not_nan _ H), (finite_not_infinity _ H), !andb_false_r.
  destruct (div_finite _ _ H) as (_ & _ & Hz).
  destruct (is_zero y); [rewrite (Hz eq_refl)|]; now rewrite ?andb_false_r.
Qed.

Lemma np_mean_ok (v : list float) : snd (np_mean v) = Ok (mean v).
Proof.
  unfold np_mean.
  destruct (Nat.eqb (List.length v) 0); simpl;
    destruct (give_fperr "reduce" (snd (add_reduce v))) as [w1 r1] eqn:E1;
    pose proof (give_fperr_ok "reduce" (snd (add_reduce v))) as O1;
    rewrite E1 in O1; simpl in O1; subst r1;
    destruct (give_fperr "scalar divide" _) as [w2 r2] eqn:E2;
    match type of E2 with give_fperr ?o ?e = _ =>
      pose proof (give_fperr_ok o e) as O2 end;
    rewrite E2 in O2; simpl in O2; subst r2; reflexivity.
Qed.

(** A mean that is finite was computed without a warning. *)
Lemma np_mean_quiet (v : list float) :
  is_finite (mean v) = true -> np_mean v = ret (mean v).
Proof.
  intros H. unfold np_mean.
  assert (E : Nat.eqb (List.length v) 0 = false) by (destruct v; [discriminate H|reflexivity]).
  rewrite E. unfold mean in H.
  rewrite (div_quiet _ _ H).
  destruct (div_finite _ _ H) as (Hs & _ & _).
  rewrite (reduce_quiet _ Hs). reflexivity.
Qed.

(** *** The subtraction *)

Lemma zip_sub_combine (a b : list float) :
  zip_sub a b = map (fun p => (fst p - snd p)%float) (combine a b).
Proof.
  revert b. induction a as [|x a IH]; intros [|y b]; simpl; try reflexivity.
  now rewrite IH.
Qed.

Lemma subtract_ok (a b : list float) :
  snd (subtract a b)
  = match broadcast a b with
    | Some pairs => Ok (map (fun p => (fst p - snd p)%float) pairs)
    | None => Raise (ValueError "operands could not be broadcast together")
    end.
Proof.
  unfold subtract. destruct (broadcast a b) as [pairs|]; [|reflexivity].
  destruct (give_fperr "subtract" _) as [w r] eqn:E.
  match type of E with give_fperr ?o ?e = _ => pose proof (give_fperr_ok o e) as O end.
  rewrite E in O. simpl in O. subst r. reflexivity.
Qed.

Lemma subtract_same_length (a b : list float) :
  List.length a = List.length b -> snd (subtract a b) = Ok (zip_sub a b).
Proof.
  intros H. rewrite subtract_ok. unfold broadcast.
  now rewrite H, Nat.eqb_refl, zip_sub_combine.
Qed.

(** A NaN in the first operand makes the mean of the difference a NaN,
    whatever the shapes. *)
Lemma any_isnan_map (f : float -> float) (a : list float) :
  (forall x, is_nan x = true -> is_nan (f x) = true) ->
  any_isnan a = true -> any_isnan (map f a) = true.
Proof.
  intros Hf. induction a as [|x a IH]; cbn [any_isnan existsb map]; [discriminate|].
  fold (any_isnan a) (any_isnan (map f a)). intros H.
  apply orb_true_iff in H. apply orb_true_iff. destruct H as [H|H].
  - left. apply Hf, H.
  - right. auto.
Qed.

Lemma any_isnan_zip_sub (a b : list float) :
  List.length a = List.length b -> any_isnan a = true -> any_isnan (zip_sub a b) = true.
Proof.
  revert b. induction a as [|x a IH]; intros [|y b] L; try discriminate;
    cbn [any_isnan existsb zip_sub].
  fold (any_isnan a) (any_isnan (zip_sub a b)). intros H.
  apply orb_true_iff in H. apply orb_true_iff. destruct H as [H|H].
  - left. apply sub_nan_l, H.
  - right. apply IH; [|assumption]. simpl in L. lia.
Qed.

Lemma subtract_nan (a b d : list float) :
  any_isnan a = true -> snd (subtract a b) = Ok d -> isnan (mean d) = true.
Proof.
  intros Ha. rewrite subtract_ok. unfold broadcast.
  destruct (Nat.eqb (List.length a) (List.length b)) eqn:E.
  - apply Nat.eqb_eq in E. intros H. inversion H.
    rewrite <- zip_sub_combine. apply mean_nan. now apply any_isnan_zip_sub.
  - assert (N : forall x, any_isnan [x] = true -> is_nan x = true).
    { intros x Hx. simpl in Hx. unfold isnan in Hx. now rewrite orb_false_r in Hx. }
    destruct a as [|x [|x' a]]; [discriminate Ha| |].
    + intros H. inversion H. rewrite map_map. cbn [fst snd].
      destruct b as [|y b]; [reflexivity|]. apply mean_nan.
      cbn [map any_isnan existsb]. apply orb_true_iff. left.
      apply sub_nan_l, N, Ha.
    + destruct b as [|y [|y' b]]; try discriminate.
      remember (x :: x' :: a) as v eqn:Ev. intros H. inversion H.
      rewrite map_map. cbn [fst snd].
      apply mean_nan. apply any_isnan_map; [|exact Ha].
      intros z Hz. now apply sub_nan_l.
Qed.

(** Differences that are all finite were computed without a warning. *)
Lemma subtract_quiet (a b d : list float) :
  snd (subtract a b) = Ok d -> forallb is_finite d = true -> fst (subtract a b) = [].
Proof.
  rewrite subtract_ok. unfold subtract.
  destruct (broadcast a b) as [pairs|]; [|discriminate].
  intros H. inversion H as [E]. clear H E. intros F.
  replace (fold_left fperr_or (map (fun p => sub_fperr (fst p) (snd p)) pairs) no_fperr)
    with no_fperr; [reflexivity|].
  symmetry. induction pairs as [|q pairs IH]; [reflexivity|].
  simpl in F. apply andb_true_iff in F. destruct F as [F1 F2].
  cbn [map fold_left]. unfold sub_fperr at 2. rewrite (rounding_quiet _ _ _ F1).
  now apply IH.
Qed.

End SumFacts.

(** ** [argsort]: a permutation that puts the keys in order *)

Module SortFacts.

Import FloatFacts.

Lemma insert_key_perm (x : nat * float) (l : list (nat * float)) :
  Permutation (x :: l) (insert_key x l).
Proof.
  induction l as [|y l IH]; simpl.
  - apply Permutation_refl.
  - destruct (Np.lt (snd x) (snd y)).
    + apply Permutation_refl.
    + eapply perm_trans; [apply perm_swap|]. now apply perm_skip.
Qed.

Lemma fold_insert_perm (l acc : list (nat * float)) :
  Permutation (l ++ acc) (fold_left (fun acc x => insert_key x acc) l acc).
Proof.
  revert acc. induction l as [|x l IH]; intros acc; simpl.
  - apply Permutation_refl.
  - eapply perm_trans; [|apply IH].
    eapply perm_trans; [apply Permutation_middle|].
    apply Permutation_app_head. apply insert_key_perm.
Qed.

Lemma sort_keys_perm (l : list (nat * float)) : Permutation l (sort_keys l).
Proof.
  unfold sort_keys. rewrite <- (app_nil_r l) at 1. apply fold_insert_perm.
Qed.

Lemma insert_key_hd (x a : nat * float) (l : list (nat * float)) :
  key_le a x -> HdRel key_le a l -> HdRel key_le a (insert_key x l).
Proof.
  intros Hax Hal. destruct l as [|y l]; simpl.
  - now constructor.
  - destruct (Np.lt (snd x) (snd y)); constructor; [assumption|].
    now inversion Hal.
Qed.

Lemma insert_key_sorted (x : nat * float) (l : list (nat * float)) :
  Sorted key_le l -> Sorted key_le (insert_key x l).
Proof.
  induction 1 as [|y l Hl IH Hy]; simpl.
  - repeat constructor.
  - destruct (Np.lt (snd x) (snd y)) eqn:E.
    + constructor; [now constructor|]. constructor.
      unfold key_le, Np.le. now apply lt_asym.
    + constructor; [assumption|]. apply insert_key_hd; assumption.
Qed.

Lemma fold_insert_sorted (l acc : list (nat * float)) :
  Sorted key_le acc -> Sorted key_le (fold_left (fun acc x => insert_key x acc) l acc).
Proof.
  revert acc. induction l as [|x l IH]; intros acc H; simpl; [assumption|].
  apply IH. now apply insert_key_sorted.
Qed.

Lemma sort_keys_sorted (l : list (nat * float)) : Sorted key_le (sort_keys l).
Proof. apply fold_insert_sorted. constructor. Qed.

Section Take.

Context {A : Type} (d : A) (key : A -> float).

Lemma map_nth_seq (l : list A) :
  map (fun i => nth i l d) (seq 0 (List.length l)) = l.
Proof.
  induction l as [|x l IH]; simpl; [reflexivity|].
  f_equal. rewrite <- seq_shift, map_map. exact IH.
Qed.

Lemma combine_seq_from (a : nat) (l : list A) :
  combine (seq a (List.length l)) (map key l)
  = map (fun i => (i + a, key (nth i l d))) (seq 0 (List.length l)).
Proof.
  revert a. induction l as [|x l IH]; intros a; simpl; [reflexivity|].
  f_equal. rewrite IH, <- seq_shift, map_map.
  apply map_ext. intros i. simpl. f_equal. lia.
Qed.

Lemma combine_seq_keys (l : list A) :
  combine (seq 0 (List.length l)) (map key l)
  = map (fun i => (i, key (nth i l d))) (seq 0 (List.length l)).
Proof.
  rewrite combine_seq_from. apply map_ext. intros i. now rewrite Nat.add_0_r.
Qed.

Lemma indexed_keys (l : list A) (ik : nat * float) :
  In ik (combine (seq 0 (List.length l)) (map key l)) ->
  key (nth (fst ik) l d) = snd ik.
Proof.
  rewrite combine_seq_keys. intros H. apply in_map_iff in H.
  destruct H as (i & <- & _). reflexivity.
Qed.

Lemma take_argsort_perm (l : list A) :
  Permutation (take d l (argsort (map key l))) l.
Proof.
  unfold take, argsort. rewrite map_map, length_map.
  eapply perm_trans.
  - apply Permutation_map. apply Permutation_sym. apply sort_keys_perm.
  - rewrite combine_seq_keys, map_map. simpl. rewrite map_nth_seq.
    apply Permutation_refl.
Qed.

Lemma sorted_map_in {B : Type} (R : B -> B -> Prop) (g : B -> A) (l : list B) :
  (forall x y, In x l -> In y l -> R x y -> by_key key (g x) (g y)) ->
  Sorted R l -> Sorted (by_key key) (map g l).
Proof.
  intros Hg Hs. induction Hs as [|x l Hl IH Hx]; simpl; constructor.
  - apply IH. intros a b Ha Hb. apply Hg; now right.
  - destruct Hx as [|y l' Hxy]; simpl; constructor.
    apply Hg; [now left | right; now left | assumption].
Qed.

Lemma take_argsort_sorted (l : list A) :
  Sorted (by_key key) (take d l (argsort (map key l))).
Proof.
  unfold take, argsort. rewrite map_map, length_map.
  apply sorted_map_in with (R := key_le); [|apply sort_keys_sorted].
  intros x y Hx Hy Hxy.
  assert (Hin : forall z, In z (sort_keys (combine (seq 0 (List.length l)) (map key l))) ->
                          key (nth (fst z) l d) = snd z).
  { intros z Hz. apply indexed_keys.
    eapply Permutation_in; [apply Permutation_sym, sort_keys_perm | exact Hz]. }
  unfold by_key. rewrite (Hin x Hx), (Hin y Hy). exact Hxy.
Qed.

End Take.

End SortFacts.

(** ** [proc_ratio] *)

Module RatioFacts.

Import FloatFacts SortFacts.

Lemma flat_map_filter {X Y B : Type} (c : X -> Y -> bool) (h : X -> Y -> B)
    (xs : list X) (ys : list Y) :
  flat_map (fun x => flat_map (fun y => if c x y then [] else [h x y]) ys) xs
  = map (fun p => h (fst p) (snd p))
        (filter (fun p => negb (c (fst p) (snd p))) (list_prod xs ys)).
Proof.
  induction xs as [|x xs IH]; simpl; [reflexivity|].
  rewrite filter_app, map_app, IH. f_equal.
  clear IH. induction ys as [|y ys IHy]; simpl; [reflexivity|].
  destruct (c x y); simpl; now rewrite IHy.
Qed.

Lemma map_filter_ext {X Y : Type} (f f' : X -> Y) (g g' : X -> bool) (l : list X) :
  (forall x, g x = g' x) -> (forall x, g' x = true -> f x = f' x) ->
  map f (filter g l) = map f' (filter g' l).
Proof.
  intros Hg Hf. induction l as [|x l IH]; simpl; [reflexivity|].
  rewrite Hg. destruct (g' x) eqn:E; simpl; [|exact IH].
  now rewrite IH, Hf.
Qed.

(** The entry of [b / a] at a coordinate. *)
Lemma frame_div_at (b a : PivotTable) (c : Z * Z) :
  pt_at (frame_div b a) (fst c) (snd c)
  = if labelled b a c then snd (ratio_point b a c) else nan.
Proof. reflexivity. Qed.

Lemma has_ratio_at (b a : PivotTable) (c : Z * Z) :
  negb (isnan (pt_at (frame_div b a) (fst c) (snd c))) = has_ratio b a c.
Proof.
  rewrite frame_div_at. unfold has_ratio.
  destruct (labelled b a c); reflexivity.
Qed.

(** The list the loops of [proc_ratio] build is the list of the ratio points. *)
Lemma points_ratio_points (b a : PivotTable) :
  points (frame_div b a) = ratio_points b a.
Proof.
  unfold points, ratio_points, coordinates.
  rewrite (flat_map_filter
             (fun src mic => isnan (pt_at (frame_div b a) src mic))
             (fun src mic => ((Z2F src / Z2F mic)%float, pt_at (frame_div b a) src mic))).
  apply map_filter_ext.
  - intros c. apply has_ratio_at.
  - intros c Hc. unfold ratio_point. f_equal.
    rewrite frame_div_at. unfold has_ratio in Hc.
    now destruct (labelled b a c).
Qed.

Lemma has_ratio_not_missing (b a : PivotTable) (c : Z * Z) :
  has_ratio b a c = true ->
  labelled b a c = true
  /\ isnan (pt_at b (fst c) (snd c)) = false
  /\ isnan (pt_at a (fst c) (snd c)) = false.
Proof.
  unfold has_ratio, ratio_point, isnan. simpl. intros H.
  apply andb_true_iff in H. destruct H as [Hl Hn]. apply negb_true_iff in Hn.
  split; [assumption|]. split.
  - destruct (is_nan (pt_at b (fst c) (snd c))) eqn:E; [|reflexivity].
    now rewrite (div_nan_l _ _ E) in Hn.
  - destruct (is_nan (pt_at a (fst c) (snd c))) eqn:E; [|reflexivity].
    now rewrite (div_nan_r _ _ E) in Hn.
Qed.

Lemma filter_nil_iff {X : Type} (g : X -> bool) (l : list X) :
  filter g l = [] <-> forall x, In x l -> g x = false.
Proof.
  induction l as [|x l IH]; simpl.
  - split; [intros _ y []|reflexivity].
  - destruct (g x) eqn:E.
    + split; [discriminate|]. intros H. rewrite (H x) in E by now left. discriminate.
    + rewrite IH. split.
      * intros H y [<-|Hy]; [assumption|now apply H].
      * intros H y Hy. apply H. now right.
Qed.

(** No point at all: every entry of the frame is a NaN. *)
Lemma points_nil_iff (r : PivotTable) :
  points r = [] <->
  forall c, In c (coordinates r) -> isnan (pt_at r (fst c) (snd c)) = true.
Proof.
  unfold points, coordinates.
  rewrite (flat_map_filter (fun src mic => isnan (pt_at r src mic))
             (fun src mic => ((Z2F src / Z2F mic)%float, pt_at r src mic))).
  split.
  - intros H c Hc. apply map_eq_nil in H.
    apply (proj1 (filter_nil_iff _ _)) with (x := c) in H; [|assumption].
    now apply negb_false_iff in H.
  - intros H. replace (filter _ _) with (@nil (Z * Z)); [reflexivity|].
    symmetry. apply filter_nil_iff. intros c Hc. now rewrite (H c Hc).
Qed.

Lemma flat_map_filter_list {X Y B : Type} (c : X -> Y -> bool) (h : X -> Y -> list B)
    (xs : list X) (ys : list Y) :
  flat_map (fun x => flat_map (fun y => if c x y then [] else h x y) ys) xs
  = flat_map (fun p => h (fst p) (snd p))
             (filter (fun p => negb (c (fst p) (snd p))) (list_prod xs ys)).
Proof.
  induction xs as [|x xs IH]; simpl; [reflexivity|].
  rewrite filter_app, flat_map_app, IH. f_equal.
  clear IH. induction ys as [|y ys IHy]; simpl; [reflexivity|].
  destruct (c x y); simpl; now rewrite IHy.
Qed.

Lemma true_divide_ok (src mic : Z) :
  true_divide src mic = (fst (true_divide src mic), Ok (Z2F src / Z2F mic)%float).
Proof.
  unfold true_divide.
  now destruct (div_fperr (Z2F src) (Z2F mic)) as [[] [] []].
Qed.

(** A quotient that is finite was computed without a warning. *)
Lemma true_divide_quiet (src mic : Z) :
  is_finite (Z2F src / Z2F mic) = true -> fst (true_divide src mic) = [].
Proof.
  intros H. unfold true_divide. now rewrite (SumFacts.div_quiet _ _ H).
Qed.

(** The inner loop and the two loops of lines 475-479. *)
Lemma pts_loop_inner (r : PivotTable) (src : Z) (index : list Z) :
  forall pts,
    for_each index (fun pts mic =>
      if isnan (pt_at r src mic) then ret pts
      else q <- true_divide src mic ;; ret (pts ++ [ (q, pt_at r src mic) ])) pts
    = (flat_map (fun mic => if isnan (pt_at r src mic) then []
                            else fst (true_divide src mic)) index,
       Ok (pts ++ flat_map (fun mic =>
                    if isnan (pt_at r src mic) then []
                    else [ ((Z2F src / Z2F mic)%float, pt_at r src mic) ]) index)).
Proof.
  induction index as [|mic index IH]; intros pts; cbn [for_each flat_map].
  - now rewrite app_nil_r.
  - destruct (isnan (pt_at r src mic)).
    + rewrite MonadFacts.bind_ret_l. apply IH.
    + rewrite true_divide_ok. unfold bind at 2. cbn [ret]. rewrite app_nil_r.
      unfold bind. rewrite IH. now rewrite <- app_assoc.
Qed.

Lemma pts_loop_outer (r : PivotTable) (cols : list Z) :
  forall pts,
    for_each cols (fun pts src =>
      for_each (pt_index r) (fun pts mic =>
        if isnan (pt_at r src mic) then ret pts
        else q <- true_divide src mic ;; ret (pts ++ [ (q, pt_at r src mic) ]))
        pts) pts
    = (flat_map (fun src =>
         flat_map (fun mic => if isnan (pt_at r src mic) then []
                              else fst (true_divide src mic)) (pt_index r)) cols,
       Ok (pts ++ flat_map (fun src =>
                    flat_map (fun mic =>
                      if isnan (pt_at r src mic) then []
                      else [ ((Z2F src / Z2F mic)%float, pt_at r src mic) ])
                      (pt_index r)) cols)).
Proof.
  induction cols as [|src cols IH]; intros pts; cbn [for_each flat_map].
  - now rewrite app_nil_r.
  - rewrite pts_loop_inner. unfold bind. rewrite IH. now rewrite <- app_assoc.
Qed.

Lemma pts_loop_eq (r : PivotTable) :
  pts_loop r = (division_warnings r, Ok (points r)).
Proof.
  unfold pts_loop, division_warnings, points, coordinates.
  rewrite <- (flat_map_filter_list (fun src mic => isnan (pt_at r src mic))
                (fun src mic => fst (true_divide src mic))).
  apply pts_loop_outer.
Qed.

Lemma proc_ratio_ok (r : PivotTable) :
  points r <> [] ->
  proc_ratio r
  = (division_warnings r,
     Ok (take (nan, nan) (points r) (argsort (map fst (points r))))).
Proof.
  unfold proc_ratio. rewrite pts_loop_eq. unfold bind.
  destruct (points r); [congruence|]. cbn [ret]. now rewrite app_nil_r.
Qed.

Lemma division_warnings_nil (r : PivotTable) : points r = [] -> division_warnings r = [].
Proof.
  intros H. unfold division_warnings.
  replace (filter _ (coordinates r)) with (@nil (Z * Z)); [reflexivity|].
  symmetry. apply filter_nil_iff. intros c Hc.
  now rewrite (proj1 (points_nil_iff r) H c Hc).
Qed.

(** Points whose first coordinate is finite came without a warning. *)
Lemma division_warnings_quiet (r : PivotTable) :
  Forall (fun pt => is_finite (fst pt) = true) (points r) -> division_warnings r = [].
Proof.
  unfold points, division_warnings, coordinates.
  rewrite (flat_map_filter (fun src mic => isnan (pt_at r src mic))
             (fun src mic => ((Z2F src / Z2F mic)%float, pt_at r src mic))).
  induction (filter _ _) as [|c l IH]; [reflexivity|].
  cbn [map flat_map]. intros F. inversion F as [|? ? F1 F2]; subst.
  rewrite (true_divide_quiet _ _ F1). now apply IH.
Qed.

Lemma proc_ratio_raises (r : PivotTable) :
  points r = [] <-> proc_ratio r = raise IndexError.
Proof.
  unfold proc_ratio. rewrite pts_loop_eq. unfold bind. split.
  - intros H. rewrite (division_warnings_nil r H), H. reflexivity.
  - destruct (points r); [reflexivity|discriminate].
Qed.

Lemma points_not_nil (r : PivotTable) :
  points r <> [] <->
  exists c, In c (coordinates r) /\ isnan (pt_at r (fst c) (snd c)) = false.
Proof.
  split.
  - intros H. unfold points, coordinates in *.
    rewrite (flat_map_filter (fun src mic => isnan (pt_at r src mic))
               (fun src mic => ((Z2F src / Z2F mic)%float, pt_at r src mic))) in H.
    destruct (filter _ _) as [|c l] eqn:E; [now elim H|].
    assert (Hc : In c (c :: l)) by now left.
    rewrite <- E in Hc. apply filter_In in Hc. destruct Hc as [Hc Hn].
    exists c. split; [assumption|]. now apply negb_true_iff in Hn.
  - intros (c & Hc & Hn) H. rewrite (proj1 (points_nil_iff r) H c Hc) in Hn.
    discriminate.
Qed.

Lemma ratio_points_not_nil (b a : PivotTable) :
  (exists c, In c (coordinates (frame_div b a)) /\ has_ratio b a c = true) ->
  points (frame_div b a) <> [].
Proof.
  intros (c & Hc & Hr). apply points_not_nil. exists c. split; [assumption|].
  rewrite <- has_ratio_at in Hr. now apply negb_true_iff in Hr.
Qed.

End RatioFacts.

(** ** The loop over the records *)

Module TableFacts.

Import MonadFacts.

Ltac getitem_in H :=
  apply bind_ok in H;
  let w1 := fresh "w" in let w2 := fresh "w" in
  let x := fresh "x" in let G := fresh "G" in let E := fresh "E" in
  destruct H as (w1 & x & w2 & G & H & E);
  apply getitem_ok in G; destruct G as [G ->]; simpl in E; subst.

Lemma float_of_int_ok (z : Z) (w : list string) (f : float) :
  float_of_int z = (w, Ok f) -> w = [] /\ f = Z2F z.
Proof.
  unfold float_of_int. destruct (is_infinity (Z2F z)); simpl; intros H; inversion H; auto.
Qed.

Lemma float_truediv_ok (t : float) (n : Z) (w : list string) (q : float) :
  float_truediv t n = (w, Ok q) -> w = [] /\ q = (t / Z2F n)%float.
Proof.
  unfold float_truediv. intros H. apply bind_ok in H.
  destruct H as (w1 & d & w2 & G & H & ->).
  apply float_of_int_ok in G. destruct G as [-> ->].
  destruct (is_zero (Z2F n)); simpl in H; inversion H; auto.
Qed.

Lemma float_mul_ok (q : float) (n : Z) (w : list string) (x : float) :
  float_mul q n = (w, Ok x) -> w = [] /\ x = (q * Z2F n)%float.
Proof.
  unfold float_mul. intros H. apply bind_ok in H.
  destruct H as (w1 & d & w2 & G & H & ->).
  apply float_of_int_ok in G. destruct G as [-> ->].
  simpl in H. inversion H; auto.
Qed.

(** Lines 214-217 warn of nothing. *)
Lemma entry_silent (p : Parameters) (record : RunRecord) : fst (entry p record) = [].
Proof.
  unfold entry, float_truediv, float_mul, float_of_int.
  destruct (algorithm record), (n_targets record), (n_mics record), (rt60 record),
    (sinr record), (seed record), (runtime record); try reflexivity.
  destruct (n_samples record) as [n|]; try reflexivity. simpl.
  destruct (is_infinity (Z2F n)); try reflexivity. simpl.
  destruct (is_zero (Z2F n)); try reflexivity. simpl.
  destruct (fs p) as [rate|]; try reflexivity. simpl.
  destruct (is_infinity (Z2F rate)); reflexivity.
Qed.

Lemma entry_ok (p : Parameters) (record : RunRecord) (w : list string)
    (e : string * Z * Z * float * float * Z * float) :
  entry p record = (w, Ok e) ->
  w = []
  /\ exists a k m rt si sd t n rate,
      algorithm record = Some a /\ n_targets record = Some k
      /\ n_mics record = Some m /\ rt60 record = Some rt
      /\ sinr record = Some si /\ seed record = Some sd
      /\ runtime record = Some t /\ n_samples record = Some n
      /\ fs p = Some rate
      /\ e = (a, k, m, rt, si, sd, normalised t n rate).
Proof.
  intros H. split.
  - pose proof (entry_silent p record) as S. now rewrite H in S.
  - unfold entry in H. do 8 getitem_in H.
    apply bind_ok in H. destruct H as (w1 & q & w2 & Q & H & ->).
    apply float_truediv_ok in Q. destruct Q as [-> ->].
    getitem_in H.
    apply bind_ok in H. destruct H as (w1 & rtf & w2 & Q & H & ->).
    apply float_mul_ok in Q. destruct Q as [-> ->].
    inversion H; subst.
    repeat eexists; eassumption.
Qed.

Lemma final_silent (key : string) (field : option (list (list float))) :
  fst (final key field) = [].
Proof.
  unfold final, getitem_last. destruct field as [series|]; [|reflexivity].
  simpl. now destruct (rev series).
Qed.

Lemma final_ok (key : string) (field : option (list (list float)))
    (w : list string) (v : list float) :
  final key field = (w, Ok v) ->
  w = [] /\ exists series, field = Some series /\ hd_error (rev series) = Some v.
Proof.
  intros H. split.
  - pose proof (final_silent key field) as S. now rewrite H in S.
  - unfold final in H. getitem_in H. exists x. split; [reflexivity|].
    unfold getitem_last in H. destruct (rev x); inversion H. reflexivity.
Qed.

Lemma initial_ok (key : string) (field : option (list (list float)))
    (w : list string) (v : list float) :
  initial key field = (w, Ok v) ->
  w = [] /\ exists series, field = Some series /\ hd_error series = Some v.
Proof.
  intros H. unfold initial in H. getitem_in H.
  destruct x as [|v' x]; inversion H; subst. split; [reflexivity|].
  exists (v :: x). auto.
Qed.

Lemma warn_nan_present (what : string) (record : RunRecord) (a : string) :
  algorithm record = Some a ->
  warn_nan what record = ([("NaN " ++ what ++ ": " ++ a)%string], Ok tt).
Proof. intros H. unfold warn_nan. now rewrite H. Qed.

Lemma when_warn_nan (b : bool) (what : string) (record : RunRecord) (a : string) :
  algorithm record = Some a ->
  when b (warn_nan what record)
  = ((if b then [("NaN " ++ what ++ ": " ++ a)%string] else []), Ok tt).
Proof.
  intros H. unfold when. destruct b; [now apply warn_nan_present|reflexivity].
Qed.

(** Lines 219-226, when the record has its algorithm and its runtime. *)
Lemma nan_checks_eq (record : RunRecord) (a : string) (t : float) :
  algorithm record = Some a -> runtime record = Some t ->
  nan_checks record =
  match final "sdr" (sdr record) with
  | (_, Raise e) => ((if isnan t then [("NaN runtime: " ++ a)%string] else []), Raise e)
  | (_, Ok sdr_last) =>
      match final "sir" (sir record) with
      | (_, Raise e) =>
          ((if isnan t then [("NaN runtime: " ++ a)%string] else [])
           ++ (if any_isnan sdr_last then [("NaN SDR: " ++ a)%string] else []),
           Raise e)
      | (_, Ok sir_last) => (nan_warnings a t sdr_last sir_last, Ok tt)
      end
  end.
Proof.
  intros Ha Ht. unfold nan_checks, nan_warnings, when, warn_nan. rewrite Ha, Ht.
  pose proof (final_silent "sdr" (sdr record)) as S1.
  pose proof (final_silent "sir" (sir record)) as S2.
  destruct (final "sdr" (sdr record)) as [w1 [sdr_last|e]]; simpl in S1; subst w1.
  - destruct (final "sir" (sir record)) as [w2 [sir_last|e]]; simpl in S2; subst w2;
      cbn; destruct (isnan t); cbn; destruct (any_isnan sdr_last); cbn;
      try destruct (any_isnan sir_last); reflexivity.
  - cbn. destruct (isnan t); reflexivity.
Qed.

Lemma initial_cons (key : string) (v : list float) (series : list (list float)) :
  initial key (Some (v :: series)) = ret v.
Proof. reflexivity. Qed.

Lemma final_hd (key : string) (series : list (list float)) (v : list float) :
  hd_error (rev series) = Some v -> final key (Some series) = ret v.
Proof.
  intros H. unfold final. cbn [getitem]. rewrite bind_ret_l.
  unfold getitem_last. destruct (rev series); inversion H. reflexivity.
Qed.

Lemma initial_hd (key : string) (series : list (list float)) (v : list float) :
  hd_error series = Some v -> initial key (Some series) = ret v.
Proof. destruct series; intros H; inversion H. reflexivity. Qed.

Lemma bind_ext {A B} (m : M A) (k k' : A -> M B) :
  (forall a, k a = k' a) -> bind m k = bind m k'.
Proof. intros H. destruct m as [w [a|ex]]; simpl; [now rewrite H|reflexivity]. Qed.

Lemma bind_snd_ok {A B} (m : M A) (k : A -> M B) (a : A) :
  snd m = Ok a -> bind m k = (fst m ++ fst (k a), snd (k a)).
Proof.
  destruct m as [w r]. simpl. intros ->. unfold bind. now destruct (k a).
Qed.

Lemma bind_snd_raise {A B} (m : M A) (k : A -> M B) (ex : exn) :
  snd m = Raise ex -> bind m k = (fst m, Raise ex).
Proof. destruct m as [w r]. simpl. now intros ->. Qed.

(** The averages of a record whose series are read: two means, and two
    differences with their means. *)
Lemma averages_eq (record : RunRecord) (sdrs sirs : list (list float))
    (sdr_i sdr_f sir_i sir_f : list float) :
  sdr record = Some sdrs -> hd_error sdrs = Some sdr_i -> hd_error (rev sdrs) = Some sdr_f ->
  sir record = Some sirs -> hd_error sirs = Some sir_i -> hd_error (rev sirs) = Some sir_f ->
  averages record
  = (sdr_m <- np_mean sdr_f ;;
     sir_m <- np_mean sir_f ;;
     d_sdr <- subtract sdr_f sdr_i ;;
     sdr_d <- np_mean d_sdr ;;
     d_sir <- subtract sir_f sir_i ;;
     sir_d <- np_mean d_sir ;;
     ret (sdr_m, sir_m, sdr_d, sir_d)).
Proof.
  intros H1 H2 H3 H4 H5 H6. unfold averages. rewrite H1, H4.
  rewrite (initial_hd _ _ _ H2), (final_hd _ _ _ H3).
  rewrite (initial_hd _ _ _ H5), (final_hd _ _ _ H6).
  rewrite !bind_ret_l. apply bind_ext. intros sdr_m. now rewrite bind_ret_l.
Qed.

(** The averages never raise but for the subtraction. *)
Lemma averages_ok (record : RunRecord) (w : list string)
    (sdr_m sir_m sdr_d sir_d : float) :
  averages record = (w, Ok (sdr_m, sir_m, sdr_d, sir_d)) ->
  (exists series, sdr record = Some series /\ averaged series sdr_m sdr_d)
  /\ (exists series, sir record = Some series /\ averaged series sir_m sir_d).
Proof.
  unfold averages. intros H.
  apply bind_ok in H. destruct H as (w1 & sdr_i & w1' & I1 & H & ->).
  apply bind_ok in H. destruct H as (w2 & sdr_f & w2' & F1 & H & ->).
  apply bind_ok in H. destruct H as (w3 & sir_i & w3' & I2 & H & ->).
  apply bind_ok in H. destruct H as (w4 & sir_f & w4' & F2 & H & ->).
  apply bind_ok in H. destruct H as (w5 & sdr_last & w5' & L1 & H & ->).
  apply bind_ok in H. destruct H as (w6 & m1 & w6' & M1 & H & ->).
  apply bind_ok in H. destruct H as (w7 & sir_last & w7' & L2 & H & ->).
  apply bind_ok in H. destruct H as (w8 & m2 & w8' & M2 & H & ->).
  apply bind_ok in H. destruct H as (w9 & d_sdr & w9' & D1 & H & ->).
  apply bind_ok in H. destruct H as (w10 & m3 & w10' & M3 & H & ->).
  apply bind_ok in H. destruct H as (w11 & d_sir & w11' & D2 & H & ->).
  apply bind_ok in H. destruct H as (w12 & m4 & w12' & M4 & H & ->).
  inversion H; subst.
  rewrite F1 in L1. inversion L1; subst. rewrite F2 in L2. inversion L2; subst.
  apply initial_ok in I1. destruct I1 as [_ (s1 & Hs1 & Hi1)].
  apply final_ok in F1. destruct F1 as [_ (s1' & Hs1' & Hf1)].
  apply initial_ok in I2. destruct I2 as [_ (s2 & Hs2 & Hi2)].
  apply final_ok in F2. destruct F2 as [_ (s2' & Hs2' & Hf2)].
  rewrite Hs1 in Hs1'. inversion Hs1'; subst s1'.
  rewrite Hs2 in Hs2'. inversion Hs2'; subst s2'.
  pose proof (SumFacts.np_mean_ok sdr_last) as N1. rewrite M1 in N1. inversion N1.
  pose proof (SumFacts.np_mean_ok sir_last) as N2. rewrite M2 in N2. inversion N2.
  pose proof (SumFacts.np_mean_ok d_sdr) as N3. rewrite M3 in N3. inversion N3.
  pose proof (SumFacts.np_mean_ok d_sir) as N4. rewrite M4 in N4. inversion N4.
  split.
  - exists s1. split; [assumption|]. exists sdr_i, sdr_last, d_sdr.
    rewrite D1. auto.
  - exists s2. split; [assumption|]. exists sir_i, sir_last, d_sir.
    rewrite D2. auto.
Qed.

Lemma averaged_final (key : string) (series : list (list float)) (last : list float)
    (m d : float) :
  final key (Some series) = ret last -> averaged series m d ->
  m = mean last
  /\ exists first diff,
      hd_error series = Some first /\ hd_error (rev series) = Some last
      /\ snd (subtract last first) = Ok diff /\ d = mean diff.
Proof.
  intros F (first & last' & diff & H1 & H2 & H3 & -> & ->).
  rewrite (final_hd key _ _ H2) in F. inversion F; subst last'.
  split; [reflexivity|]. exists first, diff. auto.
Qed.

(** A NaN in a final vector is a NaN in its two averages. *)
Lemma averaged_nan (key : string) (series : list (list float)) (last : list float)
    (m d : float) :
  final key (Some series) = ret last -> averaged series m d ->
  any_isnan last = true -> isnan m = true /\ isnan d = true.
Proof.
  intros F A N. destruct (averaged_final _ _ _ _ _ F A) as [-> (first & diff & _ & _ & S & ->)].
  split; [now apply SumFacts.mean_nan|]. now apply (SumFacts.subtract_nan last first).
Qed.

(** Averages that are finite were computed without a warning. *)
Lemma averages_quiet (record : RunRecord) (sdr_m sir_m sdr_d sir_d : float) :
  snd (averages record) = Ok (sdr_m, sir_m, sdr_d, sir_d) ->
  is_finite sdr_m = true -> is_finite sir_m = true ->
  is_finite sdr_d = true -> is_finite sir_d = true ->
  averages record = ret (sdr_m, sir_m, sdr_d, sir_d).
Proof.
  intros H F1 F2 F3 F4.
  destruct (averages record) as [w r] eqn:E. simpl in H. subst r.
  destruct (averages_ok _ _ _ _ _ _ E) as [(s1 & Hs1 & A1) (s2 & Hs2 & A2)].
  destruct A1 as (i1 & l1 & d1 & I1 & L1 & D1 & -> & ->).
  destruct A2 as (i2 & l2 & d2 & I2 & L2 & D2 & -> & ->).
  rewrite <- E. rewrite (averages_eq record _ _ _ _ _ _ Hs1 I1 L1 Hs2 I2 L2).
  rewrite (SumFacts.np_mean_quiet _ F1), bind_ret_l.
  rewrite (SumFacts.np_mean_quiet _ F2), bind_ret_l.
  assert (S1 : subtract l1 i1 = ret d1).
  { pose proof (SumFacts.subtract_quiet _ _ _ D1 (proj2 (SumFacts.mean_finite _ F3))) as Q.
    destruct (subtract l1 i1) as [w1 r1]. simpl in D1, Q. now subst. }
  assert (S2 : subtract l2 i2 = ret d2).
  { pose proof (SumFacts.subtract_quiet _ _ _ D2 (proj2 (SumFacts.mean_finite _ F4))) as Q.
    destruct (subtract l2 i2) as [w2 r2]. simpl in D2, Q. now subst. }
  rewrite S1, bind_ret_l, (SumFacts.np_mean_quiet _ F3), bind_ret_l.
  rewrite S2, bind_ret_l, (SumFacts.np_mean_quiet _ F4), bind_ret_l.
  reflexivity.
Qed.

(** How one turn of the loop ends. *)
Lemma loop_body_cases (p : Parameters) (table : list Row) (record : RunRecord) :
  loop_body p table record =
  match entry p record with
  | (_, Raise ex) => ([], Raise ex)
  | (_, Ok e) =>
      match nan_checks record with
      | (w, Raise ex) => (w, Raise ex)
      | (w, Ok _) =>
          match averages record with
          | (w', Ok avg) => (w ++ w', Ok (table ++ [row e avg]))
          | (w', Raise _) => (w ++ w', Ok table)
          end
      end
  end.
Proof.
  unfold loop_body.
  pose proof (entry_silent p record) as S1.
  destruct (entry p record) as [w1 [e|ex]]; simpl in S1; subst w1; [|reflexivity].
  rewrite bind_nil_ok.
  destruct (nan_checks record) as [w2 [u|ex]]; [|reflexivity].
  destruct (averages record) as [w3 [avg|ex]]; simpl; now rewrite app_nil_r.
Qed.

(** A turn that ends well leaves the table as it is or adds the row of the
    record. *)
Lemma loop_body_ok (p : Parameters) (table table' : list Row) (record : RunRecord)
    (w : list string) :
  loop_body p table record = (w, Ok table') ->
  exists e w1 w2, entry p record = ([], Ok e)
  /\ nan_checks record = (w1, Ok tt)
  /\ w = w1 ++ w2
  /\ ((exists avg, averages record = (w2, Ok avg) /\ table' = table ++ [row e avg])
      \/ (exists ex, averages record = (w2, Raise ex) /\ table' = table)).
Proof.
  rewrite loop_body_cases.
  pose proof (entry_silent p record) as S1.
  destruct (entry p record) as [w1 [e|ex]]; simpl in S1; subst w1; [|discriminate].
  destruct (nan_checks record) as [w2 [[]|ex]]; [|discriminate].
  destruct (averages record) as [w3 [avg|ex]];
    intros H; inversion H; subst; exists e, w2, w3; repeat split; eauto.
Qed.

Lemma row_from_entry (p : Parameters) (record : RunRecord)
    (e : string * Z * Z * float * float * Z * float) (avg : float * float * float * float)
    (w : list string) :
  entry p record = ([], Ok e) -> averages record = (w, Ok avg) ->
  row_from p record (row e avg).
Proof.
  intros He Ha. apply entry_ok in He.
  destruct He as [_ (a & k & m & rt & si & sd & t & n & rate & H)].
  destruct H as (H1 & H2 & H3 & H4 & H5 & H6 & H7 & H8 & H9 & ->).
  destruct avg as [[[sdr_m sir_m] sdr_d] sir_d].
  apply averages_ok in Ha. destruct Ha as [Hsdr Hsir].
  constructor; simpl; try assumption.
  exists t, n, rate. auto.
Qed.

Lemma loop_body_row (p : Parameters) (table table' : list Row) (record : RunRecord)
    (w : list string) :
  loop_body p table record = (w, Ok table') ->
  table' = table \/ exists r, table' = table ++ [r] /\ row_from p record r.
Proof.
  intros H. apply loop_body_ok in H.
  destruct H as (e & w1 & w2 & He & _ & _ & [(avg & Ha & ->)|(ex & _ & ->)]);
    [right|now left].
  exists (row e avg). split; [reflexivity|]. now apply (row_from_entry _ _ _ _ w2).
Qed.

Lemma build_table_app (p : Parameters) (l1 l2 : list RunRecord) (table : list Row) :
  build_table p (l1 ++ l2) table
  = bind (build_table p l1 table) (fun t => build_table p l2 t).
Proof.
  revert table. induction l1 as [|record l1 IH]; intros table; simpl.
  - now destruct (build_table p l2 table).
  - destruct (loop_body p table record) as [w [t|ex]]; [|reflexivity].
    simpl. rewrite IH.
    destruct (build_table p l1 t) as [w1 [t1|ex]]; simpl.
    + destruct (build_table p l2 t1) as [w2 r]. now rewrite app_assoc.
    + reflexivity.
Qed.

(** The loop only ever adds rows, each of them the row of a record. *)
Lemma build_table_rows (p : Parameters) (records : list RunRecord)
    (table rows : list Row) (w : list string) :
  build_table p records table = (w, Ok rows) ->
  exists more, rows = table ++ more
    /\ Forall (fun r => exists record, In record records /\ row_from p record r) more.
Proof.
  revert table w. induction records as [|record records IH]; intros table w H; simpl in H.
  - inversion H; subst. exists []. now rewrite app_nil_r.
  - apply bind_ok in H. destruct H as (w1 & t & w2 & Hb & H & ->).
    apply IH in H. destruct H as (more & -> & Hm).
    assert (Hm' : Forall (fun r => exists rc, In rc (record :: records) /\ row_from p rc r) more).
    { eapply Forall_impl; [|exact Hm]. intros r (rc & Hin & Hr). exists rc. split; [now right|assumption]. }
    apply loop_body_row in Hb. destruct Hb as [->|(r & -> & Hr)].
    + exists more. auto.
    + exists (r :: more). split; [now rewrite <- app_assoc|].
      constructor; [|assumption]. exists record. split; [now left|assumption].
Qed.

(** A loop that ends well went through each of its records. *)
Lemma build_table_split (p : Parameters) (pre post : list RunRecord) (record : RunRecord)
    (table rows : list Row) (w : list string) :
  build_table p (pre ++ record :: post) table = (w, Ok rows) ->
  exists w1 t1 w2 t2 w3 more,
    build_table p pre table = (w1, Ok t1)
    /\ loop_body p t1 record = (w2, Ok t2)
    /\ build_table p post t2 = (w3, Ok rows)
    /\ w = w1 ++ w2 ++ w3
    /\ rows = t2 ++ more.
Proof.
  rewrite build_table_app. intros H.
  apply bind_ok in H. destruct H as (w1 & t1 & w' & H1 & H & ->).
  simpl in H. apply bind_ok in H. destruct H as (w2 & t2 & w3 & H2 & H3 & ->).
  destruct (build_table_rows _ _ _ _ _ H3) as (more & Hr & _).
  exists w1, t1, w2, t2, w3, more. auto.
Qed.

(** A record that raises stops the loop, unless an earlier one did. *)
Lemma build_table_raises (p : Parameters) (records : list RunRecord) (record : RunRecord) :
  In record records ->
  (forall table, exists w ex, loop_body p table record = (w, Raise ex)) ->
  forall table, exists w ex, build_table p records table = (w, Raise ex).
Proof.
  intros Hin Hr. induction records as [|r records IH]; [destruct Hin|].
  intros table. cbn [build_table].
  destruct (loop_body p table r) as [w1 [t1|ex]] eqn:E.
  - destruct Hin as [->|Hin].
    + destruct (Hr table) as (w & ex & E'). rewrite E in E'. discriminate.
    + destruct (IH Hin t1) as (w & ex & E'). unfold bind. rewrite E'. eauto.
  - unfold bind. eauto.
Qed.

(** The first six required fields are [copy_fields]. *)
Lemma required_copy_fields (record : RunRecord) :
  map fst (firstn 6 (required record)) = copy_fields.
Proof. reflexivity. Qed.

Lemma entry_missing (p : Parameters) (record : RunRecord) (f : string) :
  first_missing record = Some f -> entry p record = ([], Raise (KeyError f)).
Proof.
  unfold first_missing, required, entry.
  destruct (algorithm record); simpl; [|intros H; now inversion H].
  destruct (n_targets record); simpl; [|intros H; now inversion H].
  destruct (n_mics record); simpl; [|intros H; now inversion H].
  destruct (rt60 record); simpl; [|intros H; now inversion H].
  destruct (sinr record); simpl; [|intros H; now inversion H].
  destruct (seed record); simpl; [|intros H; now inversion H].
  destruct (runtime record); simpl; [|intros H; now inversion H].
  destruct (n_samples record); simpl; [discriminate|intros H; now inversion H].
Qed.

(** Vectors of one shape are averaged without an exception. *)
Lemma averages_same_shape (record : RunRecord) (sdrs sirs : list (list float))
    (sdr_i sdr_f sir_i sir_f : list float) :
  sdr record = Some sdrs -> hd_error sdrs = Some sdr_i -> hd_error (rev sdrs) = Some sdr_f ->
  sir record = Some sirs -> hd_error sirs = Some sir_i -> hd_error (rev sirs) = Some sir_f ->
  List.length sdr_f = List.length sdr_i -> List.length sir_f = List.length sir_i ->
  snd (averages record)
  = Ok (mean sdr_f, mean sir_f, mean (zip_sub sdr_f sdr_i), mean (zip_sub sir_f sir_i)).
Proof.
  intros H1 H2 H3 H4 H5 H6 L1 L2.
  rewrite (averages_eq record _ _ _ _ _ _ H1 H2 H3 H4 H5 H6).
  rewrite (bind_snd_ok _ _ _ (SumFacts.np_mean_ok sdr_f)). cbn [snd].
  rewrite (bind_snd_ok _ _ _ (SumFacts.np_mean_ok sir_f)). cbn [snd].
  rewrite (bind_snd_ok _ _ _ (SumFacts.subtract_same_length _ _ L1)). cbn [snd].
  rewrite (bind_snd_ok _ _ _ (SumFacts.np_mean_ok _)). cbn [snd].
  rewrite (bind_snd_ok _ _ _ (SumFacts.subtract_same_length _ _ L2)). cbn [snd].
  rewrite (bind_snd_ok _ _ _ (SumFacts.np_mean_ok _)). reflexivity.
Qed.

(** A record with no iteration in [sdr] raises at line 222 or before. *)
Lemma loop_body_empty_sdr (p : Parameters) (table : list Row) (record : RunRecord) :
  sdr record = Some [] ->
  exists w ex, loop_body p table record = (w, Raise ex).
Proof.
  intros H. rewrite loop_body_cases.
  destruct (entry p record) as [w1 [e|ex]] eqn:E; [|eauto].
  apply entry_ok in E.
  destruct E as [_ (a & k & m & rt & si & sd & t & n & rate & Ha & _ & _ & _ & _ & _ & Ht & _)].
  rewrite (nan_checks_eq record a t Ha Ht), H. simpl. eauto.
Qed.

End TableFacts.

(** ** The loader and the cache *)

Module LoaderFacts.

Import MonadFacts TableFacts.

Section Loader.

Context {P : Pickle}.

Lemma read_dirs_silent (files : FileSystem) (dirs data_files : list string)
    (p0 : Parameters) :
  fst (read_dirs files dirs data_files p0) = [].
Proof.
  revert data_files p0. induction dirs as [|d dirs IH]; intros dfs p0; [reflexivity|].
  cbn [read_dirs]. destruct (json_data files (os_path_join d "data.json")); [|reflexivity].
  rewrite bind_ret_l. unfold load.
  destruct (json_parameters files (os_path_join d "parameters.json")); [|reflexivity].
  rewrite bind_ret_l. apply IH.
Qed.

(** One more turn of the loop of line 156. *)
Lemma read_dirs_snoc (files : FileSystem) (dirs : list string) (d : string)
    (data_files : list string) (p0 : Parameters) :
  read_dirs files (dirs ++ [d]) data_files p0
  = bind (read_dirs files dirs data_files p0)
         (fun s => read_dirs files [d] (fst s) (snd s)).
Proof.
  revert data_files p0. induction dirs as [|x dirs IH]; intros dfs p0.
  - simpl app. change (read_dirs files [] dfs p0) with (ret (dfs, p0)).
    now rewrite bind_ret_l.
  - simpl app. cbn [read_dirs].
    destruct (json_data files (os_path_join x "data.json")); [|reflexivity].
    rewrite !bind_ret_l. unfold load.
    destruct (json_parameters files (os_path_join x "parameters.json")); [|reflexivity].
    rewrite !bind_ret_l. apply IH.
Qed.

(** A loop that ends well found both files of every directory, and took
    the data files in order. *)
Lemma read_dirs_ok (files : FileSystem) (dirs data_files data_files' : list string)
    (p0 p' : Parameters) (w : list string) :
  read_dirs files dirs data_files p0 = (w, Ok (data_files', p')) ->
  data_files' = data_files ++ map data_path dirs
  /\ Forall (complete files) dirs.
Proof.
  revert data_files p0. induction dirs as [|d dirs IH]; intros dfs p0 H.
  - inversion H; subst. now rewrite app_nil_r.
  - cbn [read_dirs] in H.
    destruct (json_data files (os_path_join d "data.json")) eqn:E1; [|discriminate].
    rewrite bind_ret_l in H. unfold load in H.
    destruct (json_parameters files (os_path_join d "parameters.json")) eqn:E2;
      [|discriminate].
    rewrite bind_ret_l in H. apply IH in H. destruct H as [-> Hf]. split.
    + now rewrite <- app_assoc.
    + constructor; [|assumption]. unfold complete, data_path, parameters_path.
      rewrite E1, E2. split; discriminate.
Qed.

(** The parameters the loop ends with are those of its last directory. *)
Lemma read_dirs_last (files : FileSystem) (dirs : list string) (d : string)
    (data_files data_files' : list string) (p0 p' : Parameters) (w : list string) :
  read_dirs files (dirs ++ [d]) data_files p0 = (w, Ok (data_files', p')) ->
  json_parameters files (parameters_path d) = Some p'.
Proof.
  rewrite read_dirs_snoc. intros H.
  apply bind_ok in H. destruct H as (w1 & [dfs1 p1] & w2 & _ & H & _).
  cbn [read_dirs fst snd] in H.
  destruct (json_data files (os_path_join d "data.json")); [|discriminate].
  rewrite bind_ret_l in H. unfold load in H. unfold parameters_path.
  destruct (json_parameters files (os_path_join d "parameters.json")); [|discriminate].
  rewrite bind_ret_l in H. now inversion H.
Qed.

(** A directory without its data file stops the loop, at that directory or
    at an earlier one that lacks a file. *)
Lemma read_dirs_missing (files : FileSystem) (dirs : list string) (d : string)
    (data_files : list string) (p0 : Parameters) :
  In d dirs -> json_data files (data_path d) = None ->
  exists ex d',
    read_dirs files dirs data_files p0 = ([], Raise ex)
    /\ In d' dirs
    /\ ((ex = ValueError ("File " ++ data_path d' ++ " doesnt exist")
         /\ json_data files (data_path d') = None)
        \/ (ex = FileNotFoundError (parameters_path d')
            /\ json_data files (data_path d') <> None
            /\ json_parameters files (parameters_path d') = None)).
Proof.
  intros Hin Hd. revert data_files p0.
  induction dirs as [|x dirs IH]; intros dfs p0; [destruct Hin|].
  cbn [read_dirs].
  destruct (json_data files (os_path_join x "data.json")) eqn:E1.
  - rewrite bind_ret_l. unfold load.
    destruct (json_parameters files (os_path_join x "parameters.json")) eqn:E2.
    + rewrite bind_ret_l. destruct Hin as [->|Hin].
      * unfold data_path in Hd. congruence.
      * destruct (IH Hin (dfs ++ [os_path_join x "data.json"]) p) as (ex & d' & H & Hd' & Hc).
        exists ex, d'. split; [assumption|]. split; [now right|assumption].
    + exists (FileNotFoundError (parameters_path x)), x.
      split; [reflexivity|]. split; [now left|]. right.
      unfold data_path. rewrite E1. repeat split; [discriminate|assumption].
  - exists (ValueError ("File " ++ data_path x ++ " doesnt exist")), x.
    split; [reflexivity|]. split; [now left|]. left. split; [reflexivity|assumption].
Qed.

(** The first directory without its data file, after complete ones. *)
Lemma read_dirs_first_missing (files : FileSystem) (pre post : list string) (d : string)
    (data_files : list string) (p0 : Parameters) :
  Forall (complete files) pre ->
  json_data files (data_path d) = None ->
  read_dirs files (pre ++ d :: post) data_files p0
  = ([], Raise (ValueError ("File " ++ data_path d ++ " doesnt exist"))).
Proof.
  intros Hpre Hd. revert data_files p0.
  induction Hpre as [|x pre [H1 H2] _ IH]; intros dfs p0.
  - simpl app. cbn [read_dirs]. unfold data_path in Hd. now rewrite Hd.
  - simpl app. cbn [read_dirs]. unfold complete, data_path, parameters_path in H1, H2.
    destruct (json_data files (os_path_join x "data.json")); [|congruence].
    rewrite bind_ret_l. unfold load.
    destruct (json_parameters files (os_path_join x "parameters.json")); [|congruence].
    rewrite bind_ret_l. apply IH.
Qed.

Lemma read_records_ok (files : FileSystem) (data_files : list string)
    (records records' : list RunRecord) (w : list string) :
  read_records files data_files records = (w, Ok records') ->
  forall record, In record records' ->
    In record records
    \/ exists file segs seg,
        In file data_files /\ json_data files file = Some segs
        /\ In seg segs /\ In record seg.
Proof.
  revert records w. induction data_files as [|file dfs IH]; intros records w H record Hin.
  - inversion H; subst. now left.
  - cbn [read_records] in H. unfold load in H.
    destruct (json_data files file) as [segs|] eqn:E; [|discriminate].
    rewrite bind_ret_l in H.
    destruct (IH _ _ H record Hin) as [Hr|(f & sg & seg & Hf & Hs & Hseg & Hrec)].
    + apply in_app_or in Hr. destruct Hr as [Hr|Hr]; [now left|].
      right. apply in_concat in Hr. destruct Hr as (seg & Hseg & Hrec).
      exists file, segs, seg. repeat split; auto. now left.
    + right. exists f, sg, seg. repeat split; auto. now right.
Qed.


End Loader.

End LoaderFacts.

(** * The claims *)

Import FloatFacts SortFacts RatioFacts MonadFacts TableFacts LoaderFacts.

(** C1, amended.  For two median tables [a] (baseline) and [b] (comparison)
    with at least one coordinate at which the ratio [b / a] is not a NaN,
    [proc_ratio (b / a)] returns the points
    [(sources / mics, median(b) / median(a))] of exactly the coordinates that
    both tables have labels for and at which the ratio is not a NaN, each
    once, in ascending order of the first coordinate; what it warns of is
    what numpy warns of when [sources / mics] divides by zero, and nothing
    when the first coordinate of every point is finite; no such coordinate
    has a missing (NaN) entry in either table; the result is the only one
    the two tables give; and on the baseline [{(1,2): 4.0, (2,4): 8.0}] and
    the comparison [{(1,2): 2.0, (2,4): 8.0}] it is [[0.5, 0.5], [0.5, 1.0]],
    with no warning. *)
Theorem proc_ratio_returns_ratio_points (b a : PivotTable) :
  (exists c, In c (coordinates (frame_div b a)) /\ has_ratio b a c = true) ->
  (exists out,
      proc_ratio (frame_div b a) = (division_warnings (frame_div b a), Ok out)
      /\ Permutation out (ratio_points b a)
      /\ Sorted by_first out
      /\ (Forall (fun pt => is_finite (fst pt) = true) out ->
          proc_ratio (frame_div b a) = ret out)
      /\ (forall w' out', proc_ratio (frame_div b a) = (w', Ok out') -> out' = out))
  /\ (forall c, has_ratio b a c = true ->
        labelled b a c = true
        /\ isnan (pt_at b (fst c) (snd c)) = false
        /\ isnan (pt_at a (fst c) (snd c)) = false)
  /\ proc_ratio (frame_div example_comparison example_baseline)
     = ret [ (0.5, 0.5); (0.5, 1.0) ]%float.
Proof.
  intros H. apply ratio_points_not_nil in H. split; [|split].
  - eexists. split; [apply proc_ratio_ok, H|]. split; [|split; [|split]].
    + rewrite <- points_ratio_points. apply take_argsort_perm.
    + apply (take_argsort_sorted (nan, nan) fst).
    + intros F. rewrite (proc_ratio_ok _ H). unfold ret. f_equal.
      apply division_warnings_quiet. rewrite Forall_forall in *. intros pt Hin.
      apply F. apply (Permutation_in _ (Permutation_sym (take_argsort_perm _ fst _))), Hin.
    + intros w' out' E. rewrite (proc_ratio_ok _ H) in E. now inversion E.
  - apply has_ratio_not_missing.
  - vm_compute. reflexivity.
Qed.

Lemma proc_ratio_returns_ratio_points_example :
  (exists c, In c (coordinates (frame_div example_comparison example_baseline))
             /\ has_ratio example_comparison example_baseline c = true)
  /\ exists out,
      proc_ratio (frame_div example_comparison example_baseline)
      = (division_warnings (frame_div example_comparison example_baseline), Ok out)
      /\ Permutation out (ratio_points example_comparison example_baseline)
      /\ Sorted by_first out.
Proof.
  assert (H : exists c, In c (coordinates (frame_div example_comparison example_baseline))
                        /\ has_ratio example_comparison example_baseline c = true).
  { exists (1%Z, 2%Z). split; [vm_compute; now left | vm_compute; reflexivity]. }
  split; [exact H|].
  destruct (proc_ratio_returns_ratio_points example_comparison example_baseline H)
    as [(out & E & Hp & Hs & _) _].
  exists out. auto.
Defined.

(** C1 as stated fails: both tables hold the finite median [0.0] at the
    coordinate [(1, 2)], the ratio there is [0.0 / 0.0], a NaN, and
    [proc_ratio] returns the one point of [(2, 4)] and none for [(1, 2)]. *)
Lemma proc_ratio_omits_zero_over_zero :
  both_finite zero_comparison zero_baseline (1%Z, 2%Z) = true
  /\ In (1%Z, 2%Z) (coordinates (frame_div zero_comparison zero_baseline))
  /\ proc_ratio (frame_div zero_comparison zero_baseline) = ret [ (0.5, 1.0) ]%float
  /\ ~ (exists out,
          proc_ratio (frame_div zero_comparison zero_baseline) = ret out
          /\ Permutation out (finite_points zero_comparison zero_baseline)).
Proof.
  split; [vm_compute; reflexivity|].
  split; [vm_compute; now left|].
  assert (E : proc_ratio (frame_div zero_comparison zero_baseline) = ret [ (0.5, 1.0) ]%float)
    by (vm_compute; reflexivity).
  split; [exact E|].
  intros (out & E' & Hp). rewrite E in E'. inversion E'; subst out.
  apply Permutation_length in Hp. vm_compute in Hp. discriminate.
Qed.

(** C10.  [proc_ratio] raises an [IndexError] exactly on the frames whose
    entry is a NaN at every coordinate, and returns on exactly the frames with
    an entry that is not a NaN, with the warnings of numpy's divisions by a
    microphone count of zero; the ratio of the tables [{(2,4): 8.0}] and
    [{(1,2): 4.0}], which share no coordinate, is a frame of NaN only. *)
Theorem proc_ratio_raises_on_all_nan :
  (forall r : PivotTable,
      (forall c, In c (coordinates r) -> isnan (pt_at r (fst c) (snd c)) = true)
      <-> proc_ratio r = raise IndexError)
  /\ (forall r : PivotTable,
      (exists c, In c (coordinates r) /\ isnan (pt_at r (fst c) (snd c)) = false)
      <-> exists out, proc_ratio r = (division_warnings r, Ok out))
  /\ (forall c, In c (coordinates (frame_div apart_comparison apart_baseline)) ->
        isnan (pt_at (frame_div apart_comparison apart_baseline) (fst c) (snd c)) = true)
  /\ proc_ratio (frame_div apart_comparison apart_baseline) = raise IndexError.
Proof.
  split; [|split; [|split]].
  - intros r. rewrite <- points_nil_iff. apply proc_ratio_raises.
  - intros r. rewrite <- points_not_nil. split.
    + intros H. eexists. apply proc_ratio_ok, H.
    + intros (out & E) H. apply proc_ratio_raises in H. rewrite H in E. discriminate.
  - apply points_nil_iff. vm_compute. reflexivity.
  - vm_compute. reflexivity.
Qed.

(** C2, which the code breaks.  A record whose [sdr] holds no iteration is
    never dropped: line 222 reads [record["sdr"][-1]] before the [try], so the
    turn of such a record raises, and so does the loop over any records that
    hold one; with a good record before it and after it, the [IndexError] of
    line 222 ends the loop and no table is built. *)
Theorem empty_sdr_aborts :
  (forall (p : Parameters) (records : list RunRecord) (record : RunRecord),
      In record records -> sdr record = Some [] ->
      forall table, exists w ex, build_table p records table = (w, Raise ex))
  /\ loop_body (sampled_at 16000) [] empty_sdr_run = ([], Raise IndexError)
  /\ build_table (sampled_at 16000) [real_time_run; empty_sdr_run; real_time_run] []
     = ([], Raise IndexError).
Proof.
  split; [|split].
  - intros p records record Hin H. apply (build_table_raises p records record Hin).
    intros table. now apply loop_body_empty_sdr.
  - vm_compute. reflexivity.
  - vm_compute. reflexivity.
Qed.

(** C3, amended.  For a record whose seven entry values are read and whose
    [sdr] and [sir] each have a first and a last vector of one length, the
    loop adds one row; its [SDR Improvement [dB]] is numpy's mean over the
    sources of the final vector minus the initial one, entry by entry, its
    [SIR Improvement [dB]] likewise, and its [SDR [dB]] and [SIR [dB]] are
    the means of the final vectors.  The mean is the binary64 sum of the
    entries over their number; up to seven sources are added from left to
    right, more of them in the order of numpy's pairwise sum, which takes
    every entry once (over the integers it gives their sum); for the ten
    sources of [ten_source_run] the improvement is [10^15 + 0.75], where
    adding from left to right would give [10^15]. *)
Theorem improvement_is_mean_of_differences
    (p : Parameters) (table : list Row) (record : RunRecord)
    (e : string * Z * Z * float * float * Z * float)
    (sdrs sirs : list (list float)) (sdr_i sdr_f sir_i sir_f : list float) :
  entry p record = ret e ->
  sdr record = Some sdrs -> hd_error sdrs = Some sdr_i -> hd_error (rev sdrs) = Some sdr_f ->
  sir record = Some sirs -> hd_error sirs = Some sir_i -> hd_error (rev sirs) = Some sir_f ->
  List.length sdr_f = List.length sdr_i -> List.length sir_f = List.length sir_i ->
  (exists w r,
    loop_body p table record = (w, Ok (table ++ [r]))
    /\ row_from p record r
    /\ SDR_Improvement r = mean (zip_sub sdr_f sdr_i)
    /\ SIR_Improvement r = mean (zip_sub sir_f sir_i)
    /\ SDR r = mean sdr_f
    /\ SIR r = mean sir_f
    /\ (0 < List.length sdr_f < 8 ->
        SDR_Improvement r
        = (fold_left add (zip_sub sdr_f sdr_i) neg_zero
           / Z2F (Z.of_nat (List.length sdr_f)))%float)
    /\ (0 < List.length sir_f < 8 ->
        SIR_Improvement r
        = (fold_left add (zip_sub sir_f sir_i) neg_zero
           / Z2F (Z.of_nat (List.length sir_f)))%float))
  /\ (forall zs : list Z, pairwise_sum Z.add 0%Z zs = fold_right Z.add 0%Z zs)
  /\ (exists r,
        build_table (sampled_at 16000) [ten_source_run] [] = ([], Ok [r])
        /\ SDR_Improvement r = 1000000000000000.75%float
        /\ (fold_left add (zip_sub ten (repeat 0 10)) neg_zero / 10)%float
           = 1000000000000000%float).
Proof.
  intros He H1 H2 H3 H4 H5 H6 L1 L2. split; [|split].
  - pose proof (averages_same_shape record _ _ _ _ _ _ H1 H2 H3 H4 H5 H6 L1 L2) as Ha.
    rewrite loop_body_cases, He. unfold ret.
    destruct (averages record) as [w' avg] eqn:Ea. simpl in Ha. subst avg.
    destruct (nan_checks record) as [w [[]|ex]] eqn:N.
    + exists (w ++ w'). eexists. split; [reflexivity|]. split.
      * now apply (row_from_entry _ _ _ _ w').
      * destruct e as [[[[[[a k] m] rt] si] sd] rtf]. cbn [row SDR_Improvement
          SIR_Improvement SDR SIR].
        repeat (split; [reflexivity|]).
        assert (Z : forall a b, List.length a = List.length b -> 0 < List.length a < 8 ->
                      mean (zip_sub a b)
                      = (fold_left add (zip_sub a b) neg_zero
                         / Z2F (Z.of_nat (List.length a)))%float).
        { intros a0 b0 L B.
          assert (Lz : List.length (zip_sub a0 b0) = List.length a0).
          { rewrite SumFacts.zip_sub_combine, length_map, length_combine. lia. }
          rewrite <- Lz. apply SumFacts.mean_few; [|lia].
          intros E. rewrite E in Lz. simpl in Lz. lia. }
        split; intros B; now apply Z.
    + exfalso. apply entry_ok in He.
      destruct He as [_ (a & k & m & rt & si & sd & t & n & rate & Ha' & _ & _ & _ & _ & _ & Ht & _)].
      rewrite (nan_checks_eq record a t Ha' Ht), H1, H4 in N.
      rewrite (final_hd _ _ _ H3), (final_hd _ _ _ H6) in N. discriminate.
  - apply SumFacts.pairwise_sum_total.
  - eexists. split; [vm_compute; reflexivity|]. split; vm_compute; reflexivity.
Qed.

Lemma improvement_is_mean_of_differences_example :
  loop_body (sampled_at 16000) [] decimal_run
  = ([], Ok [ row ("overiva_laplace", 2%Z, 4%Z, 0.2, 10, 1%Z, 1)%float
                  (0.2, 0.2, 0.099999999999999992, 0.099999999999999992)%float ])
  /\ exists w r,
    loop_body (sampled_at 16000) [] decimal_run = (w, Ok ([] ++ [r]))
    /\ row_from (sampled_at 16000) decimal_run r
    /\ SDR_Improvement r = mean (zip_sub [0.3; 0.1] [0.1; 0.1])%float
    /\ SIR_Improvement r = mean (zip_sub [0.3; 0.1] [0.1; 0.1])%float
    /\ SDR r = mean [0.3; 0.1]%float
    /\ SIR r = mean [0.3; 0.1]%float
    /\ (0 < 2 < 8 ->
        SDR_Improvement r
        = (fold_left add (zip_sub [0.3; 0.1] [0.1; 0.1]) neg_zero / Z2F 2)%float)
    /\ (0 < 2 < 8 ->
        SIR_Improvement r
        = (fold_left add (zip_sub [0.3; 0.1] [0.1; 0.1]) neg_zero / Z2F 2)%float).
Proof.
  split; [vm_compute; reflexivity|].
  assert (He : entry (sampled_at 16000) decimal_run
               = ret ("overiva_laplace", 2%Z, 4%Z, 0.2%float, 10%float, 1%Z, 1%float))
    by (vm_compute; reflexivity).
  exact (proj1 (improvement_is_mean_of_differences (sampled_at 16000) [] decimal_run _
                  decimal_series decimal_series
                  [0.1; 0.1]%float [0.3; 0.1]%float [0.1; 0.1]%float [0.3; 0.1]%float
                  He eq_refl eq_refl eq_refl eq_refl eq_refl eq_refl eq_refl eq_refl)).
Defined.

(** C3 as stated fails in binary64.  With the initial vector [[0.1, 0.1]] and
    the final one [[0.3, 0.1]] the improvement in the table is the mean of
    [0.3 - 0.1] and [0.0], which is below [0.1], while the difference of the
    two means is [0.2 - 0.1]; with [[2^53, 0]] and [[2^53, 1]] the table has
    [0.5] and the difference of the means is [0], [2^53 + 1] being rounded to
    [2^53]. *)
Lemma improvement_is_not_difference_of_means :
  (exists r,
      build_table (sampled_at 16000) [decimal_run] [] = ([], Ok [r])
      /\ SDR_Improvement r <> (mean [0.3; 0.1] - mean [0.1; 0.1])%float
      /\ SIR_Improvement r <> (mean [0.3; 0.1] - mean [0.1; 0.1])%float)
  /\ (exists r,
      build_table (sampled_at 16000) [large_run] [] = ([], Ok [r])
      /\ SDR_Improvement r = 0.5%float
      /\ (mean [9007199254740992; 1] - mean [9007199254740992; 0])%float = 0%float).
Proof.
  split; eexists; (split; [vm_compute; reflexivity|]).
  - split; apply neq_by_eqb; vm_compute; reflexivity.
  - split; vm_compute; reflexivity.
Qed.

(** C4, amended.  Every row of the table comes from a record of the loop,
    and its [Runtime [s]] is the binary64 value of
    [runtime / n_samples * fs], computed from left to right with the
    sampling rate of the parameters; for the runtime [2.0] with [16000]
    samples at [16000] Hz it is [2.0]. *)
Theorem runtime_is_normalised
    (p : Parameters) (records : list RunRecord) (w : list string) (rows : list Row)
    (r : Row) :
  build_table p records [] = (w, Ok rows) -> In r rows ->
  (exists record t n rate,
      In record records /\ row_from p record r
      /\ runtime record = Some t /\ n_samples record = Some n /\ fs p = Some rate
      /\ Runtime r = (t / Z2F n * Z2F rate)%float)
  /\ (exists r2,
      build_table (sampled_at 16000) [real_time_run] [] = ([], Ok [r2])
      /\ Runtime r2 = 2%float).
Proof.
  intros H Hin. split.
  - apply build_table_rows in H. destruct H as (more & -> & Hm).
    simpl in Hin. rewrite Forall_forall in Hm.
    destruct (Hm r Hin) as (record & Hrec & Hr).
    destruct (from_runtime _ _ _ Hr) as (t & n & rate & Ht & Hn & Hf & E).
    exists record, t, n, rate. auto 7.
  - eexists. split; vm_compute; reflexivity.
Qed.

Lemma runtime_is_normalised_example :
  exists r,
    build_table (sampled_at 16000) [real_time_run] [] = ([], Ok [r])
    /\ exists record t n rate,
        In record [real_time_run] /\ row_from (sampled_at 16000) record r
        /\ runtime record = Some t /\ n_samples record = Some n
        /\ fs (sampled_at 16000) = Some rate
        /\ Runtime r = (t / Z2F n * Z2F rate)%float.
Proof.
  eexists. split; [vm_compute; reflexivity|].
  eapply (runtime_is_normalised (sampled_at 16000) [real_time_run]).
  - vm_compute. reflexivity.
  - now left.
Defined.

(** C4 as stated fails in binary64: with [n_samples = fs] the column is not
    always the runtime.  One second over 49 samples at 49 Hz gives
    [1.0 / 49 * 49], the float below [1.0]; a tenth of a second over 44100
    samples at 44.1 kHz does not give the runtime back either. *)
Lemma runtime_not_recovered :
  (exists r,
      build_table (sampled_at 49) [short_run] [] = ([], Ok [r])
      /\ runtime short_run = Some 1%float /\ n_samples short_run = fs (sampled_at 49)
      /\ Runtime r <> 1%float)
  /\ (exists r,
      build_table (sampled_at 44100) [cd_run] [] = ([], Ok [r])
      /\ runtime cd_run = Some 0.1%float /\ n_samples cd_run = fs (sampled_at 44100)
      /\ Runtime r <> 0.1%float).
Proof.
  split; eexists; (split; [vm_compute; reflexivity|]);
    (split; [reflexivity|]); (split; [reflexivity|]);
    apply neq_by_eqb; vm_compute; reflexivity.
Qed.

(** C8.  For a record whose entry values and final [sdr] and [sir] vectors
    are read, the turn of the loop raises nothing; its warnings are those of
    a NaN runtime, of a NaN in the final [sdr] vector and of a NaN in the
    final [sir] vector, followed by what numpy warns of in the [try], which
    is nothing when the four averages are finite; the record gets its row
    unless the averages of the [try] raise, whatever was warned of, and the
    row is the row of the record; a NaN runtime is a NaN in [Runtime [s]],
    a NaN in the final [sdr] vector is a NaN in [SDR [dB]] and in
    [SDR Improvement [dB]], and likewise for [sir]; and in a loop that ends
    well the warnings are among those of the loop and the row is in the
    table. *)
Theorem nan_warns_and_keeps
    (p : Parameters) (table : list Row) (record : RunRecord)
    (e : string * Z * Z * float * float * Z * float) (sdr_last sir_last : list float) :
  entry p record = ret e ->
  final "sdr" (sdr record) = ret sdr_last ->
  final "sir" (sir record) = ret sir_last ->
  exists a t,
    algorithm record = Some a /\ runtime record = Some t
    /\ loop_body p table record
       = (nan_warnings a t sdr_last sir_last ++ fst (averages record),
          Ok match snd (averages record) with
             | Ok avg => table ++ [row e avg]
             | Raise _ => table
             end)
    /\ (isnan t = true ->
          In ("NaN runtime: " ++ a)%string (nan_warnings a t sdr_last sir_last)
          /\ forall avg, isnan (Runtime (row e avg)) = true)
    /\ (any_isnan sdr_last = true ->
          In ("NaN SDR: " ++ a)%string (nan_warnings a t sdr_last sir_last)
          /\ forall avg, snd (averages record) = Ok avg ->
               isnan (SDR (row e avg)) = true
               /\ isnan (SDR_Improvement (row e avg)) = true)
    /\ (any_isnan sir_last = true ->
          In ("NaN SIR: " ++ a)%string (nan_warnings a t sdr_last sir_last)
          /\ forall avg, snd (averages record) = Ok avg ->
               isnan (SIR (row e avg)) = true
               /\ isnan (SIR_Improvement (row e avg)) = true)
    /\ (forall avg, snd (averages record) = Ok avg ->
          row_from p record (row e avg)
          /\ (is_finite (SDR (row e avg)) = true ->
              is_finite (SIR (row e avg)) = true ->
              is_finite (SDR_Improvement (row e avg)) = true ->
              is_finite (SIR_Improvement (row e avg)) = true ->
              fst (averages record) = []))
    /\ (forall pre post w rows,
          build_table p (pre ++ record :: post) [] = (w, Ok rows) ->
          (forall msg, In msg (nan_warnings a t sdr_last sir_last) -> In msg w)
          /\ (forall avg, snd (averages record) = Ok avg -> In (row e avg) rows)).
Proof.
  intros He Hsdr Hsir.
  destruct (entry_ok _ _ _ _ He)
    as [_ (a & k & m & rt & si & sd & t & n & rate & Ha & _ & _ & _ & _ & _ & Ht & _ & _ & Ee)].
  assert (L : forall tb, loop_body p tb record
                = (nan_warnings a t sdr_last sir_last ++ fst (averages record),
                   Ok match snd (averages record) with
                      | Ok avg => tb ++ [row e avg]
                      | Raise _ => tb
                      end)).
  { intros tb. rewrite loop_body_cases, He, (nan_checks_eq record a t Ha Ht), Hsdr, Hsir.
    unfold ret. now destruct (averages record) as [w3 [avg|ex]]. }
  assert (A : forall m1 m2 d1 d2, snd (averages record) = Ok (m1, m2, d1, d2) ->
                (exists series, sdr record = Some series /\ averaged series m1 d1)
                /\ (exists series, sir record = Some series /\ averaged series m2 d2)).
  { intros m1 m2 d1 d2 E. destruct (averages record) as [w' r'] eqn:E'.
    simpl in E. subst r'. exact (averages_ok _ _ _ _ _ _ E'). }
  exists a, t. split; [assumption|]. split; [assumption|]. split; [apply L|].
  unfold nan_warnings. split; [|split; [|split; [|split]]].
  - intros N. split.
    + rewrite N. now left.
    + intros [[[sdr_m sir_m] sdr_d] sir_d]. subst e. simpl. unfold normalised, isnan in *.
      now apply mul_nan_l, div_nan_l.
  - intros N. split.
    + rewrite N. apply in_or_app. right. now left.
    + intros [[[m1 m2] d1] d2] E. subst e. cbn [row SDR SDR_Improvement].
      destruct (A _ _ _ _ E) as [(series & Hs & Av) _].
      rewrite Hs in Hsdr. exact (averaged_nan _ _ _ _ _ Hsdr Av N).
  - intros N. split.
    + rewrite N. apply in_or_app. right. apply in_or_app. right. now left.
    + intros [[[m1 m2] d1] d2] E. subst e. cbn [row SIR SIR_Improvement].
      destruct (A _ _ _ _ E) as [_ (series & Hs & Av)].
      rewrite Hs in Hsir. exact (averaged_nan _ _ _ _ _ Hsir Av N).
  - intros avg E. split.
    + destruct (averages record) as [w' r'] eqn:E'. simpl in E. subst r'.
      apply (row_from_entry _ _ _ _ w'); [exact He|exact E'].
    + destruct avg as [[[m1 m2] d1] d2]. subst e. cbn [row SDR SIR SDR_Improvement
        SIR_Improvement]. intros F1 F2 F3 F4.
      now rewrite (averages_quiet _ _ _ _ _ E F1 F2 F3 F4).
  - intros pre post w rows H. apply build_table_split in H.
    destruct H as (w1 & t1 & w2 & t2 & w3 & more & _ & Hb & _ & -> & ->).
    rewrite L in Hb. inversion Hb; subst. split.
    + intros msg Hm. apply in_or_app. right. apply in_or_app. left.
      apply in_or_app. now left.
    + intros avg Havg. rewrite Havg.
      apply in_or_app. left. apply in_or_app. right. now left.
Qed.

Lemma nan_warns_and_keeps_example :
  loop_body (sampled_at 16000) [] nan_run
  = ([ "NaN runtime: overiva_laplace"; "NaN SDR: overiva_laplace";
       "NaN SIR: overiva_laplace" ],
     Ok [ row ("overiva_laplace", 2%Z, 4%Z, 0.2, 10, 1%Z, nan)%float
              (nan, nan, nan, nan)%float ])
  /\ loop_body (sampled_at 16000) [] infinite_run
     = ([ "invalid value encountered in reduce"; "invalid value encountered in reduce" ],
        Ok [ row ("overiva_laplace", 2%Z, 4%Z, 0.2, 10, 1%Z, 1)%float
                 (nan, 4, nan, 2.5)%float ])
  /\ loop_body (sampled_at 16000) [] no_source_run
     = ([ "Mean of empty slice."; "invalid value encountered in scalar divide";
          "Mean of empty slice."; "invalid value encountered in scalar divide";
          "Mean of empty slice."; "invalid value encountered in scalar divide";
          "Mean of empty slice."; "invalid value encountered in scalar divide" ],
        Ok [ row ("overiva_laplace", 2%Z, 4%Z, 0.2, 10, 1%Z, 1)%float
                 (nan, nan, nan, nan)%float ])
  /\ exists e a t,
      algorithm nan_run = Some a /\ runtime nan_run = Some t
      /\ loop_body (sampled_at 16000) [] nan_run
         = (nan_warnings a t [nan; 5]%float [3; nan]%float ++ fst (averages nan_run),
            Ok match snd (averages nan_run) with
               | Ok avg => [] ++ [row e avg]
               | Raise _ => []
               end)
      /\ (any_isnan [nan; 5]%float = true ->
            In ("NaN SDR: " ++ a)%string (nan_warnings a t [nan; 5]%float [3; nan]%float)
            /\ forall avg, snd (averages nan_run) = Ok avg ->
                 isnan (SDR (row e avg)) = true
                 /\ isnan (SDR_Improvement (row e avg)) = true).
Proof.
  split; [vm_compute; reflexivity|]. split; [vm_compute; reflexivity|].
  split; [vm_compute; reflexivity|].
  pose (e := ("overiva_laplace", 2%Z, 4%Z, 0.2%float, 10%float, 1%Z, nan)).
  assert (He : entry (sampled_at 16000) nan_run = ret e) by (vm_compute; reflexivity).
  exists e.
  destruct (nan_warns_and_keeps (sampled_at 16000) [] nan_run e [nan; 5]%float [3; nan]%float
              He eq_refl eq_refl) as (a & t & Ha & Ht & L & _ & N & _).
  exists a, t. auto.
Defined.

(** C9.  A record that lacks one of [algorithm], [n_targets], [n_mics],
    [rt60], [sinr], [seed], [runtime] and [n_samples] is not dropped: after
    records that the loop went through, its turn raises the [KeyError] of the
    first field it lacks, outside the [try], and the loop ends there with no
    table, whatever records follow. *)
Theorem missing_field_aborts
    (p : Parameters) (pre post : list RunRecord) (record : RunRecord)
    (table t1 : list Row) (w1 : list string) (f : string) :
  build_table p pre table = (w1, Ok t1) ->
  first_missing record = Some f ->
  loop_body p t1 record = raise (KeyError f)
  /\ build_table p (pre ++ record :: post) table = (w1, Raise (KeyError f)).
Proof.
  intros Hpre Hf.
  assert (L : loop_body p t1 record = raise (KeyError f)).
  { rewrite loop_body_cases, (entry_missing p record f Hf). reflexivity. }
  split; [exact L|].
  rewrite build_table_app, (bind_step _ _ _ _ Hpre). cbn [build_table].
  rewrite L. simpl. now rewrite app_nil_r.
Qed.

Lemma missing_field_aborts_example :
  first_missing no_n_samples_run = Some "n_samples"
  /\ exists t1,
      build_table (sampled_at 16000) [real_time_run] [] = ([], Ok t1)
      /\ loop_body (sampled_at 16000) t1 no_n_samples_run = raise (KeyError "n_samples")
      /\ build_table (sampled_at 16000)
           ([real_time_run] ++ no_n_samples_run :: [real_time_run]) []
         = ([], Raise (KeyError "n_samples")).
Proof.
  split; [reflexivity|].
  eexists. split; [vm_compute; reflexivity|].
  apply (missing_field_aborts (sampled_at 16000) [real_time_run] [real_time_run]
           no_n_samples_run []).
  - vm_compute. reflexivity.
  - reflexivity.
Defined.

Section Runs.

Context {P : Pickle}.

Lemma main_read_dirs (pickle_flag : bool) (dirs : list string)
    (files files' : FileSystem) (w : list string) (df : DataFrame) (params : Parameters) :
  main pickle_flag dirs files = (files', (w, Ok (df, params))) ->
  exists data_files,
    read_dirs files dirs [] empty_parameters = ([], Ok (data_files, params))
    /\ ((exists b w', pickle_flag = true /\ pickles files pickle_file = Some b
                      /\ read_pickle b = (w', Ok df) /\ files' = files /\ w = w')
        \/ ((pickle_flag = false \/ pickles files pickle_file = None)
            /\ aggregate files data_files params = (w, Ok df)
            /\ files' = write_pickle files pickle_file (to_pickle df))).
Proof.
  unfold main. destruct dirs as [|d0 dirs0]; [discriminate|].
  pose proof (read_dirs_silent files (d0 :: dirs0) [] empty_parameters) as S.
  destruct (read_dirs files (d0 :: dirs0) [] empty_parameters) as [w0 [[dfs p]|ex]];
    simpl in S; subst w0; [|discriminate].
  destruct pickle_flag.
  - destruct (pickles files pickle_file) as [b|] eqn:E.
    + rewrite bind_nil_ok. intros H. inversion H as [[Hf Hb]]. subst files'.
      apply bind_ok in Hb. destruct Hb as (w1 & df' & w2 & Hr & Hb & ->).
      inversion Hb; subst. exists dfs. split; [reflexivity|]. left.
      exists b, w1. rewrite app_nil_r. auto.
    + destruct (aggregate files dfs p) as [w' [df'|ex]] eqn:A;
        intros H; inversion H; subst.
      exists dfs. split; [reflexivity|]. right. auto.
  - destruct (aggregate files dfs p) as [w' [df'|ex]] eqn:A;
      intros H; inversion H; subst.
    exists dfs. split; [reflexivity|]. right. auto.
Qed.

(** C5.  When the run over the directories [dirs] and then [d] ends well,
    the parameters it keeps are the contents of the [parameters.json] of [d],
    the last directory; and when the table is built rather than read from the
    cache, every row comes from a record of the [data.json] of one of the
    directories, the earlier ones included, with its [Runtime [s]] computed
    with the sampling rate [fs] of the last directory. *)
Theorem last_parameters_win
    (pickle_flag : bool) (dirs : list string) (d : string)
    (files files' : FileSystem) (w : list string) (df : DataFrame) (params : Parameters) :
  main pickle_flag (dirs ++ [d]) files = (files', (w, Ok (df, params))) ->
  json_parameters files (parameters_path d) = Some params
  /\ ((pickle_flag = false \/ pickles files pickle_file = None) ->
      df_columns df = columns
      /\ forall r, In r (df_rows df) ->
           exists dir segs seg record t n rate,
             In dir (dirs ++ [d])
             /\ json_data files (data_path dir) = Some segs
             /\ In seg segs /\ In record seg
             /\ row_from params record r
             /\ runtime record = Some t /\ n_samples record = Some n
             /\ fs params = Some rate
             /\ Runtime r = (t / Z2F n * Z2F rate)%float).
Proof.
  intros H. apply main_read_dirs in H. destruct H as (dfs & Hd & Hc). split.
  - eapply read_dirs_last. exact Hd.
  - intros Hfresh.
    destruct Hc as [(b & w' & Hflag & Hp & _)|(_ & Ha & _)].
    { destruct Hfresh; congruence. }
    unfold aggregate in Ha.
    apply bind_ok in Ha. destruct Ha as (w1 & records & w2 & Hr & Ha & _).
    apply bind_ok in Ha. destruct Ha as (w3 & table & w4 & Ht & Ha & _).
    inversion Ha; subst. split; [reflexivity|]. simpl. intros r Hin.
    apply build_table_rows in Ht. destruct Ht as (more & -> & Hm).
    rewrite Forall_forall in Hm. destruct (Hm r Hin) as (record & Hrec & Hrow).
    destruct (read_records_ok _ _ _ _ _ Hr record Hrec)
      as [[]|(file & segs & seg & Hf & Hs & Hseg & Hrs)].
    apply read_dirs_ok in Hd. destruct Hd as [-> _]. simpl in Hf.
    apply in_map_iff in Hf. destruct Hf as (dir & <- & Hdir).
    destruct (from_runtime _ _ _ Hrow) as (t & n & rate & Ht & Hn & Hfs & E).
    exists dir, segs, seg, record, t, n, rate.
    repeat (split; [assumption|]). exact E.
Qed.

(** C7.  When the [data.json] of a directory of the command line is
    absent, the run raises before any record is read: nothing is warned of,
    no file is written and no table is built.  The exception is the
    [ValueError] of line 165 for a directory without its [data.json], or the
    [FileNotFoundError] of an earlier directory without its
    [parameters.json]; after complete directories it is the [ValueError] of
    the directory itself. *)
Theorem missing_data_file_aborts
    (pickle_flag : bool) (dirs : list string) (d : string) (files : FileSystem) :
  In d dirs -> json_data files (data_path d) = None ->
  (exists ex d',
      main pickle_flag dirs files = (files, ([], Raise ex))
      /\ In d' dirs
      /\ ((ex = ValueError ("File " ++ data_path d' ++ " doesnt exist")
           /\ json_data files (data_path d') = None)
          \/ (ex = FileNotFoundError (parameters_path d')
              /\ json_data files (data_path d') <> None
              /\ json_parameters files (parameters_path d') = None)))
  /\ (forall pre post,
        dirs = pre ++ d :: post -> Forall (complete files) pre ->
        main pickle_flag dirs files
        = (files, ([], Raise (ValueError ("File " ++ data_path d ++ " doesnt exist"))))).
Proof.
  intros Hin Hd. split.
  - destruct (read_dirs_missing files dirs d [] empty_parameters Hin Hd)
      as (ex & d' & Hr & Hd' & Hc).
    exists ex, d'. split; [|auto]. unfold main. rewrite Hr.
    destruct dirs; [destruct Hin|reflexivity].
  - intros pre post -> Hpre. unfold main.
    rewrite (read_dirs_first_missing files pre post d [] empty_parameters Hpre Hd).
    destruct pre; reflexivity.
Qed.

End Runs.

Lemma last_parameters_win_example :
  main false (["first"] ++ ["second"]) two_dirs
  = (write_pickle two_dirs pickle_file two_dirs_frame,
     ([], Ok (two_dirs_frame, sampled_at 16000)))
  /\ json_parameters two_dirs (parameters_path "second") = Some (sampled_at 16000)
  /\ forall r, In r (df_rows two_dirs_frame) ->
       exists dir segs seg record t n rate,
         In dir (["first"] ++ ["second"])
         /\ json_data two_dirs (data_path dir) = Some segs
         /\ In seg segs /\ In record seg
         /\ row_from (sampled_at 16000) record r
         /\ runtime record = Some t /\ n_samples record = Some n
         /\ fs (sampled_at 16000) = Some rate
         /\ Runtime r = (t / Z2F n * Z2F rate)%float.
Proof.
  assert (E : main false (["first"] ++ ["second"]) two_dirs
              = (write_pickle two_dirs pickle_file two_dirs_frame,
                 ([], Ok (two_dirs_frame, sampled_at 16000))))
    by (vm_compute; reflexivity).
  split; [exact E|].
  destruct (last_parameters_win false ["first"] "second" two_dirs _ _ _ _ E)
    as [Hp Hrows].
  split; [exact Hp|]. exact (proj2 (Hrows (or_introl eq_refl))).
Defined.

Lemma missing_data_file_aborts_example :
  In "third" ["first"; "third"; "second"]
  /\ json_data two_dirs (data_path "third") = None
  /\ main false ["first"; "third"; "second"] two_dirs
     = (two_dirs, ([], Raise (ValueError "File third/data.json doesnt exist"))).
Proof.
  assert (Hin : In "third" ["first"; "third"; "second"]) by (right; now left).
  split; [exact Hin|]. split; [reflexivity|].
  refine (proj2 (missing_data_file_aborts false ["first"; "third"; "second"] "third"
                   two_dirs Hin eq_refl) ["first"] ["second"] eq_refl _).
  constructor; [|constructor]. split; discriminate.
Defined.

(** * Further properties *)

(** ** The loop over the records, continued *)

Module LoopFacts.

Import MonadFacts TableFacts.





(** A turn that ends well read the record, warned of its NaN and added
    nothing or its row. *)
Lemma loop_body_full (p : Parameters) (table table' : list Row) (record : RunRecord)
    (w : list string) :
  loop_body p table record = (w, Ok table') ->
  warned record w /\ exists rs, contribution p record rs /\ table' = table ++ rs.
Proof.
  intros H. pose proof H as H0. apply loop_body_ok in H.
  destruct H as (e & wn & wa & He & Hn & -> & Hc).
  destruct (entry_ok _ _ _ _ He)
    as [_ (a & k & m & rt & si & sd & t & n & rate & Ha & _ & _ & _ & _ & _ & Ht & _)].
  rewrite (nan_checks_eq record a t Ha Ht) in Hn.
  pose proof (final_silent "sdr" (sdr record)) as S1.
  pose proof (final_silent "sir" (sir record)) as S2.
  destruct (final "sdr" (sdr record)) as [w1 [sl|ex]] eqn:F1; simpl in S1; subst w1;
    [|discriminate].
  destruct (final "sir" (sir record)) as [w2 [sil|ex]] eqn:F2; simpl in S2; subst w2;
    [|discriminate].
  inversion Hn; subst. split.
  - exists a, t, sl, sil. repeat (split; [assumption || reflexivity|]).
    destruct Hc as [(avg & -> & _)|(ex & -> & _)]; reflexivity.
  - destruct Hc as [(avg & Havg & ->)|(ex & _ & ->)].
    + exists [row e avg]. split; [|reflexivity]. right. eexists. split; [reflexivity|].
      now apply (row_from_entry _ _ _ _ wa).
    + exists []. split; [now left|]. now rewrite app_nil_r.
Qed.

Lemma build_table_full (p : Parameters) (records : list RunRecord)
    (table rows : list Row) (w : list string) :
  build_table p records table = (w, Ok rows) ->
  exists per ws,
    Forall2 (contribution p) records per /\ rows = table ++ List.concat per
    /\ Forall2 warned records ws /\ w = List.concat ws.
Proof.
  revert table w. induction records as [|record records IH]; intros table w H.
  - inversion H; subst. exists [], []. simpl. rewrite app_nil_r. auto.
  - cbn [build_table] in H. apply bind_ok in H.
    destruct H as (w1 & t1 & w2 & Hb & H & ->).
    apply loop_body_full in Hb. destruct Hb as [Hw (rs & Hc & ->)].
    apply IH in H. destruct H as (per & ws & Hper & -> & Hws & ->).
    exists (rs :: per), (w1 :: ws). simpl. rewrite <- app_assoc. auto.
Qed.

Lemma concat_contributions_length (p : Parameters) (records : list RunRecord)
    (per : list (list Row)) :
  Forall2 (contribution p) records per ->
  List.length (List.concat per) <= List.length records.
Proof.
  induction 1 as [|record rs records per Hc _ IH]; simpl; [lia|].
  rewrite length_app. destruct Hc as [->|(r & -> & _)]; simpl; lia.
Qed.

End LoopFacts.

Import LoopFacts.



(** X2.  A record that the loop drops leaves no trace in the table: with
    the record among the others the loop ends as it does without it, with
    the same table or the same exception. *)
Theorem dropped_record_leaves_table
    (p : Parameters) (pre post : list RunRecord) (record : RunRecord) (table : list Row) :
  (forall t, exists w, loop_body p t record = (w, Ok t)) ->
  snd (build_table p (pre ++ record :: post) table)
  = snd (build_table p (pre ++ post) table).
Proof.
  intros Hd. rewrite !build_table_app.
  destruct (build_table p pre table) as [w1 [t1|ex]]; [|reflexivity].
  rewrite !(bind_step _ _ w1 t1 eq_refl). cbn [snd build_table].
  destruct (Hd t1) as (w2 & ->). rewrite (bind_step _ _ w2 t1 eq_refl). reflexivity.
Qed.

Lemma dropped_record_leaves_table_example :
  (forall t, exists w, loop_body (sampled_at 16000) t ragged_run = (w, Ok t))
  /\ snd (build_table (sampled_at 16000) ([real_time_run] ++ ragged_run :: [short_run]) [])
     = snd (build_table (sampled_at 16000) ([real_time_run] ++ [short_run]) []).
Proof.
  assert (Hd : forall t, exists w, loop_body (sampled_at 16000) t ragged_run = (w, Ok t)).
  { intros t. exists []. rewrite loop_body_cases.
    replace (entry (sampled_at 16000) ragged_run)
      with (@ret (string * Z * Z * float * float * Z * float)
              ("overiva_laplace", 2%Z, 4%Z, 0.2%float, 10%float, 1%Z, 1%float))
      by (vm_compute; reflexivity).
    replace (nan_checks ragged_run) with (ret tt) by (vm_compute; reflexivity).
    replace (averages ragged_run)
      with (@raise (float * float * float * float)
              (ValueError "operands could not be broadcast together"))
      by (vm_compute; reflexivity).
    reflexivity. }
  split; [exact Hd|].
  apply (dropped_record_leaves_table (sampled_at 16000) [real_time_run] [short_run]
           ragged_run [] Hd).
Defined.

(** X3.  The two series are read at lines 222 and 225, before the [try]:
    for a record whose entry values are read, a missing [sdr] raises the
    [KeyError] of [sdr]; with a final [sdr] vector at hand, a missing [sir]
    raises the [KeyError] of [sir] and a [sir] with no iteration raises an
    [IndexError].  None of them is caught, and the loop over any records
    with such a record raises. *)
Theorem missing_series_aborts
    (p : Parameters) (table : list Row) (record : RunRecord)
    (e : string * Z * Z * float * float * Z * float) :
  entry p record = ret e ->
  (sdr record = None -> snd (loop_body p table record) = Raise (KeyError "sdr"))
  /\ (forall sdr_last, final "sdr" (sdr record) = ret sdr_last ->
        (sir record = None -> snd (loop_body p table record) = Raise (KeyError "sir"))
        /\ (sir record = Some [] -> snd (loop_body p table record) = Raise IndexError))
  /\ (sdr record = None \/ sir record = None \/ sir record = Some [] ->
      forall records tb, In record records ->
        exists w ex, build_table p records tb = (w, Raise ex)).
Proof.
  intros He.
  destruct (entry_ok _ _ _ _ He)
    as [_ (a & k & m & rt & si & sd & t & n & rate & Ha & _ & _ & _ & _ & _ & Ht & _)].
  assert (L : forall tb, loop_body p tb record
                = match nan_checks record with
                  | (w, Raise ex) => (w, Raise ex)
                  | (w, Ok _) =>
                      match averages record with
                      | (w', Ok avg) => (w ++ w', Ok (tb ++ [row e avg]))
                      | (w', Raise _) => (w ++ w', Ok tb)
                      end
                  end).
  { intros tb. now rewrite loop_body_cases, He. }
  split; [|split].
  - intros H. rewrite L, (nan_checks_eq record a t Ha Ht), H. reflexivity.
  - intros sdr_last Hs. split; intros H;
      rewrite L, (nan_checks_eq record a t Ha Ht), Hs, H; reflexivity.
  - intros H records tb Hin. apply (build_table_raises p records record Hin).
    intros tb'. rewrite L, (nan_checks_eq record a t Ha Ht).
    pose proof (final_silent "sdr" (sdr record)) as S1.
    destruct H as [H|[H|H]].
    + rewrite H. simpl. eauto.
    + destruct (final "sdr" (sdr record)) as [w1 [sl|ex]]; [|eauto].
      rewrite H. simpl. eauto.
    + destruct (final "sdr" (sdr record)) as [w1 [sl|ex]]; [|eauto].
      rewrite H. simpl. eauto.
Qed.

Lemma missing_series_aborts_example :
  snd (loop_body (sampled_at 16000) [] no_sir_run) = Raise (KeyError "sir")
  /\ exists w ex,
      build_table (sampled_at 16000) [real_time_run; no_sir_run] [] = (w, Raise ex).
Proof.
  assert (He : entry (sampled_at 16000) no_sir_run
               = ret ("auxiva_laplace", 2%Z, 4%Z, 0.2%float, 10%float, 1%Z, 1%float))
    by (vm_compute; reflexivity).
  destruct (missing_series_aborts (sampled_at 16000) [] no_sir_run _ He) as (_ & H2 & H3).
  split.
  - apply (proj1 (H2 [3; 5]%float eq_refl)). reflexivity.
  - apply H3; [right; now left|]. right. now left.
Defined.

(** X4.  A record with every required field and [n_samples = 0] is not
    dropped: line 217 divides the runtime by it, the [ZeroDivisionError] is
    raised before the [try], and the loop ends there after the records it
    went through, whatever the sampling rate. *)
Theorem zero_samples_abort
    (p : Parameters) (pre post : list RunRecord) (record : RunRecord)
    (table t1 : list Row) (w1 : list string) :
  build_table p pre table = (w1, Ok t1) ->
  first_missing record = None ->
  n_samples record = Some 0%Z ->
  build_table p (pre ++ record :: post) table = (w1, Raise ZeroDivisionError).
Proof.
  intros Hpre Hf Hn.
  assert (E : entry p record = raise ZeroDivisionError).
  { unfold first_missing, required in Hf. unfold entry. rewrite Hn in *.
    destruct (algorithm record); [|discriminate].
    destruct (n_targets record); [|discriminate].
    destruct (n_mics record); [|discriminate].
    destruct (rt60 record); [|discriminate].
    destruct (sinr record); [|discriminate].
    destruct (seed record); [|discriminate].
    destruct (runtime record); [|discriminate].
    reflexivity. }
  rewrite build_table_app, (bind_step _ _ _ _ Hpre). cbn [build_table].
  rewrite loop_body_cases, E. simpl. now rewrite app_nil_r.
Qed.

Lemma zero_samples_abort_example :
  build_table (sampled_at 16000) ([real_time_run] ++ no_sample_run :: [short_run]) []
  = ([], Raise ZeroDivisionError).
Proof.
  eapply (zero_samples_abort (sampled_at 16000) [real_time_run] [short_run] no_sample_run []).
  - vm_compute. reflexivity.
  - reflexivity.
  - reflexivity.
Defined.

(** X5.  Parameters without [fs] build the empty table from no record, and
    with records they end the loop at the first one: a record with its eight
    required fields and a sample count that is a non-zero float raises the
    [KeyError] of [fs] at line 217. *)
Theorem missing_rate_aborts
    (p : Parameters) (record : RunRecord) (rest : list RunRecord) (table : list Row)
    (n : Z) :
  fs p = None ->
  first_missing record = None ->
  n_samples record = Some n ->
  is_infinity (Z2F n) = false -> is_zero (Z2F n) = false ->
  build_table p [] table = ret table
  /\ build_table p (record :: rest) table = raise (KeyError "fs").
Proof.
  intros Hfs Hf Hn Hi Hz. split; [reflexivity|].
  assert (E : entry p record = raise (KeyError "fs")).
  { unfold first_missing, required in Hf. unfold entry, float_truediv, float_of_int.
    rewrite Hn in *. rewrite Hfs.
    destruct (algorithm record); [|discriminate].
    destruct (n_targets record); [|discriminate].
    destruct (n_mics record); [|discriminate].
    destruct (rt60 record); [|discriminate].
    destruct (sinr record); [|discriminate].
    destruct (seed record); [|discriminate].
    destruct (runtime record); [|discriminate].
    cbn [getitem]. rewrite !bind_ret_l, Hi, bind_ret_l, Hz, bind_ret_l. reflexivity. }
  cbn [build_table]. rewrite loop_body_cases, E. reflexivity.
Qed.

Lemma missing_rate_aborts_example :
  build_table no_rate [] [] = ret []
  /\ build_table no_rate (real_time_run :: [short_run]) [] = raise (KeyError "fs").
Proof.
  apply (missing_rate_aborts no_rate real_time_run [short_run] [] 16000);
    first [ reflexivity | vm_compute; reflexivity ].
Defined.

(** X6.  The loop only appends: when it ends well, the table it returns is
    the table it started from followed, record by record and in the order of
    the records, by nothing or by the one row of the record; so it has at
    most one row more per record. *)
Theorem rows_follow_records
    (p : Parameters) (records : list RunRecord) (table rows : list Row) (w : list string) :
  build_table p records table = (w, Ok rows) ->
  exists per,
    Forall2 (contribution p) records per
    /\ rows = table ++ List.concat per
    /\ List.length rows <= List.length table + List.length records.
Proof.
  intros H. apply build_table_full in H.
  destruct H as (per & ws & Hper & -> & _ & _).
  exists per. split; [assumption|]. split; [reflexivity|].
  rewrite length_app. pose proof (concat_contributions_length p records per Hper). lia.
Qed.

Lemma rows_follow_records_example :
  build_table (sampled_at 16000) [short_run; ragged_run; real_time_run] []
  = ([], Ok (df_rows two_dirs_frame))
  /\ exists per,
      Forall2 (contribution (sampled_at 16000)) [short_run; ragged_run; real_time_run] per
      /\ df_rows two_dirs_frame = [] ++ List.concat per
      /\ List.length (df_rows two_dirs_frame) <= List.length (@nil Row) + 3.
Proof.
  assert (E : build_table (sampled_at 16000) [short_run; ragged_run; real_time_run] []
              = ([], Ok (df_rows two_dirs_frame))) by (vm_compute; reflexivity).
  split; [exact E|].
  exact (rows_follow_records (sampled_at 16000) [short_run; ragged_run; real_time_run] []
           (df_rows two_dirs_frame) [] E).
Defined.

(** X7.  When the loop ends well its warnings are, record by record and in
    the order of the records, the warnings of a NaN runtime, of a NaN in the
    final [sdr] vector and of a NaN in the final [sir] vector of the record,
    then what numpy warned of while the averages of the record were
    computed, and no other; a record that is dropped has its warnings all
    the same. *)
Theorem warnings_follow_records
    (p : Parameters) (records : list RunRecord) (table rows : list Row) (w : list string) :
  build_table p records table = (w, Ok rows) ->
  exists ws, Forall2 warned records ws /\ w = List.concat ws.
Proof.
  intros H. apply build_table_full in H.
  destruct H as (per & ws & _ & _ & Hws & ->). exists ws. auto.
Qed.

Lemma warnings_follow_records_example :
  build_table (sampled_at 16000) [nan_run; real_time_run] []
  = ([ "NaN runtime: overiva_laplace"; "NaN SDR: overiva_laplace";
       "NaN SIR: overiva_laplace" ],
     Ok [ row ("overiva_laplace", 2%Z, 4%Z, 0.2, 10, 1%Z, nan)%float
              (nan, nan, nan, nan)%float;
          row ("overiva_laplace", 2%Z, 4%Z, 0.2, 10, 1%Z, 2)%float
              (4, 4, 2.5, 2.5)%float ])
  /\ build_table (sampled_at 16000) [run 1 16000 [ [1; 2; 3]; [] ]%float series] []
     = ([ "Mean of empty slice."; "invalid value encountered in scalar divide" ], Ok [])
  /\ exists ws,
      Forall2 warned [nan_run; real_time_run] ws
      /\ [ "NaN runtime: overiva_laplace"; "NaN SDR: overiva_laplace";
           "NaN SIR: overiva_laplace" ] = List.concat ws.
Proof.
  assert (E : build_table (sampled_at 16000) [nan_run; real_time_run] []
              = ([ "NaN runtime: overiva_laplace"; "NaN SDR: overiva_laplace";
                   "NaN SIR: overiva_laplace" ],
                 Ok [ row ("overiva_laplace", 2%Z, 4%Z, 0.2, 10, 1%Z, nan)%float
                          (nan, nan, nan, nan)%float;
                      row ("overiva_laplace", 2%Z, 4%Z, 0.2, 10, 1%Z, 2)%float
                          (4, 4, 2.5, 2.5)%float ]))
    by (vm_compute; reflexivity).
  split; [exact E|]. split; [vm_compute; reflexivity|].
  exact (warnings_follow_records (sampled_at 16000) [nan_run; real_time_run] [] _ _ E).
Defined.

(** ** The loader and the cache, continued *)

Module FileFacts.

Import MonadFacts TableFacts LoaderFacts.

Section Files.

Context {P : Pickle}.

(** The loop of line 156 over complete directories. *)
Lemma read_dirs_complete (files : FileSystem) (dirs : list string) (d : string)
    (data_files : list string) (p0 : Parameters) :
  Forall (complete files) (dirs ++ [d]) ->
  exists params,
    json_parameters files (parameters_path d) = Some params
    /\ read_dirs files (dirs ++ [d]) data_files p0
       = ret (data_files ++ map data_path (dirs ++ [d]), params).
Proof.
  revert data_files p0. induction dirs as [|x dirs IH]; intros dfs p0 H.
  - simpl app in *. inversion H as [|? ? [H1 H2] _]; subst.
    unfold data_path, parameters_path in *. cbn [read_dirs].
    destruct (json_data files (os_path_join d "data.json")); [|congruence].
    rewrite bind_ret_l. unfold load.
    destruct (json_parameters files (os_path_join d "parameters.json")) as [q|];
      [|congruence].
    rewrite bind_ret_l. exists q. split; reflexivity.
  - simpl app in *. inversion H as [|? ? [H1 H2] H']; subst.
    unfold complete, data_path, parameters_path in H1, H2. cbn [read_dirs].
    destruct (json_data files (os_path_join x "data.json")); [|congruence].
    rewrite bind_ret_l. unfold load.
    destruct (json_parameters files (os_path_join x "parameters.json")) as [q|];
      [|congruence].
    rewrite bind_ret_l.
    destruct (IH (dfs ++ [os_path_join x "data.json"]) q H') as (params & Hp & ->).
    exists params. split; [assumption|]. simpl map. now rewrite <- app_assoc.
Qed.

(** The loop of line 186 over the data files of complete directories. *)
Lemma read_records_complete (files : FileSystem) (dirs : list string)
    (records : list RunRecord) :
  Forall (complete files) dirs ->
  read_records files (map data_path dirs) records
  = ret (records ++ all_records files dirs).
Proof.
  revert records. induction dirs as [|d dirs IH]; intros records H.
  - simpl. now rewrite app_nil_r.
  - inversion H as [|? ? [H1 _] H']; subst. simpl map. cbn [read_records all_records flat_map].
    unfold load. destruct (json_data files (data_path d)) as [segments|]; [|congruence].
    rewrite bind_ret_l, (IH _ H'). now rewrite <- app_assoc.
Qed.

(** What the loop of line 156 does depends on which files there are and on
    the parameters, not on the records. *)
Lemma read_dirs_with_data (files : FileSystem)
    (data : string -> option (list (list RunRecord)))
    (dirs data_files : list string) (p0 : Parameters) :
  (forall d, In d dirs ->
     (data (data_path d) = None <-> json_data files (data_path d) = None)) ->
  read_dirs (with_data files data) dirs data_files p0
  = read_dirs files dirs data_files p0.
Proof.
  revert data_files p0. induction dirs as [|d dirs IH]; intros dfs p0 H; [reflexivity|].
  cbn [read_dirs with_data json_data json_parameters].
  assert (Hd := H d (or_introl eq_refl)). unfold data_path in Hd.
  assert (IH' := fun dfs p0 => IH dfs p0 (fun x Hx => H x (or_intror Hx))).
  destruct (data (os_path_join d "data.json")) as [s1|],
           (json_data files (os_path_join d "data.json")) as [s2|].
  - rewrite !bind_ret_l. unfold load. cbn [json_parameters].
    destruct (json_parameters files (os_path_join d "parameters.json")); [|reflexivity].
    rewrite !bind_ret_l. apply IH'.
  - destruct Hd as [_ Hd]. now specialize (Hd eq_refl).
  - destruct Hd as [Hd _]. now specialize (Hd eq_refl).
  - reflexivity.
Qed.

End Files.

End FileFacts.

Import FileFacts.

Section MoreRuns.

Context {P : Pickle}.

(** X8.  A run that builds its table and ends well has built it from the
    records of the [data.json] of every directory, taken in the order of
    the command line, segment after segment, a directory named twice giving
    its records twice; the warnings of the run are those of that loop. *)
Theorem table_of_all_records
    (pickle_flag : bool) (dirs : list string)
    (files files' : FileSystem) (w : list string) (df : DataFrame) (params : Parameters) :
  main pickle_flag dirs files = (files', (w, Ok (df, params))) ->
  (pickle_flag = false \/ pickles files pickle_file = None) ->
  build_table params (all_records files dirs) [] = (w, Ok (df_rows df))
  /\ df_columns df = columns.
Proof.
  intros H Hfresh. apply main_read_dirs in H. destruct H as (dfs & Hd & Hc).
  destruct Hc as [(b & w' & Hflag & Hp & _)|(_ & Ha & _)].
  { destruct Hfresh; congruence. }
  apply read_dirs_ok in Hd. destruct Hd as [-> Hcomplete]. simpl app in Ha.
  unfold aggregate in Ha. rewrite (read_records_complete files dirs [] Hcomplete) in Ha.
  rewrite bind_ret_l in Ha. simpl app in Ha.
  destruct (build_table params (all_records files dirs) []) as [w1 [table|ex]];
    [|discriminate].
  rewrite (bind_step _ _ w1 table eq_refl) in Ha. inversion Ha; subst.
  simpl. now rewrite app_nil_r.
Qed.

(** X9.  The cache is never checked against the data: with [-p] and a
    cache file, and directories that have their files, the run reads no
    record and its outcome is the same whatever the data files hold, as long
    as they are there; the files are left as they are. *)
Theorem cache_hides_data
    (dirs : list string) (files : FileSystem) (b : pickled)
    (data : string -> option (list (list RunRecord))) :
  pickles files pickle_file = Some b ->
  (forall d, In d dirs ->
     (data (data_path d) = None <-> json_data files (data_path d) = None)) ->
  snd (main true dirs (with_data files data)) = snd (main true dirs files)
  /\ fst (main true dirs files) = files.
Proof.
  intros Hb Hd. unfold main. rewrite (read_dirs_with_data files data dirs [] _ Hd).
  cbn [with_data pickles]. rewrite Hb.
  destruct dirs as [|d dirs]; [split; reflexivity|].
  destruct (read_dirs files (d :: dirs) [] empty_parameters) as [w [[dfs p]|ex]];
    split; reflexivity.
Qed.

(** X11.  A directory that has its [data.json] and no [parameters.json],
    after directories that have both, ends the run with the
    [FileNotFoundError] of that file: nothing is warned of, no record is
    read, no file is written. *)
Theorem missing_parameters_file_aborts
    (pickle_flag : bool) (pre post : list string) (d : string) (files : FileSystem) :
  Forall (complete files) pre ->
  json_data files (data_path d) <> None ->
  json_parameters files (parameters_path d) = None ->
  main pickle_flag (pre ++ d :: post) files
  = (files, ([], Raise (FileNotFoundError (parameters_path d)))).
Proof.
  intros Hpre Hd Hp.
  assert (R : forall dfs p0, read_dirs files (pre ++ d :: post) dfs p0
                             = ([], Raise (FileNotFoundError (parameters_path d)))).
  { induction Hpre as [|x pre [H1 H2] _ IH]; intros dfs p0.
    - simpl app. cbn [read_dirs]. unfold data_path, parameters_path in *.
      destruct (json_data files (os_path_join d "data.json")); [|congruence].
      rewrite bind_ret_l. unfold load. now rewrite Hp.
    - simpl app. cbn [read_dirs]. unfold complete, data_path, parameters_path in H1, H2.
      destruct (json_data files (os_path_join x "data.json")); [|congruence].
      rewrite bind_ret_l. unfold load.
      destruct (json_parameters files (os_path_join x "parameters.json")); [|congruence].
      rewrite bind_ret_l. apply IH. }
  unfold main. rewrite R. destruct pre; reflexivity.
Qed.

End MoreRuns.

Lemma table_of_all_records_example :
  main false ["second"; "first"; "second"] two_dirs
  = (write_pickle two_dirs pickle_file
       {| df_columns := columns;
          df_rows := [ row ("overiva_laplace", 2%Z, 4%Z, 0.2, 10, 1%Z, 2)%float
                           (4, 4, 2.5, 2.5)%float ]
                     ++ df_rows two_dirs_frame |},
     ([], Ok ({| df_columns := columns;
                 df_rows := [ row ("overiva_laplace", 2%Z, 4%Z, 0.2, 10, 1%Z, 2)%float
                                  (4, 4, 2.5, 2.5)%float ]
                            ++ df_rows two_dirs_frame |}, sampled_at 16000)))
  /\ all_records two_dirs ["second"; "first"; "second"]
     = [real_time_run; short_run; real_time_run]
  /\ build_table (sampled_at 16000) (all_records two_dirs ["second"; "first"; "second"]) []
     = ([], Ok ([ row ("overiva_laplace", 2%Z, 4%Z, 0.2, 10, 1%Z, 2)%float
                      (4, 4, 2.5, 2.5)%float ]
                ++ df_rows two_dirs_frame)).
Proof.
  assert (E : main false ["second"; "first"; "second"] two_dirs
    = (write_pickle two_dirs pickle_file
         {| df_columns := columns;
            df_rows := [ row ("overiva_laplace", 2%Z, 4%Z, 0.2, 10, 1%Z, 2)%float
                             (4, 4, 2.5, 2.5)%float ]
                       ++ df_rows two_dirs_frame |},
       ([], Ok ({| df_columns := columns;
                   df_rows := [ row ("overiva_laplace", 2%Z, 4%Z, 0.2, 10, 1%Z, 2)%float
                                    (4, 4, 2.5, 2.5)%float ]
                              ++ df_rows two_dirs_frame |}, sampled_at 16000))))
    by (vm_compute; reflexivity).
  split; [exact E|]. split; [reflexivity|].
  exact (proj1 (table_of_all_records false ["second"; "first"; "second"] two_dirs
                  _ _ _ _ E (or_introl eq_refl))).
Defined.

Lemma cache_hides_data_example :
  snd (main true ["first"; "second"] (with_data cached_dirs other_data))
  = ([], Ok (two_dirs_frame, sampled_at 16000))
  /\ snd (main true ["first"; "second"] (with_data cached_dirs other_data))
     = snd (main true ["first"; "second"] cached_dirs)
  /\ fst (main true ["first"; "second"] cached_dirs) = cached_dirs.
Proof.
  split; [vm_compute; reflexivity|].
  apply (cache_hides_data ["first"; "second"] cached_dirs two_dirs_frame other_data).
  - reflexivity.
  - intros d [<-|[<-|[]]]; split; discriminate.
Defined.

Lemma missing_parameters_file_aborts_example :
  main false (["second"] ++ "first" :: ["second"])
    (with_data {| json_data := json_data two_dirs;
                  json_parameters := fun path =>
                    if String.eqb path "second/parameters.json"
                    then Some (sampled_at 16000) else None;
                  pickles := pickles two_dirs |} (json_data two_dirs))
  = (with_data {| json_data := json_data two_dirs;
                  json_parameters := fun path =>
                    if String.eqb path "second/parameters.json"
                    then Some (sampled_at 16000) else None;
                  pickles := pickles two_dirs |} (json_data two_dirs),
     ([], Raise (FileNotFoundError "first/parameters.json"))).
Proof.
  apply (missing_parameters_file_aborts (P := plain_pickle) false ["second"] ["second"] "first").
  - constructor; [|constructor]. split; discriminate.
  - discriminate.
  - reflexivity.
Defined.

(** ** Paths, [np.unique] and [np.argsort] *)

Module LibraryFacts.

Import FloatFacts SortFacts RatioFacts.

Lemma endswith_sep_app (a : string) : endswith_sep (a ++ "/") = true.
Proof.
  induction a as [|c a IH]; [reflexivity|].
  simpl. destruct (a ++ "/")%string eqn:E; [|exact IH].
  destruct a; discriminate E.
Qed.

Lemma append_assoc (a b c : string) : ((a ++ b) ++ c)%string = (a ++ (b ++ c))%string.
Proof. induction a as [|x a IH]; simpl; [reflexivity|now rewrite IH]. Qed.

Lemma insert_unique_in (x y : Z) (l : list Z) :
  In y (insert_unique x l) <-> y = x \/ In y l.
Proof.
  induction l as [|z l IH]; simpl.
  - intuition.
  - destruct (x <? z)%Z eqn:E1; [simpl; intuition|].
    destruct (x =? z)%Z eqn:E2.
    + apply Z.eqb_eq in E2. subst z. simpl. intuition.
    + simpl. rewrite IH. intuition.
Qed.

Lemma insert_unique_hd (x a : Z) (l : list Z) :
  (a < x)%Z -> HdRel Z.lt a l -> HdRel Z.lt a (insert_unique x l).
Proof.
  intros Hax Hal. destruct l as [|z l]; simpl; [now constructor|].
  destruct (x <? z)%Z; [now constructor|].
  destruct (x =? z)%Z; [assumption|]. constructor. now inversion Hal.
Qed.

Lemma insert_unique_sorted (x : Z) (l : list Z) :
  Sorted Z.lt l -> Sorted Z.lt (insert_unique x l).
Proof.
  induction 1 as [|z l Hl IH Hz]; simpl; [repeat constructor|].
  destruct (x <? z)%Z eqn:E1.
  - apply Z.ltb_lt in E1. constructor; [now constructor|now constructor].
  - destruct (x =? z)%Z eqn:E2; [now constructor|].
    apply Z.ltb_ge in E1. apply Z.eqb_neq in E2.
    constructor; [assumption|]. apply insert_unique_hd; [lia|assumption].
Qed.

Lemma argsort_eq (keys : list float) :
  argsort keys
  = map fst (sort_keys (map (fun i => (i, nth i keys nan)) (seq 0 (List.length keys)))).
Proof.
  unfold argsort. rewrite <- (map_id keys) at 2.
  now rewrite (combine_seq_keys nan (fun x => x) keys).
Qed.

End LibraryFacts.

Import LibraryFacts.

(** X12.  A directory named with or without its final [/] has the same
    files: for a path that is not empty and does not end in [/],
    [os.path.join] of the path with a [/] added gives what it gives for the
    path; and the empty directory gives the bare file name. *)
Theorem trailing_separator_is_ignored (a b : string) :
  a <> "" -> endswith_sep a = false ->
  os_path_join (a ++ "/") b = os_path_join a b
  /\ data_path (a ++ "/") = data_path a
  /\ parameters_path (a ++ "/") = parameters_path a
  /\ os_path_join "" b = b.
Proof.
  intros Ha He.
  assert (J : forall c, os_path_join (a ++ "/") c = os_path_join a c).
  { intros c. unfold os_path_join. rewrite endswith_sep_app, He, orb_true_r.
    destruct a as [|x a]; [now elim Ha|]. simpl String.eqb.
    simpl orb. apply append_assoc. }
  repeat split; try apply J. 
Qed.

Lemma trailing_separator_is_ignored_example :
  os_path_join ("runs/today" ++ "/") "data.json" = "runs/today/data.json"
  /\ os_path_join "runs/today" "data.json" = "runs/today/data.json".
Proof.
  destruct (trailing_separator_is_ignored "runs/today" "data.json") as (E & _);
    [discriminate|reflexivity|].
  rewrite E. split; reflexivity.
Defined.

(** X13.  What [proc_ratio] returns holds no NaN ratio, and as many points
    as the frame has entries that are not NaN; it never returns the empty
    sequence; and what it warns of is what numpy warns of at the divisions
    [src / mic], nothing when the first coordinate of every point is
    finite. *)
Theorem proc_ratio_returns_no_nan (r : PivotTable) (w : list string)
    (out : list (float * float)) :
  proc_ratio r = (w, Ok out) ->
  Forall (fun pt => isnan (snd pt) = false) out
  /\ List.length out
     = List.length (filter (fun c => negb (isnan (pt_at r (fst c) (snd c)))) (coordinates r))
  /\ out <> []
  /\ w = division_warnings r
  /\ (Forall (fun pt => is_finite (fst pt) = true) out -> w = []).
Proof.
  intros H.
  assert (Hne : points r <> []).
  { intros E. apply proc_ratio_raises in E. rewrite E in H. discriminate. }
  rewrite (proc_ratio_ok r Hne) in H. inversion H; subst. clear H.
  pose proof (take_argsort_perm (nan, nan) fst (points r)) as Hp.
  assert (Hpts : points r
                 = map (fun c => ((Z2F (fst c) / Z2F (snd c))%float, pt_at r (fst c) (snd c)))
                       (filter (fun c => negb (isnan (pt_at r (fst c) (snd c))))
                               (coordinates r))).
  { unfold points, coordinates.
    apply (flat_map_filter (fun src mic => isnan (pt_at r src mic))
             (fun src mic => ((Z2F src / Z2F mic)%float, pt_at r src mic))). }
  split; [|split; [|split; [|split]]].
  - eapply Permutation_Forall; [apply Permutation_sym, Hp|].
    rewrite Hpts. apply Forall_forall. intros pt Hin.
    apply in_map_iff in Hin. destruct Hin as (c & <- & Hc).
    apply filter_In in Hc. destruct Hc as [_ Hc]. simpl. now apply negb_true_iff in Hc.
  - rewrite (Permutation_length Hp), Hpts. apply length_map.
  - intros E. rewrite E in Hp. apply Permutation_nil in Hp. contradiction.
  - reflexivity.
  - intros F. apply division_warnings_quiet.
    eapply Permutation_Forall; [exact Hp|exact F].
Qed.

Lemma proc_ratio_returns_no_nan_example :
  proc_ratio no_microphone
  = ([ "divide by zero encountered in scalar divide" ],
     Ok [ (0.5, 8); (infinity, 2) ]%float)
  /\ Forall (fun pt => isnan (snd pt) = false) [ (0.5, 8); (infinity, 2) ]%float
  /\ List.length [ (0.5, 8); (infinity, 2) ]%float
     = List.length (filter (fun c => negb (isnan (pt_at no_microphone (fst c) (snd c))))
                           (coordinates no_microphone))
  /\ [ (0.5, 8); (infinity, 2) ]%float <> []
  /\ [ "divide by zero encountered in scalar divide" ] = division_warnings no_microphone.
Proof.
  assert (E : proc_ratio no_microphone
              = ([ "divide by zero encountered in scalar divide" ],
                 Ok [ (0.5, 8); (infinity, 2) ]%float)) by (vm_compute; reflexivity).
  split; [exact E|].
  destruct (proc_ratio_returns_no_nan no_microphone _ _ E) as (H1 & H2 & H3 & H4 & _).
  auto.
Defined.

(** X14.  [np.argsort] as modelled returns every position of its argument
    once, and the keys read in that order ascend in the order numpy sorts
    floats by, whatever the keys, NaN and infinities included. *)
Theorem argsort_sorts_positions (keys : list float) :
  Permutation (argsort keys) (seq 0 (List.length keys))
  /\ Sorted Np.le (map (fun i => nth i keys nan) (argsort keys)).
Proof.
  split.
  - rewrite argsort_eq. eapply perm_trans.
    + apply Permutation_map, Permutation_sym, sort_keys_perm.
    + rewrite map_map. simpl. rewrite map_id. apply Permutation_refl.
  - pose proof (take_argsort_sorted nan (fun x : float => x) keys) as H.
    unfold take in H. rewrite map_id in H. exact H.
Qed.

(** X15.  [np.unique] as modelled returns the values of its argument, each
    once, in strictly ascending order. *)
Theorem unique_is_sorted_set (l : list Z) :
  (forall x, In x (unique l) <-> In x l)
  /\ Sorted Z.lt (unique l)
  /\ NoDup (unique l).
Proof.
  assert (Hs : Sorted Z.lt (unique l)).
  { induction l as [|x l IH]; simpl; [constructor|]. now apply insert_unique_sorted. }
  split; [|split; [exact Hs|]].
  - clear Hs. intros x. induction l as [|y l IH]; simpl; [reflexivity|].
    rewrite insert_unique_in, IH. intuition.
  - apply Sorted_StronglySorted in Hs; [|intros a b c; apply Z.lt_trans].
    induction Hs as [|a l' _ IH Ha]; constructor; [|assumption].
    intros Hin. rewrite Forall_forall in Ha. specialize (Ha a Hin). lia.
Qed.

(** ** Names, the melted frame and the layout *)

Module FrameFacts.

Import MonadFacts.

Lemma replaced_cases (d : list (string * string)) (x : string) :
  (replaced d x = x /\ forall k, In k (map fst d) -> String.eqb x k = false)
  \/ (In x (map fst d) /\ In (replaced d x) (map snd d)).
Proof.
  induction d as [|[k v] d IH]; simpl; [left; split; [reflexivity|intros k []]|].
  destruct (String.eqb x k) eqn:E.
  - right. apply String.eqb_eq in E. subst. split; now left.
  - destruct IH as [[H1 H2]|[H1 H2]].
    + left. split; [assumption|]. intros k' [<-|Hk]; [assumption|now apply H2].
    + right. split; now right.
Qed.

Lemma replaced_not_key (d : list (string * string)) (x : string) :
  ~ In x (map fst d) -> replaced d x = x.
Proof.
  intros H. destruct (replaced_cases d x) as [[E _]|[Hin _]]; [assumption|contradiction].
Qed.

Lemma eqb_nan_r (x : float) : (x =? nan)%float = false.
Proof.
  rewrite eqb_spec. change (Prim2SF nan) with S754_nan.
  unfold SFeqb, SFcompare. now destruct (Prim2SF x).
Qed.

Lemma combine_app_same {A B} (l : list A) (a b : list B) :
  List.length l = List.length a -> combine l (a ++ b) = combine l a.
Proof.
  revert a. induction l as [|x l IH]; intros [|y a] H; simpl in *; try discriminate;
    try reflexivity.
  f_equal. apply IH. now inversion H.
Qed.

Lemma loc_map {A} (test : A -> bool) (l : list A) :
  map fst (filter snd (combine l (map test l))) = filter test l.
Proof.
  induction l as [|x l IH]; simpl; [reflexivity|].
  destruct (test x); simpl; now rewrite IH.
Qed.

(** The mask of the melted frame starts with the mask of the table. *)
Lemma select_melt (rows : list Row) (x y : float) :
  exists rest,
    select (melt rows) x y
    = map (fun r => (RT60 r =? x)%float && (SINR r =? y)%float) rows ++ rest.
Proof.
  unfold select, melt, value_vars. cbn [flat_map]. rewrite map_app, map_map.
  eexists. reflexivity.
Qed.

Lemma loc_select_melt (rows : list Row) (x y : float) :
  loc rows (select (melt rows) x y)
  = filter (fun r => (RT60 r =? x)%float && (SINR r =? y)%float) rows.
Proof.
  destruct (select_melt rows x y) as (rest & ->). unfold loc.
  rewrite combine_app_same by now rewrite length_map.
  apply loc_map.
Qed.

Lemma melt_length (rows : list Row) :
  List.length (melt rows) = 5 * List.length rows.
Proof.
  unfold melt, value_vars. cbn [flat_map]. rewrite !length_app, !length_map. simpl. lia.
Qed.

(** Replacing names in the melted frame is melting the table with the
    names replaced. *)
Lemma replace_melt (d : list (string * string)) (rows : list Row) :
  map (replace_melted d) (melt rows) = melt (map (replace_row d) rows).
Proof.
  unfold melt, value_vars. cbn [flat_map]. rewrite !map_app, !map_map. reflexivity.
Qed.

End FrameFacts.

Import FrameFacts.

(** X16.  The three tables of names agree.  Each of the eight names of the
    simulation is replaced at line 273 by a name of [all_algos], the order
    of the boxes, and that one at line 466 by one of the four families, the
    same for the Laplace and the Gauss variant of a method; [all_algos]
    holds the replaced names and no other; replacing twice is replacing
    once; and a name that is none of the eight goes through as it is. *)
Theorem names_are_consistent :
  (forall x, In x (map fst substitutions) ->
     In (replaced substitutions x) all_algos
     /\ In (replaced algo_merge (replaced substitutions x)) families)
  /\ (forall m, In m ["auxiva"; "auxiva_pca"; "overiva"; "ogive"] ->
        replaced algo_merge (replaced substitutions (m ++ "_laplace"))
        = replaced algo_merge (replaced substitutions (m ++ "_gauss")))
  /\ (forall y, In y all_algos <-> In y (map snd substitutions))
  /\ (forall y, In y all_algos <-> In y (map fst algo_merge))
  /\ (forall x, replaced substitutions (replaced substitutions x) = replaced substitutions x)
  /\ (forall x, ~ In x (map fst substitutions) ->
        replaced substitutions x = x
        /\ (~ In x all_algos -> replaced algo_merge (replaced substitutions x) = x)).
Proof.
  split; [|split; [|split; [|split; [|split]]]].
  - intros x Hx. simpl in Hx.
    repeat (destruct Hx as [<-|Hx]; [split; vm_compute; tauto|]). destruct Hx.
  - intros m Hm. simpl in Hm.
    repeat (destruct Hm as [<-|Hm]; [reflexivity|]). destruct Hm.
  - intros y. simpl. tauto.
  - intros y. simpl. tauto.
  - intros x. destruct (replaced_cases substitutions x) as [[E _]|[_ Hin]].
    + now rewrite E.
    + remember (replaced substitutions x) as y eqn:Ey. clear Ey. simpl in Hin.
      repeat (destruct Hin as [<-|Hin]; [reflexivity|]). destruct Hin.
  - intros x Hx. rewrite (replaced_not_key substitutions x Hx). split; [reflexivity|].
    intros Hy. apply replaced_not_key. simpl in *. tauto.
Qed.

Section Prepared.

Context {P : Pickle}.

Lemma prepare_ok (pickle_flag : bool) (dirs : list string) (files files' : FileSystem)
    (w : list string) (pr : Prepared) :
  prepare pickle_flag dirs files = (files', (w, inl pr)) ->
  exists df0 dir h,
    main pickle_flag dirs files = (files', (w, Ok (df0, pr_parameters pr)))
    /\ (pickle_flag = false \/ pickles files pickle_file = None)
    /\ pr_df pr = replace substitutions df0
    /\ pr_df_melt pr = map (replace_melted substitutions) (melt (df_rows df0))
    /\ fig_dir (pr_parameters pr) = ret dir /\ pr_fig_dir pr = dir
    /\ height (pr_df pr) = ret h /\ pr_height pr = h.
Proof.
  unfold prepare.
  destruct (main pickle_flag dirs files) as [f' [w0 [[df0 params]|ex]]]; [|discriminate].
  assert (Hc : (if pickle_flag then pickles files pickle_file else None) = None
               -> pickle_flag = false \/ pickles files pickle_file = None).
  { destruct pickle_flag; auto. }
  destruct (if pickle_flag then pickles files pickle_file else None) as [b|];
    [discriminate|].
  destruct (fig_dir params) as [w1 [dir|ex]] eqn:F; [|discriminate].
  destruct (height (replace substitutions df0)) as [w2 [h|ex]] eqn:G; [|discriminate].
  intros H. inversion H; subst. simpl.
  assert (W1 : w1 = []).
  { unfold fig_dir in F. destruct (name params), (_date params), (_git_sha params);
      inversion F; reflexivity. }
  assert (W2 : w2 = []).
  { unfold height, float_truediv, float_of_int in G.
    destruct (is_infinity (Z2F (n_cols (replace substitutions df0)))); simpl in G;
      [discriminate|].
    destruct (is_zero (Z2F (n_cols (replace substitutions df0)))); simpl in G;
      inversion G; reflexivity. }
  subst. rewrite !app_nil_r. exists df0, dir, h. auto 10.
Qed.

(** X17.  The mask of line 339 is built on the melted frame, five times as
    long as the table, and used at line 466 on the table itself; there it
    selects the lines of the table with the given reverberation time and
    the given SINR, and no other, in their order: the melted frame starts
    with the lines of the table. *)
Theorem mask_of_melted_selects_rows
    (pickle_flag : bool) (dirs : list string) (files files' : FileSystem)
    (w : list string) (pr : Prepared) (rt60_value sinr_value : float) :
  prepare pickle_flag dirs files = (files', (w, inl pr)) ->
  loc (df_rows (pr_df pr)) (select (pr_df_melt pr) rt60_value sinr_value)
  = filter (fun r => (RT60 r =? rt60_value)%float && (SINR r =? sinr_value)%float)
           (df_rows (pr_df pr))
  /\ List.length (pr_df_melt pr) = 5 * List.length (df_rows (pr_df pr))
  /\ (isnan rt60_value = true \/ isnan sinr_value = true ->
      loc (df_rows (pr_df pr)) (select (pr_df_melt pr) rt60_value sinr_value) = []).
Proof.
  intros H. apply prepare_ok in H.
  destruct H as (df0 & dir & h & _ & _ & -> & -> & _).
  rewrite replace_melt. cbn [replace df_rows].
  assert (L := loc_select_melt (map (replace_row substitutions) (df_rows df0))
                 rt60_value sinr_value).
  split; [exact L|]. split; [apply melt_length|].
  intros N. rewrite L. apply RatioFacts.filter_nil_iff. intros r _.
  destruct N as [N|N]; apply FloatFacts.isnan_eq in N; subst.
  - now rewrite eqb_nan_r.
  - rewrite eqb_nan_r. apply andb_false_r.
Qed.

End Prepared.

Lemma mask_of_melted_selects_rows_example :
  exists files' w pr,
    prepare false ["first"; "second"] two_dirs = (files', (w, inl pr))
    /\ (loc (df_rows (pr_df pr)) (select (pr_df_melt pr) 0.2 10)
        = filter (fun r => (RT60 r =? 0.2)%float && (SINR r =? 10)%float)
                 (df_rows (pr_df pr))
        /\ List.length (pr_df_melt pr) = 5 * List.length (df_rows (pr_df pr))
        /\ (isnan 0.2 = true \/ isnan 10 = true ->
            loc (df_rows (pr_df pr)) (select (pr_df_melt pr) 0.2 10) = [])).
Proof.
  do 3 eexists. split; [vm_compute; reflexivity|].
  eapply (mask_of_melted_selects_rows false ["first"; "second"] two_dirs _ _ _
            0.2%float 10%float).
  vm_compute. reflexivity.
Defined.

Section Failures.

Context {P : Pickle}.

(** X18.  A run that reads the cache cannot reach the plots: [df_melt] is
    assigned only where the table is built, so after a run with [-p] that
    read the frame from an existing cache, line 274 raises a [NameError];
    and a [NameError] comes from no other run. *)
Theorem cached_run_has_no_melted_frame
    (pickle_flag : bool) (dirs : list string) (files files' : FileSystem)
    (w : list string) (df : DataFrame) (params : Parameters) :
  main pickle_flag dirs files = (files', (w, Ok (df, params))) ->
  (pickle_flag = true -> forall b, pickles files pickle_file = Some b ->
     prepare pickle_flag dirs files = (files, (w, inr (NameError "df_melt"))))
  /\ (forall x, snd (snd (prepare pickle_flag dirs files)) = inr (NameError x) ->
        x = "df_melt" /\ pickle_flag = true /\ pickles files pickle_file <> None).
Proof.
  intros H. split.
  - intros -> b Hb. pose proof H as H0. apply main_read_dirs in H0.
    destruct H0 as (dfs & _ & [(b' & w' & _ & _ & _ & -> & _)|([Hf|Hn] & _)]);
      [|discriminate|congruence].
    unfold prepare. now rewrite H, Hb.
  - intros x. unfold prepare. rewrite H.
    destruct pickle_flag.
    + destruct (pickles files pickle_file) as [b|].
      * cbn. intros E. inversion E. repeat split. discriminate.
      * destruct (fig_dir params) as [w1 [dir|ex]]; [|discriminate].
        destruct (height (replace substitutions df)) as [w2 [h|ex]]; discriminate.
    + destruct (fig_dir params) as [w1 [dir|ex]]; [|discriminate].
      destruct (height (replace substitutions df)) as [w2 [h|ex]]; discriminate.
Qed.

(** X19.  When the table is built and no record got a row, the cache is
    written all the same, with the empty frame, and then, the three names
    of the figures directory being there, line 319 divides the width by the
    number of distinct source counts, zero, and the run ends in a
    [ZeroDivisionError]. *)
Theorem empty_table_has_no_height
    (pickle_flag : bool) (dirs : list string) (files files' : FileSystem)
    (w : list string) (df : DataFrame) (params : Parameters) (dir : string) :
  main pickle_flag dirs files = (files', (w, Ok (df, params))) ->
  (pickle_flag = false \/ pickles files pickle_file = None) ->
  df_rows df = [] ->
  fig_dir params = ret dir ->
  prepare pickle_flag dirs files = (files', (w, inr (Uncaught ZeroDivisionError)))
  /\ pickles files' pickle_file = Some (to_pickle df).
Proof.
  intros H Hfresh Hrows Hdir. split.
  - unfold prepare. rewrite H, Hdir.
    replace (if pickle_flag then pickles files pickle_file else None)
      with (@None pickled) by (destruct Hfresh as [->| ->]; [|destruct pickle_flag]; reflexivity).
    unfold height, n_cols, replace. cbn [df_rows]. rewrite Hrows. cbn.
    now rewrite app_nil_r.
  - apply main_read_dirs in H.
    destruct H as (dfs & _ & [(b & w' & Hflag & Hp & _)|(_ & _ & ->)]).
    + destruct Hfresh; congruence.
    + reflexivity.
Qed.

(** X20.  The figures go to the directory named after the parameters of
    the last directory of the command line: [figures/] followed by its
    [name], [_date] and [_git_sha], joined by underscores. *)
Theorem figures_named_after_last_directory
    (pickle_flag : bool) (dirs : list string) (d : string) (files files' : FileSystem)
    (w : list string) (pr : Prepared) :
  prepare pickle_flag (dirs ++ [d]) files = (files', (w, inl pr)) ->
  exists n dt g,
    json_parameters files (parameters_path d) = Some (pr_parameters pr)
    /\ name (pr_parameters pr) = Some n
    /\ _date (pr_parameters pr) = Some dt
    /\ _git_sha (pr_parameters pr) = Some g
    /\ pr_fig_dir pr = ("figures/" ++ n ++ "_" ++ dt ++ "_" ++ g)%string.
Proof.
  intros H. apply prepare_ok in H.
  destruct H as (df0 & dir & h & Hm & _ & _ & _ & Hf & -> & _).
  apply main_read_dirs in Hm. destruct Hm as (dfs & Hd & _).
  apply LoaderFacts.read_dirs_last in Hd.
  unfold fig_dir in Hf.
  destruct (name (pr_parameters pr)) as [n|]; [|discriminate].
  destruct (_date (pr_parameters pr)) as [dt|]; [|discriminate].
  destruct (_git_sha (pr_parameters pr)) as [g|]; [|discriminate].
  inversion Hf. exists n, dt, g. auto.
Qed.

(** X21.  Parameters that lack [name], [_date] or [_git_sha] do not stop
    the table from being built and cached: the [KeyError] of the first of
    the three that is missing comes at line 307, after the cache was
    written. *)
Theorem missing_metadata_aborts_after_cache
    (pickle_flag : bool) (dirs : list string) (files files' : FileSystem)
    (w : list string) (df : DataFrame) (params : Parameters) (key : string) :
  main pickle_flag dirs files = (files', (w, Ok (df, params))) ->
  (pickle_flag = false \/ pickles files pickle_file = None) ->
  option_map fst (find (fun f => negb (snd f))
                    [ ("name", present (name params));
                      ("_date", present (_date params));
                      ("_git_sha", present (_git_sha params)) ]) = Some key ->
  prepare pickle_flag dirs files = (files', (w, inr (Uncaught (KeyError key))))
  /\ pickles files' pickle_file = Some (to_pickle df).
Proof.
  intros H Hfresh Hkey. split.
  - unfold prepare. rewrite H.
    replace (if pickle_flag then pickles files pickle_file else None)
      with (@None pickled) by (destruct Hfresh as [->| ->]; [|destruct pickle_flag]; reflexivity).
    unfold fig_dir.
    destruct (name params); simpl in Hkey;
      [|inversion Hkey; cbn; now rewrite app_nil_r].
    destruct (_date params); simpl in Hkey;
      [|inversion Hkey; cbn; now rewrite app_nil_r].
    destruct (_git_sha params); simpl in Hkey;
      [discriminate|inversion Hkey; cbn; now rewrite app_nil_r].
  - apply main_read_dirs in H.
    destruct H as (dfs & _ & [(b & w' & Hflag & Hp & _)|(_ & _ & ->)]).
    + destruct Hfresh; congruence.
    + reflexivity.
Qed.

End Failures.

Lemma cached_run_has_no_melted_frame_example :
  main true ["first"; "second"] cached_dirs
  = (cached_dirs, ([], Ok (two_dirs_frame, sampled_at 16000)))
  /\ prepare true ["first"; "second"] cached_dirs
     = (cached_dirs, ([], inr (NameError "df_melt"))).
Proof.
  assert (E : main true ["first"; "second"] cached_dirs
              = (cached_dirs, ([], Ok (two_dirs_frame, sampled_at 16000))))
    by (vm_compute; reflexivity).
  split; [exact E|].
  exact (proj1 (cached_run_has_no_melted_frame true ["first"; "second"] cached_dirs
                  _ _ _ _ E) eq_refl two_dirs_frame eq_refl).
Defined.

Lemma empty_table_has_no_height_example :
  main false ["first"; "second"] barren_dirs
  = (write_pickle barren_dirs pickle_file {| df_columns := columns; df_rows := [] |},
     ([], Ok ({| df_columns := columns; df_rows := [] |}, sampled_at 16000)))
  /\ prepare false ["first"; "second"] barren_dirs
     = (write_pickle barren_dirs pickle_file {| df_columns := columns; df_rows := [] |},
        ([], inr (Uncaught ZeroDivisionError)))
  /\ pickles (write_pickle barren_dirs pickle_file {| df_columns := columns; df_rows := [] |})
       pickle_file
     = Some {| df_columns := columns; df_rows := [] |}.
Proof.
  assert (E : main false ["first"; "second"] barren_dirs
    = (write_pickle barren_dirs pickle_file {| df_columns := columns; df_rows := [] |},
       ([], Ok ({| df_columns := columns; df_rows := [] |}, sampled_at 16000))))
    by (vm_compute; reflexivity).
  split; [exact E|].
  exact (empty_table_has_no_height false ["first"; "second"] barren_dirs _ _ _ _
           "figures/overiva_20190101_0000000" E (or_introl eq_refl) eq_refl eq_refl).
Defined.

Lemma figures_named_after_last_directory_example :
  exists files' w pr,
    prepare false (["first"] ++ ["second"]) two_dirs = (files', (w, inl pr))
    /\ pr_fig_dir pr = "figures/overiva_20190101_0000000"
    /\ exists n dt g,
        json_parameters two_dirs (parameters_path "second") = Some (pr_parameters pr)
        /\ name (pr_parameters pr) = Some n
        /\ _date (pr_parameters pr) = Some dt
        /\ _git_sha (pr_parameters pr) = Some g
        /\ pr_fig_dir pr = ("figures/" ++ n ++ "_" ++ dt ++ "_" ++ g)%string.
Proof.
  do 3 eexists. split; [vm_compute; reflexivity|]. split; [reflexivity|].
  eapply (figures_named_after_last_directory false ["first"] "second" two_dirs).
  vm_compute. reflexivity.
Defined.

Lemma missing_metadata_aborts_after_cache_example :
  main false ["first"; "second"] anonymous_dirs
  = (write_pickle anonymous_dirs pickle_file two_dirs_frame,
     ([], Ok (two_dirs_frame, anonymous)))
  /\ prepare false ["first"; "second"] anonymous_dirs
     = (write_pickle anonymous_dirs pickle_file two_dirs_frame,
        ([], inr (Uncaught (KeyError "name"))))
  /\ pickles (write_pickle anonymous_dirs pickle_file two_dirs_frame) pickle_file
     = Some two_dirs_frame.
Proof.
  assert (E : main false ["first"; "second"] anonymous_dirs
              = (write_pickle anonymous_dirs pickle_file two_dirs_frame,
                 ([], Ok (two_dirs_frame, anonymous))))
    by (vm_compute; reflexivity).
  split; [exact E|].
  exact (missing_metadata_aborts_after_cache false ["first"; "second"] anonymous_dirs
           _ _ _ _ "name" E (or_introl eq_refl) eq_refl).
Defined.

(** ** The medians and the ratios *)

Module MedianFacts.

Import FloatFacts SortFacts RatioFacts MonadFacts LibraryFacts.

Lemma mem_in (x : Z) (l : list Z) : mem x l = true <-> In x l.
Proof.
  unfold mem. rewrite existsb_exists. split.
  - intros (y & Hy & E). apply Z.eqb_eq in E. now subst.
  - intros H. exists x. split; [assumption|apply Z.eqb_refl].
Qed.

Lemma unique_in (x : Z) (l : list Z) : In x (unique l) <-> In x l.
Proof.
  induction l as [|y l IH]; simpl; [reflexivity|].
  rewrite insert_unique_in, IH. intuition.
Qed.

Lemma align_in_l (x : Z) (l1 l2 : list Z) : In x l1 -> In x (align l1 l2).
Proof.
  intros H. unfold align. destruct (list_eq_dec Z.eq_dec l1 l2); [assumption|].
  apply unique_in, in_or_app. now left.
Qed.

Lemma align_same (l : list Z) : align l l = l.
Proof. unfold align. destruct (list_eq_dec Z.eq_dec l l); [reflexivity|contradiction]. Qed.

Lemma in_group_iff (algo : string) (src mic : Z) (r : Row) :
  in_group algo src mic r = true
  <-> Algorithm r = algo /\ Sources r = src /\ Mics r = mic.
Proof.
  unfold in_group. rewrite !andb_true_iff, String.eqb_eq, !Z.eqb_eq. tauto.
Qed.

(** A median that is a number is the median of a group with a line. *)
Lemma median_of_line (rows : list Row) (algo : string) (src mic : Z) :
  isnan (median_of (group rows algo src mic)) = false ->
  exists r, In r rows /\ Algorithm r = algo /\ Sources r = src /\ Mics r = mic.
Proof.
  unfold median_of, group. intros H.
  destruct (filter (in_group algo src mic) rows) as [|r l] eqn:E.
  - simpl in H. discriminate H.
  - assert (Hr : In r (filter (in_group algo src mic) rows)) by (rewrite E; now left).
    apply filter_In in Hr. destruct Hr as [Hr Hg]. apply in_group_iff in Hg.
    exists r. tauto.
Qed.

Lemma pvtb_getitem_ok (rows : list Row) (algo : string) (w : list string) (t : PivotTable) :
  pvtb_getitem rows algo = (w, Ok t) ->
  w = []
  /\ t = {| pt_columns :=
              unique (map Sources (filter (fun r => String.eqb (Algorithm r) algo)
                                          (filter (kept rows) rows)));
            pt_index := unique (map Mics (filter (kept rows) rows));
            pt_at := fun src mic => median_of (group rows algo src mic) |}.
Proof.
  unfold pvtb_getitem.
  destruct (filter (fun r => String.eqb (Algorithm r) algo) (filter (kept rows) rows));
    intros H; inversion H; auto.
Qed.

Lemma pvtb_getitem_absent (rows : list Row) (algo : string) :
  Forall (fun r => Algorithm r <> algo) rows ->
  pvtb_getitem rows algo = raise (KeyError algo).
Proof.
  intros H. unfold pvtb_getitem.
  replace (filter (fun r => String.eqb (Algorithm r) algo) (filter (kept rows) rows))
    with (@nil Row); [reflexivity|].
  symmetry. apply filter_nil_iff. intros r Hr. apply filter_In in Hr.
  rewrite Forall_forall in H. apply String.eqb_neq. apply H. tauto.
Qed.

(** The labels of a configuration whose median is a number. *)
Lemma labels_of_median (rows : list Row) (algo : string) (c : Z * Z) :
  isnan (median_of (group rows algo (fst c) (snd c))) = false ->
  In (fst c) (unique (map Sources (filter (fun r => String.eqb (Algorithm r) algo)
                                          (filter (kept rows) rows))))
  /\ In (snd c) (unique (map Mics (filter (kept rows) rows))).
Proof.
  intros H. destruct (median_of_line _ _ _ _ H) as (r & Hr & Ha & Hs & Hm).
  assert (Hk : In r (filter (kept rows) rows)).
  { apply filter_In. split; [assumption|]. unfold kept. rewrite Ha, Hs, Hm, H. reflexivity. }
  split; apply unique_in, in_map_iff; exists r.
  - split; [assumption|]. apply filter_In. split; [assumption|]. now apply String.eqb_eq.
  - auto.
Qed.

Lemma unique_NoDup (l : list Z) : NoDup (unique l).
Proof.
  assert (Hs : Sorted Z.lt (unique l)).
  { induction l as [|x l IH]; simpl; [constructor|]. now apply insert_unique_sorted. }
  apply Sorted_StronglySorted in Hs; [|intros a b c; apply Z.lt_trans].
  induction Hs as [|a l' _ IH Ha]; constructor; [|assumption].
  intros Hin. rewrite Forall_forall in Ha. specialize (Ha a Hin). lia.
Qed.

Lemma align_NoDup (l1 l2 : list Z) : NoDup l1 -> NoDup (align l1 l2).
Proof.
  intros H. unfold align. destruct (list_eq_dec Z.eq_dec l1 l2); [assumption|].
  apply unique_NoDup.
Qed.

Lemma list_prod_NoDup {X Y : Type} (xs : list X) (ys : list Y) :
  NoDup xs -> NoDup ys -> NoDup (list_prod xs ys).
Proof.
  intros Hx Hy. induction Hx as [|x xs Hn Hx IH]; simpl; [constructor|].
  apply NoDup_app; [|assumption|].
  - clear IH Hn. induction Hy as [|y ys Hn' Hy IH]; simpl; constructor; [|assumption].
    intros Hin. apply in_map_iff in Hin. destruct Hin as (y' & E & Hy').
    inversion E; subst. contradiction.
  - intros [x' y'] Hin Hin'. apply in_map_iff in Hin. destruct Hin as (y0 & E & _).
    inversion E; subst. apply in_prod_iff in Hin'. destruct Hin' as [Hin' _]. contradiction.
Qed.

(** The points of the ratio of two families: one for each configuration at
    which the ratio of their medians is not NaN. *)
Lemma ratio_of_families (rows : list Row) (algo : string) (b a : PivotTable)
    (w : list string) (out : list (float * float)) :
  pvtb_getitem rows algo = ret b ->
  pvtb_getitem rows "AuxIVA" = ret a ->
  proc_ratio (frame_div b a) = (w, Ok out) ->
  (Forall (fun pt => is_finite (fst pt) = true) out -> w = [])
  /\ ratios_of_medians rows algo out.
Proof.
  intros Hb Ha H.
  apply pvtb_getitem_ok in Hb. destruct Hb as [_ Hb].
  apply pvtb_getitem_ok in Ha. destruct Ha as [_ Ha].
  assert (Hne : points (frame_div b a) <> []).
  { intros E. apply proc_ratio_raises in E. rewrite E in H. discriminate. }
  rewrite (proc_ratio_ok _ Hne) in H. inversion H; subst w out. clear H.
  pose proof (take_argsort_perm (nan, nan) fst (points (frame_div b a))) as Hp.
  split.
  { intros F. apply division_warnings_quiet.
    eapply Permutation_Forall; [exact Hp|exact F]. }
  split; [apply (take_argsort_sorted (nan, nan) fst)|].
  assert (Hpoint : forall c, ratio_point b a c = median_ratio rows algo c).
  { intros c. rewrite Hb, Ha. reflexivity. }
  exists (filter (has_ratio b a) (coordinates (frame_div b a))).
  split; [|split].
  - apply NoDup_filter. unfold coordinates. apply list_prod_NoDup.
    + apply unique_NoDup.
    + cbn [frame_div pt_index]. apply align_NoDup. rewrite Hb. apply unique_NoDup.
  - intros c. rewrite <- Hpoint. split.
    + intros Hc. apply filter_In in Hc. destruct Hc as [_ Hc].
      unfold has_ratio in Hc. apply andb_true_iff in Hc. destruct Hc as [_ Hc].
      now apply negb_true_iff in Hc.
    + intros Hn. apply filter_In.
      assert (Hmb : isnan (median_of (group rows algo (fst c) (snd c))) = false).
      { simpl in Hn. rewrite Hb, Ha in Hn. simpl in Hn. unfold isnan in *.
        destruct (is_nan (median_of (group rows algo (fst c) (snd c)))) eqn:E;
          [|reflexivity].
        now rewrite (div_nan_l _ _ E) in Hn. }
      assert (Hma : isnan (median_of (group rows "AuxIVA" (fst c) (snd c))) = false).
      { simpl in Hn. rewrite Hb, Ha in Hn. simpl in Hn. unfold isnan in *.
        destruct (is_nan (median_of (group rows "AuxIVA" (fst c) (snd c)))) eqn:E;
          [|reflexivity].
        now rewrite (div_nan_r _ _ E) in Hn. }
      destruct (labels_of_median rows algo c Hmb) as [Hsb Hib].
      destruct (labels_of_median rows "AuxIVA" c Hma) as [Hsa Hia].
      assert (Hl : labelled b a c = true).
      { unfold labelled. rewrite Hb, Ha. cbn [pt_columns pt_index].
        rewrite !andb_true_iff, !mem_in. auto. }
      split.
      * unfold coordinates. destruct c as [src mic]. apply in_prod.
        -- apply unique_in. cbn [frame_div pt_columns]. apply align_in_l.
           rewrite Hb. exact Hsb.
        -- cbn [frame_div pt_index]. apply align_in_l. rewrite Hb. exact Hib.
      * unfold has_ratio. rewrite Hl, Hn. reflexivity.
  - rewrite (map_ext _ _ (fun c => eq_sym (Hpoint c))).
    rewrite points_ratio_points in *. exact Hp.
Qed.

Lemma bind_then_raises {A B} (w1 : list string) (a : A) (k : A -> M B) :
  (exists w ex, k a = (w, Raise ex)) ->
  exists w ex, bind (w1, Ok a) k = (w, Raise ex).
Proof.
  intros (w & ex & E). unfold bind. rewrite E. eauto.
Qed.

End MedianFacts.

Import MedianFacts.

(** X22.  The ratios need lines of all four families among the selected
    ones: when no selected line is of one of OverIVA, AuxIVA, PCA+AuxIVA
    and OGIVEw once the names are merged, lines 484-486 raise, and for
    OverIVA, the first family read, it is the [KeyError] of [pvtb["OverIVA"]]. *)
Theorem ratios_need_four_families (selected : list Row) (fam : string) :
  In fam families ->
  Forall (fun r => replaced algo_merge (Algorithm r) <> fam) selected ->
  (exists w ex, runtime_ratios selected = (w, Raise ex))
  /\ (fam = "OverIVA" -> runtime_ratios selected = raise (KeyError "OverIVA")).
Proof.
  intros Hfam Hnone.
  assert (Hk : pvtb_getitem (map (replace_row algo_merge) selected) fam
               = raise (KeyError fam)).
  { apply pvtb_getitem_absent. apply Forall_forall. intros r Hr.
    apply in_map_iff in Hr. destruct Hr as (r0 & <- & Hr0).
    rewrite Forall_forall in Hnone. exact (Hnone r0 Hr0). }
  split.
  - unfold runtime_ratios. cbv zeta.
    simpl in Hfam.
    repeat (destruct Hfam as [<-|Hfam];
            [repeat first
               [ rewrite Hk; eexists; eexists; reflexivity
               | match goal with
                 | |- exists w ex, bind ?m _ = _ =>
                     destruct m as [? [?|?]];
                     [apply bind_then_raises | eexists; eexists; reflexivity]
                 end ]|]).
    destruct Hfam.
  - intros ->. unfold runtime_ratios. now rewrite Hk.
Qed.

Lemma ratios_need_four_families_example :
  exists w ex, runtime_ratios timings_without_ogive = (w, Raise ex).
Proof.
  refine (proj1 (ratios_need_four_families timings_without_ogive "OGIVEw" _ _)).
  - simpl. tauto.
  - repeat constructor; intros E; vm_compute in E; discriminate E.
Defined.

(** X23.  When lines 484-486 return, each of the three lists holds, sorted
    by the ratio of sources to microphones, one point for each configuration
    at which the median runtime of the family over the median runtime of
    AuxIVA is not NaN, that ratio and that quotient, and no other point; and
    nothing is warned of unless a point has a ratio of sources to
    microphones that is not finite. *)
Theorem ratios_are_ratios_of_medians (selected : list Row) (w : list string)
    (ratio_overiva ratio_pca ratio_ogive : list (float * float)) :
  runtime_ratios selected = (w, Ok (ratio_overiva, ratio_pca, ratio_ogive)) ->
  ratios_of_medians (map (replace_row algo_merge) selected) "OverIVA" ratio_overiva
  /\ ratios_of_medians (map (replace_row algo_merge) selected) "PCA+AuxIVA" ratio_pca
  /\ ratios_of_medians (map (replace_row algo_merge) selected) "OGIVEw" ratio_ogive
  /\ (Forall (fun pt => is_finite (fst pt) = true)
             (ratio_overiva ++ ratio_pca ++ ratio_ogive) ->
      w = []).
Proof.
  unfold runtime_ratios. cbv zeta. intros H.
  repeat match type of H with
         | bind (pvtb_getitem _ _) _ = _ =>
             let w1 := fresh "w" in let w2 := fresh "w" in
             let t := fresh "t" in let G := fresh "G" in
             apply MonadFacts.bind_ok in H;
             destruct H as (w1 & t & w2 & G & H & ->);
             destruct (pvtb_getitem_ok _ _ _ _ G) as [-> _]
         | bind (proc_ratio _) _ = _ =>
             let w1 := fresh "w" in let w2 := fresh "w" in
             let out := fresh "out" in let G := fresh "G" in
             apply MonadFacts.bind_ok in H;
             destruct H as (w1 & out & w2 & G & H & ->)
         end.
  inversion H; subst. clear H.
  destruct (ratio_of_families _ _ _ _ _ _ G G0 G1) as (Q1 & P1).
  destruct (ratio_of_families _ _ _ _ _ _ G2 G3 G4) as (Q2 & P2).
  destruct (ratio_of_families _ _ _ _ _ _ G5 G6 G7) as (Q3 & P3).
  repeat (split; [assumption|]).
  intros F. apply Forall_app in F. destruct F as [F1 F]. apply Forall_app in F.
  destruct F as [F2 F3]. now rewrite (Q1 F1), (Q2 F2), (Q3 F3).
Qed.

Lemma ratios_are_ratios_of_medians_example :
  runtime_ratios displayed_timings
  = ([], Ok ([(0.5, 0.5)], [(0.5, 0.5)], [(0.5, 2)]))%float
  /\ ratios_of_medians (map (replace_row algo_merge) displayed_timings)
       "OGIVEw" [(0.5, 2)%float].
Proof.
  assert (E : runtime_ratios displayed_timings
              = ([], Ok ([(0.5, 0.5)], [(0.5, 0.5)], [(0.5, 2)]))%float)
    by (vm_compute; reflexivity).
  split; [exact E|].
  exact (proj1 (proj2 (proj2 (ratios_are_ratios_of_medians _ _ _ _ _ E)))).
Defined.

(** ** The cache, written and read *)

Section Cache.

Context {P : Pickle}.


End Cache.

